(** * pgp-sign-artifact-action: file selection, signing contract, orchestration

    A shallow embedding of cmd/pgp-sign-artifact-action (signer.go,
    signer_gopgp.go, signer_gnupg.go, files.go, main.go, and the test
    doubles of testutil_test.go) together with the parts of the Go
    standard library the program calls (strings, path/filepath on Unix,
    os), followed by the properties of the program.  Of main.go, the
    parsing of the command line, the logger and its output, and the
    version text are left out.

    Conventions.
    - A Go [string] is a Rocq [string]; every character is one byte.  The
      library functions that decode UTF-8 (filepath.Match on [?] and on
      character classes, strings.TrimSpace) are modelled on ASCII text.
    - A Go function returning [(T, error)] returns a pair whose second
      component is [option error]; [None] is the nil error.  A nil slice is
      the empty list, a nil pointer or nil interface value is [None]; an
      interface value that holds a nil pointer is not nil.
    - Code that reads or changes the machine (file system, environment,
      external processes) is a function from a [World] to a result and a
      [World].
    - The file system is a tree of directories and files.  It has no
      links, so that [os.Lstat] and [os.Stat] agree and two names denote
      one file only when they lead to the same place of the tree; it has
      no permissions; and the machine has no quota and no faults of its
      storage, so that a file that has been opened is written in full. *)

From Stdlib Require Import Ascii String.
From stdpp Require Import gmap strings list.

Set Warnings "-register-all,-clear-no-such-hyp".

(** ** Go errors *)

(** [New msg] is [errors.New(msg)] (or [fmt.Errorf] without [%w]);
    [Wrap prefix cause] is [fmt.Errorf(prefix + "%w", cause)]. *)
Inductive error : Type :=
| New (msg : string)
| Wrap (prefix : string) (cause : error).

Fixpoint Error (e : error) : string :=
  match e with
  | New msg => msg
  | Wrap prefix cause => prefix +:+ Error cause
  end.

Definition Unwrap (e : error) : option error :=
  match e with
  | New _ => None
  | Wrap _ cause => Some cause
  end.

Global Instance error_eq_dec : EqDecision error.
Proof. solve_decision. Defined.

(** ** Package strings *)

Module GoStrings.

Definition isSpace (c : ascii) : bool :=
  match c with
  | "009" | "010" | "011" | "012" | "013" | " " => true
  | _ => false
  end%char.

Fixpoint TrimLeftSpace (s : string) : string :=
  match s with
  | String c rest => if isSpace c then TrimLeftSpace rest else s
  | EmptyString => EmptyString
  end.

(** Trailing white space goes: a character is kept when it is not white
    space or when something is kept after it. *)
Fixpoint TrimRightSpace (s : string) : string :=
  match s with
  | EmptyString => EmptyString
  | String c rest =>
      match TrimRightSpace rest with
      | EmptyString => if isSpace c then EmptyString else String c EmptyString
      | kept => String c kept
      end
  end.

Definition TrimSpace (s : string) : string := TrimRightSpace (TrimLeftSpace s).

Definition HasPrefix (s prefix : string) : bool := String.prefix prefix s.

Fixpoint drop (n : nat) (s : string) : string :=
  match n, s with
  | S n', String _ rest => drop n' rest
  | _, _ => s
  end.

Fixpoint take (n : nat) (s : string) : string :=
  match n, s with
  | S n', String c rest => String c (take n' rest)
  | _, _ => EmptyString
  end.

Definition HasSuffix (s suffix : string) : bool :=
  bool_decide (String.length suffix ≤ String.length s) &&
  bool_decide (drop (String.length s - String.length suffix) s = suffix).

Definition TrimPrefix (s prefix : string) : string :=
  if HasPrefix s prefix then drop (String.length prefix) s else s.

Definition TrimSuffix (s suffix : string) : string :=
  if HasSuffix s suffix then take (String.length s - String.length suffix) s else s.

Fixpoint Contains (s substr : string) : bool :=
  HasPrefix s substr ||
  match s with
  | EmptyString => false
  | String _ rest => Contains rest substr
  end.

Fixpoint ContainsAny (s : string) (chars : list ascii) : bool :=
  match s with
  | EmptyString => false
  | String c rest => bool_decide (c ∈ chars) || ContainsAny rest chars
  end.

(** The scan behind [Split] and [ReplaceAll] for a non-empty separator:
    [skip] characters still belong to the occurrence found last, [cur] is
    the piece being collected.  Occurrences are taken left to right and do
    not overlap. *)
Fixpoint splitScan (sep : string) (skip : nat) (cur : string) (s : string) : list string :=
  match s with
  | EmptyString => [cur]
  | String c rest =>
      match skip with
      | S skip' => splitScan sep skip' cur rest
      | O =>
          if HasPrefix s sep
          then cur :: splitScan sep (String.length sep - 1) EmptyString rest
          else splitScan sep O (cur +:+ String c EmptyString) rest
      end
  end.

Fixpoint explode (s : string) : list string :=
  match s with
  | EmptyString => []
  | String c rest => String c EmptyString :: explode rest
  end.

Definition Split (s sep : string) : list string :=
  match sep with
  | EmptyString => explode s
  | _ => splitScan sep O EmptyString s
  end.

Fixpoint Join (elems : list string) (sep : string) : string :=
  match elems with
  | [] => EmptyString
  | [e] => e
  | e :: rest => e +:+ sep +:+ Join rest sep
  end.

(** Used with a non-empty [old] only. *)
Definition ReplaceAll (s old new : string) : string :=
  match old with
  | EmptyString => s
  | _ => Join (splitScan old O EmptyString s) new
  end.

End GoStrings.

(** ** Package path/filepath (Unix) *)

Module Filepath.

Import GoStrings.

Definition Separator : ascii := "/"%char.
Definition sep : string := String Separator EmptyString.

(** ErrBadPattern indicates a pattern was malformed. *)
Definition ErrBadPattern : error := New "syntax error in pattern".

(** *** Clean, Join, Base, Split, Rel

    [Clean] works on the elements between separators: empty elements and
    [.] are dropped, [..] removes the element before it, except that a
    rooted path stays at the root and a relative path keeps leading [..]
    elements. *)

Fixpoint cleanElems (rooted : bool) (stack : list string) (elems : list string) : list string :=
  match elems with
  | [] => stack
  | e :: rest =>
      if bool_decide (e = "") || bool_decide (e = ".") then cleanElems rooted stack rest
      else if bool_decide (e = "..") then
        match last stack with
        | Some top =>
            if bool_decide (top = "..")
            then cleanElems rooted (stack ++ [e]) rest
            else cleanElems rooted (removelast stack) rest
        | None =>
            if rooted then cleanElems rooted stack rest
            else cleanElems rooted (stack ++ [e]) rest
        end
      else cleanElems rooted (stack ++ [e]) rest
  end.

Definition isRooted (path : string) : bool := HasPrefix path sep.

Definition Clean (path : string) : string :=
  let rooted := isRooted path in
  let out := GoStrings.Join (cleanElems rooted [] (GoStrings.Split path sep)) sep in
  if rooted then sep +:+ out
  else if bool_decide (out = "") then "." else out.

(** Join joins the elements from the first non-empty one on and cleans the
    result; it is empty when every element is. *)
Fixpoint Join (elem : list string) : string :=
  match elem with
  | [] => ""
  | e :: rest =>
      if bool_decide (e = "") then Join rest
      else Clean (GoStrings.Join elem sep)
  end.

Fixpoint trimRightSep (s : string) : string :=
  match s with
  | EmptyString => EmptyString
  | String c rest =>
      match trimRightSep rest with
      | EmptyString => if bool_decide (c = Separator) then EmptyString else String c EmptyString
      | kept => String c kept
      end
  end.

(** The text after the last separator ([s] itself when it has none). *)
Fixpoint afterLastSep (s : string) : string :=
  match s with
  | EmptyString => EmptyString
  | String c rest =>
      if Contains rest sep then afterLastSep rest
      else if bool_decide (c = Separator) then rest else s
  end.

Definition Base (path : string) : string :=
  if bool_decide (path = "") then "."
  else
    let path := trimRightSep path in
    let path := afterLastSep path in
    if bool_decide (path = "") then sep else path.

(** Split splits path immediately following the final separator. *)
Definition Split (path : string) : string * string :=
  let file := afterLastSep path in
  (take (String.length path - String.length file) path, file).

Fixpoint dropCommon (base targ : list string) : list string * list string :=
  match base, targ with
  | b :: base', t :: targ' =>
      if bool_decide (b = t) then dropCommon base' targ' else (base, targ)
  | _, _ => (base, targ)
  end.

(** The elements of a cleaned path; the root has none. *)
Definition elemsOf (cleaned : string) : list string :=
  filter (λ e, e ≠ "") (GoStrings.Split cleaned sep).

Definition Rel (basepath targpath : string) : string * option error :=
  let base := Clean basepath in
  let targ := Clean targpath in
  let failure := ("", Some (New ("Rel: can't make " +:+ targpath +:+ " relative to " +:+ basepath))) in
  if bool_decide (targ = base) then (".", None)
  else if negb (bool_decide (isRooted base = isRooted targ)) then failure
  else
    let base := if bool_decide (base = ".") then "" else base in
    let '(b, t) := dropCommon (elemsOf base) (elemsOf targ) in
    if bool_decide (head b = Some "..") then failure
    else (GoStrings.Join (((λ _, "..") <$> b) ++ t) sep, None).

(** *** Match *)

Definition consFst (c : ascii) (p : string * string) : string * string :=
  (String c p.1, p.2).

Fixpoint skipStars (pattern : string) : bool * string :=
  match pattern with
  | String c rest =>
      if bool_decide (c = "*"%char) then (true, (skipStars rest).2) else (false, pattern)
  | EmptyString => (false, pattern)
  end.

Fixpoint scanLoop (inrange : bool) (pattern : string) : string * string :=
  match pattern with
  | EmptyString => (EmptyString, EmptyString)
  | String c rest =>
      if bool_decide (c = "\"%char) then
        (* error check handled in matchChunk: bad pattern. *)
        match rest with
        | String c2 rest2 => consFst c (consFst c2 (scanLoop inrange rest2))
        | EmptyString => (String c EmptyString, EmptyString)
        end
      else if bool_decide (c = "["%char) then consFst c (scanLoop true rest)
      else if bool_decide (c = "]"%char) then consFst c (scanLoop false rest)
      else if bool_decide (c = "*"%char) && negb inrange then (EmptyString, pattern)
      else consFst c (scanLoop inrange rest)
  end.

(** scanChunk gets the next segment of pattern, which is a non-star string
    possibly preceded by a star. *)
Definition scanChunk (pattern : string) : bool * string * string :=
  let '(star, pattern) := skipStars pattern in
  let '(chunk, rest) := scanLoop false pattern in
  (star, chunk, rest).

(** getEsc gets a possibly-escaped character from chunk, for a character
    class.  The character and the rest of the chunk are meaningful only
    when the error is nil. *)
Definition getEsc (chunk : string) : ascii * string * option error :=
  match chunk with
  | EmptyString => (zero, chunk, Some ErrBadPattern)
  | String c rest =>
      if bool_decide (c = "-"%char) || bool_decide (c = "]"%char)
      then (zero, chunk, Some ErrBadPattern)
      else
        let chunk := if bool_decide (c = "\"%char) then rest else chunk in
        match chunk with
        | EmptyString => (zero, chunk, Some ErrBadPattern)
        | String r nchunk =>
            (r, nchunk, if bool_decide (nchunk = "") then Some ErrBadPattern else None)
        end
  end.

Definition runeLe (a b : ascii) : bool := bool_decide (nat_of_ascii a ≤ nat_of_ascii b).

Definition startsWith (c : ascii) (s : string) : bool :=
  match s with
  | String c0 _ => bool_decide (c0 = c)
  | EmptyString => false
  end.

(** The ranges of a character class, up to the closing bracket: the
    remaining chunk and whether [r] is in one of the ranges.  Every turn
    takes at least one character of the chunk, so the fuel, which is more
    than the length of the chunk, does not run out. *)
Fixpoint classLoop (fuel : nat) (chunk : string) (r : ascii) (matched : bool) (nrange : nat)
  : string * bool * option error :=
  match fuel with
  | O => (chunk, matched, Some ErrBadPattern)
  | S fuel =>
      if startsWith "]" chunk && bool_decide (0 < nrange)
      then (drop 1 chunk, matched, None)
      else
        let '(lo, chunk, err) := getEsc chunk in
        match err with
        | Some e => (chunk, matched, Some e)
        | None =>
            let '(hi, chunk, err) :=
              if startsWith "-" chunk then getEsc (drop 1 chunk) else (lo, chunk, None) in
            match err with
            | Some e => (chunk, matched, Some e)
            | None =>
                classLoop fuel chunk r (matched || (runeLe lo r && runeLe r hi)) (S nrange)
            end
        end
  end.

(** The loop of matchChunk; [failed] records whether the match has failed:
    from then on the chunk is only checked for being well formed.  The
    fuel is more than the length of the chunk. *)
Fixpoint matchChunkLoop (fuel : nat) (chunk s : string) (failed : bool)
  : string * bool * option error :=
  match fuel with
  | O => ("", false, Some ErrBadPattern)
  | S fuel =>
      match chunk with
      | EmptyString => if failed then ("", false, None) else (s, true, None)
      | String c rest =>
          let failed := failed || bool_decide (s = "") in
          if bool_decide (c = "["%char) then
            (* character class *)
            let '(r, s) :=
              match s with
              | String r s' => if failed then (zero, s) else (r, s')
              | EmptyString => (zero, s)
              end in
            (* possibly negated *)
            let '(negated, chunk) :=
              if startsWith "^" rest then (true, drop 1 rest) else (false, rest) in
            (* parse all ranges *)
            let '(chunk, matched, err) := classLoop (S (String.length chunk)) chunk r false 0 in
            match err with
            | Some e => ("", false, Some e)
            | None =>
                matchChunkLoop fuel chunk s (failed || bool_decide (matched = negated))
            end
          else if bool_decide (c = "?"%char) then
            match s with
            | String c0 s' =>
                if failed then matchChunkLoop fuel rest s failed
                else matchChunkLoop fuel rest s' (bool_decide (c0 = Separator))
            | EmptyString => matchChunkLoop fuel rest s failed
            end
          else
            let '(lit, rest, err) :=
              if bool_decide (c = "\"%char) then
                match rest with
                | String c1 rest1 => (c1, rest1, None)
                | EmptyString => (c, rest, Some ErrBadPattern)
                end
              else (c, rest, None) in
            match err with
            | Some e => ("", false, Some e)
            | None =>
                match s with
                | String c0 s' =>
                    if failed then matchChunkLoop fuel rest s failed
                    else matchChunkLoop fuel rest s' (negb (bool_decide (lit = c0)))
                | EmptyString => matchChunkLoop fuel rest s failed
                end
            end
      end
  end.

(** matchChunk checks whether chunk matches the beginning of s.  If so, it
    returns the remainder of s (after the match). *)
Definition matchChunk (chunk s : string) : string * bool * option error :=
  matchChunkLoop (S (String.length chunk)) chunk s false.

Inductive starResult : Type :=
| StarFound (t : string)
| StarError (e : error)
| StarNone.

(** Look for a match skipping i+1 bytes; a separator cannot be skipped. *)
Fixpoint starLoop (chunk : string) (lastChunk : bool) (name : string) : starResult :=
  match name with
  | EmptyString => StarNone
  | String c rest =>
      if bool_decide (c = Separator) then StarNone
      else
        let '(t, ok, err) := matchChunk chunk rest in
        if ok then
          if lastChunk && negb (bool_decide (t = "")) then starLoop chunk lastChunk rest
          else StarFound t
        else
          match err with
          | Some e => StarError e
          | None => starLoop chunk lastChunk rest
          end
  end.

(** Before returning false with no error, check that the remainder of the
    pattern is syntactically valid.  Every chunk takes at least one
    character of the pattern. *)
Fixpoint checkRest (fuel : nat) (pattern : string) : bool * option error :=
  match fuel with
  | O => (false, None)
  | S fuel =>
      if bool_decide (pattern = "") then (false, None)
      else
        let '(_, chunk, pattern) := scanChunk pattern in
        match matchChunk chunk "" with
        | (_, _, Some e) => (false, Some e)
        | _ => checkRest fuel pattern
        end
  end.

(** The loop of Match over the chunks of the pattern; the fuel is more than
    the length of the pattern. *)
Fixpoint matchLoop (fuel : nat) (pattern name : string) : bool * option error :=
  match fuel with
  | O => (false, Some ErrBadPattern)
  | S fuel =>
      if bool_decide (pattern = "") then (bool_decide (name = ""), None)
      else
        let '(star, chunk, pattern) := scanChunk pattern in
        if star && bool_decide (chunk = "") then
          (* Trailing * matches rest of string unless it has a /. *)
          (negb (Contains name sep), None)
        else
          let '(t, ok, err) := matchChunk chunk name in
          if ok && (bool_decide (t = "") || negb (bool_decide (pattern = ""))) then
            matchLoop fuel pattern t
          else
            match err with
            | Some e => (false, Some e)
            | None =>
                match (if star then starLoop chunk (bool_decide (pattern = "")) name else StarNone) with
                | StarFound t => matchLoop fuel pattern t
                | StarError e => (false, Some e)
                | StarNone => checkRest (String.length pattern) pattern
                end
            end
  end.

(** Match reports whether name matches the shell file name pattern. *)
Definition Match (pattern name : string) : bool * option error :=
  matchLoop (S (String.length pattern)) pattern name.

(** hasMeta reports whether path contains any of the magic characters
    recognized by Match. *)
Definition hasMeta (path : string) : bool :=
  ContainsAny path ["*"; "?"; "["; "\"]%char.

(** cleanGlobPath prepares path for glob matching. *)
Definition cleanGlobPath (path : string) : string :=
  if bool_decide (path = "") then "."
  else if bool_decide (path = sep) then path
  else take (String.length path - 1) path.

End Filepath.

(** ** The machine: file system, environment, external commands *)

(** A file system without links: a file with its content, or a directory
    with its entries.  Entry names are single path elements, and a
    directory keeps its entries in byte order of their names, the order in
    which the directory readers of package os and path/filepath (which sort)
    deliver them. *)
Inductive node : Type :=
| File (data : string)
| Dir (entries : list (string * node)).

(** What the program looks at in an [fs.FileInfo]. *)
Record FileInfo : Type := mkFileInfo { IsDir : bool }.

Definition infoOf (n : node) : FileInfo :=
  match n with
  | File _ => mkFileInfo false
  | Dir _ => mkFileInfo true
  end.

(** One run of an external command: its name, arguments and standard input. *)
Record Command : Type := mkCommand {
  cmdName : string;
  cmdArgs : list string;
  cmdStdin : string
}.

Record World : Type := mkWorld {
  root : node;                     (* the file system, from the root directory *)
  cwd : option (list string);      (* the current directory, when it can be determined *)
  environ : gmap string string;    (* the environment variables *)
  procs : list Command             (* the external commands run so far, oldest first *)
}.

(** A computation on the machine. *)
Definition IO (A : Type) : Type := World → A * World.

Global Instance IO_ret : MRet IO := λ A a w, (a, w).
Global Instance IO_bind : MBind IO := λ A B k m w, let '(a, w') := m w in k a w'.
Definition gets {A} (f : World → A) : IO A := λ w, (f w, w).

Module Os.

Import GoStrings.

Definition ENOENT : error := New "no such file or directory".
Definition ENOTDIR : error := New "not a directory".
Definition EISDIR : error := New "is a directory".

(** [&fs.PathError{Op: op, Path: path, Err: err}] *)
Definition PathError (op path : string) (err : error) : error :=
  Wrap (op +:+ " " +:+ path +:+ ": ") err.

Fixpoint assoc (name : string) (entries : list (string * node)) : option node :=
  match entries with
  | [] => None
  | (n, child) :: rest => if bool_decide (n = name) then Some child else assoc name rest
  end.

Fixpoint lookupNode (n : node) (elems : list string) : node + error :=
  match elems with
  | [] => inl n
  | e :: rest =>
      match n with
      | File _ => inr ENOTDIR
      | Dir entries =>
          match assoc e entries with
          | Some child => lookupNode child rest
          | None => inr ENOENT
          end
      end
  end.

(** The elements of a path name from the root.  The empty name names
    nothing; [..] at the root stays at the root. *)
Definition resolve (w : World) (path : string) : option (list string) :=
  if bool_decide (path = "") then None
  else if Filepath.isRooted path
  then Some (Filepath.cleanElems true [] (Split path Filepath.sep))
  else (λ d, Filepath.cleanElems true d (Split path Filepath.sep)) <$> cwd w.

Definition nodeAt (w : World) (path : string) : node + error :=
  match resolve w path with
  | Some elems => lookupNode (root w) elems
  | None => inr ENOENT
  end.

(** os.Lstat and, there being no links, os.Stat. *)
Definition Lstat (w : World) (path : string) : option FileInfo * option error :=
  match nodeAt w path with
  | inl n => (Some (infoOf n), None)
  | inr e => (None, Some (PathError "lstat" path e))
  end.

Definition Stat (w : World) (path : string) : option FileInfo * option error :=
  match nodeAt w path with
  | inl n => (Some (infoOf n), None)
  | inr e => (None, Some (PathError "stat" path e))
  end.

(** The names in a directory, sorted. *)
Definition readDirNames (n : node) : list string :=
  match n with
  | Dir entries => entries.*1
  | File _ => []
  end.

Definition ReadFile (path : string) : IO (string * option error) :=
  λ w,
    match nodeAt w path with
    | inl (File data) => ((data, None), w)
    | inl (Dir _) => (("", Some (PathError "read" path EISDIR)), w)
    | inr e => (("", Some (PathError "open" path e)), w)
    end.

Definition ltb (a b : string) : bool :=
  match String.compare a b with
  | Lt => true
  | _ => false
  end.

Fixpoint insertEntry (name : string) (child : node) (entries : list (string * node))
  : list (string * node) :=
  match entries with
  | [] => [(name, child)]
  | (n, c) :: rest =>
      if ltb name n then (name, child) :: entries
      else (n, c) :: insertEntry name child rest
  end.

Fixpoint replaceEntry (name : string) (child : node) (entries : list (string * node))
  : list (string * node) :=
  match entries with
  | [] => []
  | (n, c) :: rest =>
      if bool_decide (n = name) then (n, child) :: rest
      else (n, c) :: replaceEntry name child rest
  end.

(** Create or truncate the file at [elems] and write [data] to it. *)
Fixpoint writeNode (n : node) (elems : list string) (data : string) : node + error :=
  match elems with
  | [] =>
      match n with
      | File _ => inl (File data)
      | Dir _ => inr EISDIR
      end
  | e :: rest =>
      match n with
      | File _ => inr ENOTDIR
      | Dir entries =>
          match assoc e entries with
          | Some child =>
              match writeNode child rest data with
              | inl child' => inl (Dir (replaceEntry e child' entries))
              | inr err => inr err
              end
          | None =>
              match rest with
              | [] => inl (Dir (insertEntry e (File data) entries))
              | _ => inr ENOENT
              end
          end
      end
  end.

Definition setRoot (w : World) (r : node) : World :=
  mkWorld r (cwd w) (environ w) (procs w).

(** os.WriteFile(path, data, perm): the file is opened for writing,
    created if it is not there and emptied if it is, the data are written
    and the file is closed.  Of its failures those of opening the file are
    modelled, which leave the file system as it was: a missing parent, a
    parent that is a file, a directory in the place of the file.
    Permissions are not modelled, and on this machine, which has no quota
    and no faults of its storage, writing the data and closing the file do
    not fail. *)
Definition WriteFile (path : string) (data : string) : IO (option error) :=
  λ w,
    match resolve w path with
    | None => (Some (PathError "open" path ENOENT), w)
    | Some elems =>
        match writeNode (root w) elems data with
        | inl r => (None, setRoot w r)
        | inr e => (Some (PathError "open" path e), w)
        end
    end.

Definition Getenv (key : string) : IO string :=
  gets (λ w, default "" (environ w !! key)).

Definition Getwd : IO (string * option error) :=
  gets (λ w,
    match cwd w with
    | Some d => (Filepath.sep +:+ GoStrings.Join d Filepath.sep, None)
    | None => ("", Some (Wrap "getwd: " ENOENT))
    end).

End Os.

Module FilepathFS.

Import GoStrings Filepath.

(** *** Glob *)

(** glob searches for files matching pattern in the directory dir and
    appends them to matches. *)
Fixpoint globNames (dir pattern : string) (names : list string) (m : list string)
  : list string * option error :=
  match names with
  | [] => (m, None)
  | n :: rest =>
      match Match pattern n with
      | (_, Some e) => (m, Some e)
      | (matched, None) =>
          globNames dir pattern rest (if matched then m ++ [Filepath.Join [dir; n]] else m)
      end
  end.

Definition glob (w : World) (dir pattern : string) (matches : list string)
  : list string * option error :=
  match Os.nodeAt w dir with
  | inl (Dir entries) => globNames dir pattern (Os.readDirNames (Dir entries)) matches
  | _ => (matches, None)   (* ignore I/O error *)
  end.

Fixpoint globDirs (w : World) (file : string) (dirs : list string) (matches : list string)
  : list string * option error :=
  match dirs with
  | [] => (matches, None)
  | d :: rest =>
      match glob w d file matches with
      | (matches, Some e) => (matches, Some e)
      | (matches, None) => globDirs w file rest matches
      end
  end.

(** The limit on the depth of the recursion of globWithLimit. *)
Definition pathSeparatorsLimit : N := 10000.

(** globWithLimit at a depth of recursion: one level per directory of the
    pattern that has a meta-character.  The directory is shorter than the
    pattern, so the fuel, which is more than the length of the pattern, does
    not run out. *)
Fixpoint globWithLimit (fuel : nat) (w : World) (pattern : string) (depth : N)
  : list string * option error :=
  match fuel with
  | O => ([], Some ErrBadPattern)
  | S fuel =>
      if bool_decide (depth = pathSeparatorsLimit) then ([], Some ErrBadPattern)
      else
        (* Check pattern is well-formed. *)
        match Match pattern "" with
        | (_, Some e) => ([], Some e)
        | _ =>
            if negb (hasMeta pattern) then
              match Os.Lstat w pattern with
              | (_, Some _) => ([], None)
              | _ => ([pattern], None)
              end
            else
              let '(dir, file) := Filepath.Split pattern in
              let dir := cleanGlobPath dir in
              if negb (hasMeta dir) then glob w dir file []
              (* Prevent infinite recursion. *)
              else if bool_decide (dir = pattern) then ([], Some ErrBadPattern)
              else
                match globWithLimit fuel w dir (depth + 1) with
                | (_, Some e) => ([], Some e)
                | (m, None) => globDirs w file m []
                end
        end
  end.

(** Glob returns the names of all files matching pattern or nil if there
    is no matching file. *)
Definition Glob (w : World) (pattern : string) : list string * option error :=
  globWithLimit (S (String.length pattern)) w pattern 0.

(** *** Walk *)

Definition SkipDir : error := New "skip this directory".
Definition SkipAll : error := New "skip everything and stop the walk".

(** A WalkFunc that updates variables of type [T] it has captured. *)
Definition WalkFunc (T : Type) : Type :=
  string → option FileInfo → option error → T → T * option error.

(** walk recursively descends path, calling walkFn. *)
Fixpoint walk {T : Type} (path : string) (n : node) (walkFn : WalkFunc T) (s : T)
  : T * option error :=
  match n with
  | File _ => walkFn path (Some (infoOf n)) None s
  | Dir entries =>
      let '(s, err1) := walkFn path (Some (infoOf n)) None s in
      match err1 with
      | Some e => (s, Some e)
      | None =>
          (fix each (entries : list (string * node)) (s : T) : T * option error :=
             match entries with
             | [] => (s, None)
             | (name, child) :: rest =>
                 let filename := Filepath.Join [path; name] in
                 match walk filename child walkFn s with
                 | (s, Some e) =>
                     if negb (IsDir (infoOf child)) || negb (bool_decide (e = SkipDir))
                     then (s, Some e)
                     else each rest s
                 | (s, None) => each rest s
                 end
             end) entries s
      end
  end.

(** Walk walks the file tree rooted at root, calling fn for each file or
    directory in the tree, including root, in lexical order. *)
Definition Walk {T : Type} (w : World) (root : string) (fn : WalkFunc T) (s : T)
  : T * option error :=
  let '(s, err) :=
    match Os.nodeAt w root with
    | inr e => fn root None (Some (Os.PathError "lstat" root e)) s
    | inl n => walk root n fn s
    end in
  match err with
  | Some e =>
      if bool_decide (e = SkipDir) || bool_decide (e = SkipAll) then (s, None)
      else (s, Some e)
  | None => (s, None)
  end.

End FilepathFS.

(** What a path name denotes, as a program can observe it: a file with
    its content, a directory, or nothing. *)
Inductive entry : Type :=
| IsFile (data : string)
| IsDirectory.

Definition entryOf (r : node + error) : option entry :=
  match r with
  | inl (File data) => Some (IsFile data)
  | inl (Dir _) => Some IsDirectory
  | inr _ => None
  end.

Definition entryAt (w : World) (path : string) : option entry :=
  entryOf (Os.nodeAt w path).

(** ** Formatting *)

Definition dquote : string := String "034"%char EmptyString.

Fixpoint escape (s : string) : string :=
  match s with
  | EmptyString => EmptyString
  | String c rest =>
      if bool_decide (c = "034"%char) || bool_decide (c = "\"%char)
      then String "\"%char (String c (escape rest))
      else String c (escape rest)
  end.

(** The verb [%q] of package fmt on text of printable ASCII characters: the
    text between double quotes, quotes and backslashes escaped. *)
Definition Quote (s : string) : string := dquote +:+ escape s +:+ dquote.

(** ** files.go *)

Module Files.

Import GoStrings Filepath FilepathFS.

(** The first result of a call whose error is dropped:
    [matched, _ := filepath.Match(pattern, name)]. *)
Definition matches (pattern name : string) : bool := (Match pattern name).1.

(** The loop of shouldExclude over the exclusion patterns. *)
Fixpoint excludeLoop (file workDir relPath : string) (excludes : list string) : bool :=
  match excludes with
  | [] => false
  | exclude :: rest =>
      let exclude := TrimSpace exclude in
      if bool_decide (exclude = "") then excludeLoop file workDir relPath rest
      (* Direct match against relative path *)
      else if matches exclude relPath then true
      (* Match against base name *)
      else if matches exclude (Base file) then true
      (* Handle ** patterns *)
      else if Contains exclude "**" &&
              (let simplePattern := ReplaceAll exclude ("**" +:+ sep) "" in
               let simplePattern := ReplaceAll simplePattern "**" "" in
               negb (bool_decide (simplePattern = "")) &&
               (matches simplePattern (Base file) || matches simplePattern relPath))
      then true
      (* Full path match *)
      else if matches (Filepath.Join [workDir; exclude]) file then true
      else excludeLoop file workDir relPath rest
  end.

(** shouldExclude checks if a file matches any exclusion pattern. *)
Definition shouldExclude (file workDir : string) (excludes : list string) : bool :=
  let relPath :=
    match Rel workDir file with
    | (_, Some _) => file
    | (relPath, None) => relPath
    end in
  excludeLoop file workDir relPath excludes.

(** The function literal that findWithGlobstar passes to filepath.Walk; the
    variable [matches] it appends to is the state of the walk. *)
Definition globstarVisit (searchDir suffix : string) : WalkFunc (list string) :=
  λ path info err found,
    match err, info with
    | Some _, _ => (found, None)   (* Skip files/dirs we can't access *)
    | None, None => (found, None)  (* never: a nil info comes with an error *)
    | None, Some info =>
        if IsDir info then (found, None)
        (* Match the suffix pattern *)
        else if negb (bool_decide (suffix = "")) then
          match Match suffix (Base path) with
          | (true, None) => (found ++ [path], None)
          | _ =>
              (* Try matching the full relative suffix path *)
              let relPath := (Rel searchDir path).1 in
              if matches suffix relPath then (found ++ [path], None)
              else (found, None)
          end
        else (found ++ [path], None)
    end.

(** findWithGlobstar handles patterns containing ** for recursive matching. *)
Definition findWithGlobstar (w : World) (workDir pattern : string) : list string * option error :=
  (* Split the pattern into parts *)
  match GoStrings.Split pattern "**" with
  | [part0; part1] =>
      let prefix := TrimSuffix part0 sep in
      let suffix := TrimPrefix part1 sep in
      let searchDir :=
        if bool_decide (prefix = "") then workDir else Filepath.Join [workDir; prefix] in
      Walk w searchDir (globstarVisit searchDir suffix) []
  | _ =>
      (* Fallback to simple glob if pattern is complex *)
      Glob w (Filepath.Join [workDir; ReplaceAll pattern "**" "*"])
  end.

(** The variables [matchedFiles] and [seen] of FindFiles. *)
Definition found : Type := list string * gmap string bool.

Definition seenAt (seen : gmap string bool) (path : string) : bool :=
  default false (seen !! path).

(** The loop over the files of a globstar pattern. *)
Fixpoint addWalked (workDir : string) (excludes : list string) (files : list string) (st : found)
  : found :=
  match files with
  | [] => st
  | m :: rest =>
      let '(matchedFiles, seen) := st in
      if negb (seenAt seen m) && negb (shouldExclude m workDir excludes)
      then addWalked workDir excludes rest (matchedFiles ++ [m], <[m := true]> seen)
      else addWalked workDir excludes rest st
  end.

(** The loop over the matches of a plain pattern. *)
Fixpoint addGlobbed (w : World) (workDir : string) (excludes : list string)
    (globbed : list string) (st : found) : found :=
  match globbed with
  | [] => st
  | m :: rest =>
      let '(matchedFiles, seen) := st in
      if seenAt seen m then addGlobbed w workDir excludes rest st
      else
        match Os.Stat w m with
        | (Some info, None) =>
            if IsDir info then addGlobbed w workDir excludes rest st
            else if shouldExclude m workDir excludes then addGlobbed w workDir excludes rest st
            else addGlobbed w workDir excludes rest (matchedFiles ++ [m], <[m := true]> seen)
        | _ => addGlobbed w workDir excludes rest st
        end
  end.

(** The loop of FindFiles over the patterns. *)
Fixpoint findLoop (w : World) (workDir : string) (excludes : list string)
    (patterns : list string) (st : found) : list string * option error :=
  match patterns with
  | [] => (st.1, None)
  | pattern :: rest =>
      let pattern := TrimSpace pattern in
      if bool_decide (pattern = "") then findLoop w workDir excludes rest st
      else
        let fullPattern := Filepath.Join [workDir; pattern] in
        (* Handle ** globstar patterns by walking the directory *)
        if Contains pattern "**" then
          match findWithGlobstar w workDir pattern with
          | (_, Some err) => ([], Some err)
          | (files, None) => findLoop w workDir excludes rest (addWalked workDir excludes files st)
          end
        else
          match Glob w fullPattern with
          | (_, Some err) =>
              ([], Some (Wrap ("invalid glob pattern " +:+ Quote pattern +:+ ": ") err))
          | (globbed, None) =>
              findLoop w workDir excludes rest (addGlobbed w workDir excludes globbed st)
          end
  end.

(** The working directory FindFiles works with. *)
Definition effectiveWorkDir (workDir : string) : string :=
  if bool_decide (workDir = "") then "." else workDir.

(** FindFiles finds files matching patterns while excluding others. *)
Definition FindFiles (w : World) (workDir : string) (patterns excludes : list string)
  : list string * option error :=
  let workDir := effectiveWorkDir workDir in
  findLoop w workDir excludes patterns ([], ∅).

End Files.

(** ** signer.go *)

(** SignOptions contains the options for signing a file. *)
Record SignOptions : Type := mkSignOptions {
  Armor : bool;       (* Create ASCII armored output *)
  DetachSign : bool;  (* Make a detached signature *)
  ClearSign : bool    (* Make a clear text signature *)
}.

(** getOutputExtension returns the appropriate file extension for the
    signature. *)
Definition getOutputExtension (opts : SignOptions) : string :=
  if ClearSign opts then ".asc"
  else if Armor opts then ".asc"
  else if DetachSign opts then ".sig"
  else ".gpg".

(** Signer defines the interface for GPG signing operations.  A method
    with a pointer receiver may update the receiver, so SignFile returns the
    receiver as the call leaves it. *)
Class SignerI (T : Type) : Type := {
  SignFile : T → string → SignOptions → IO (T * option error)
}.

(** The panic of a method that reads a field of its receiver when the
    receiver is a nil pointer.  A panic is written as an error that no
    code of the program returns. *)
Definition nilDereference : error :=
  New "invalid memory address or nil pointer dereference".

(** A value of interface type Signer: a type that has the method, and a
    value of that type.  The types of the program that have the method
    are pointer types; a pointer that cannot be nil is written as what it
    points to. *)
Record Signer : Type := mkSigner {
  signerType : Type;
  signerMethods : SignerI signerType;
  signerValue : signerType
}.
Arguments mkSigner {_ _} _.

(** ** The external collaborators *)

(** gopenpgp/v3/crypto, as far as the program uses it.  [NewSignHandle key
    detached] is [pgp.Sign().SigningKey(key).New()], with [.Detached()]
    before [New] when [detached] is set. *)
Inductive Encoding : Type := Bytes | Armored.

Class OpenPGP : Type := {
  Key : Type;
  NewKeyFromArmored : string → Key + error;
  IsPrivate : Key → bool;
  Unlock : Key → string → Key + error;
  IsLocked : Key → bool + error;
  SignHandle : Type;
  NewSignHandle : Key → bool → SignHandle + error;
  Sign : SignHandle → string → Encoding → string + error;
  SignCleartext : SignHandle → string → string + error
}.

(** What running an external command does to the machine, and the error of
    [cmd.Run()] (a non-zero exit among them). *)
Class Programs : Type := {
  runProgram : Command → World → option error * World
}.

(** [exec.Command(name, args...)] with the given standard input, then
    [Run()]; the run is noted in [procs]. *)
Definition Exec `{Programs} (c : Command) : IO (option error) :=
  λ w, let '(err, w') := runProgram c w in
       (err, mkWorld (root w') (cwd w') (environ w') (procs w ++ [c])).

(** ** signer_gopgp.go *)

Module GoPGP.

Section WithLibrary.
Context `{OpenPGP}.

(** GoPGPSigner implements Signer using the gopenpgp library (pure Go). *)
Record GoPGPSigner : Type := mkGoPGPSigner { privateKey : Key }.

(** NewGoPGPSigner creates a new GoPGPSigner with the provided private key
    and passphrase. *)
Definition NewGoPGPSigner (armoredKey passphrase : string) : option GoPGPSigner * option error :=
  match NewKeyFromArmored armoredKey with
  | inr err => (None, Some (Wrap "failed to parse private key: " err))
  | inl key =>
      if negb (IsPrivate key) then (None, Some (New "provided key is not a private key"))
      else
        (* Unlock the key if passphrase is provided *)
        let unlocked :=
          if negb (bool_decide (passphrase = "")) then Unlock key passphrase
          else inl key in
        match unlocked with
        | inr err => (None, Some (Wrap "failed to unlock private key: " err))
        | inl key =>
            (* Check if key is locked (needs passphrase but none provided) *)
            match IsLocked key with
            | inr err => (None, Some (Wrap "failed to check key lock status: " err))
            | inl true =>
                (None, Some (New "private key is locked but no passphrase provided"))
            | inl false => (Some (mkGoPGPSigner key), None)
            end
        end
  end.

Definition encodingOf (armor : bool) : Encoding := if armor then Armored else Bytes.

(** createDetachedSignature creates a detached signature for the data. *)
Definition createDetachedSignature (s : GoPGPSigner) (data : string) (armor : bool)
  : string * option error :=
  match NewSignHandle (privateKey s) true with
  | inr err => ("", Some (Wrap "failed to create signing handle: " err))
  | inl signHandle =>
      match Sign signHandle data (encodingOf armor) with
      | inr err => ("", Some (Wrap "failed to create detached signature: " err))
      | inl sig => (sig, None)
      end
  end.

(** createClearSignature creates a clear-text signature. *)
Definition createClearSignature (s : GoPGPSigner) (data : string) : string * option error :=
  match NewSignHandle (privateKey s) false with
  | inr err => ("", Some (Wrap "failed to create signing handle: " err))
  | inl signHandle =>
      match SignCleartext signHandle data with
      | inr err => ("", Some (Wrap "failed to create clear signature: " err))
      | inl clearSigned => (clearSigned, None)
      end
  end.

(** createInlineSignature creates an inline (attached) signature. *)
Definition createInlineSignature (s : GoPGPSigner) (data : string) (armor : bool)
  : string * option error :=
  match NewSignHandle (privateKey s) false with
  | inr err => ("", Some (Wrap "failed to create signing handle: " err))
  | inl signHandle =>
      match Sign signHandle data (encodingOf armor) with
      | inr err => ("", Some (Wrap "failed to create signature: " err))
      | inl signed => (signed, None)
      end
  end.

(** getOutputPath determines the output file path based on signing options. *)
Definition getOutputPath (s : GoPGPSigner) (filePath : string) (opts : SignOptions) : string :=
  let ext := getOutputExtension opts in
  if DetachSign opts then filePath +:+ ext
  else if ClearSign opts then filePath +:+ ".asc"
  else filePath +:+ ext.

(** The signature SignFile computes for the data it has read. *)
Definition signatureFor (s : GoPGPSigner) (data : string) (opts : SignOptions)
  : string * option error :=
  if DetachSign opts then createDetachedSignature s data (Armor opts)
  else if ClearSign opts then createClearSignature s data
  else createInlineSignature s data (Armor opts).

(** SignFile signs a file using gopenpgp. *)
Definition GoPGPSigner_SignFile (s : GoPGPSigner) (filePath : string) (opts : SignOptions)
  : IO (option error) :=
  '(data, err) ← Os.ReadFile filePath;
  match err with
  | Some err => mret (Some (Wrap "failed to read file: " err))
  | None =>
      match signatureFor s data opts with
      | (_, Some err) => mret (Some err)
      | (signature, None) =>
          let outputPath := getOutputPath s filePath opts in
          err ← Os.WriteFile outputPath signature;
          match err with
          | Some err => mret (Some (Wrap "failed to write signature: " err))
          | None => mret None
          end
      end
  end.

Global Instance GoPGPSigner_Signer : SignerI GoPGPSigner := {
  SignFile s filePath opts := err ← GoPGPSigner_SignFile s filePath opts; mret (s, err)
}.

(** The method on a [*GoPGPSigner] that may be nil.  Called on a nil
    pointer, SignFile reads the file and returns the error of reading it;
    when the file has been read it panics, where createDetachedSignature
    and the like read the key of the signer. *)
Global Instance GoPGPSigner_pointer_Signer : SignerI (option GoPGPSigner) := {
  SignFile p filePath opts :=
    match p with
    | Some s => '(s, err) ← SignFile s filePath opts; mret (Some s, err)
    | None =>
        '(_, err) ← Os.ReadFile filePath;
        match err with
        | Some err => mret (None, Some (Wrap "failed to read file: " err))
        | None => mret (None, Some nilDereference)
        end
    end
}.

End WithLibrary.

End GoPGP.

(** ** signer_gnupg.go *)

Module GnuPG.

(** GnuPGSigner implements Signer using the system's GnuPG installation. *)
Record GnuPGSigner : Type := mkGnuPGSigner { passphrase : string }.

(** buildArgs constructs the GPG command arguments based on sign options. *)
Definition buildArgs (s : GnuPGSigner) (opts : SignOptions) : list string :=
  let args := ["--batch"; "--yes"] in
  let args :=
    if negb (bool_decide (passphrase s = ""))
    then args ++ ["--pinentry-mode"; "loopback"; "--passphrase-fd"; "0"]
    else args in
  let args := if Armor opts then args ++ ["--armor"] else args in
  if DetachSign opts then args ++ ["--detach-sign"]
  else if ClearSign opts then args ++ ["--clear-sign"]
  else args ++ ["--sign"].

Section WithPrograms.
Context `{Programs}.

(** importGPGKey imports a GPG key using the gpg command. *)
Definition importGPGKey (armoredKey : string) : IO (option error) :=
  Exec (mkCommand "gpg" ["--batch"; "--import"; "-"] armoredKey).

(** NewGnuPGSigner creates a new GnuPGSigner and imports the private key. *)
Definition NewGnuPGSigner (armoredKey passphrase : string) : IO (option GnuPGSigner * option error) :=
  err ← importGPGKey armoredKey;
  match err with
  | Some err => mret (None, Some (Wrap "failed to import GPG key: " err))
  | None => mret (Some (mkGnuPGSigner passphrase), None)
  end.

(** SignFile signs a file using the system's GnuPG.  The passphrase, when
    there is one, is the standard input of the command. *)
Definition GnuPGSigner_SignFile (s : GnuPGSigner) (filePath : string) (opts : SignOptions)
  : IO (option error) :=
  let args := buildArgs s opts in
  let args := args ++ [filePath] in
  err ← Exec (mkCommand "gpg" args (passphrase s));
  match err with
  | Some err => mret (Some (Wrap "gpg command failed: " err))
  | None => mret None
  end.

Global Instance GnuPGSigner_Signer : SignerI GnuPGSigner := {
  SignFile s filePath opts := err ← GnuPGSigner_SignFile s filePath opts; mret (s, err)
}.

(** The method on a [*GnuPGSigner] that may be nil.  Called on a nil
    pointer, SignFile panics at once, where buildArgs reads the
    passphrase, before any command is run. *)
Global Instance GnuPGSigner_pointer_Signer : SignerI (option GnuPGSigner) := {
  SignFile p filePath opts :=
    match p with
    | Some s => '(s, err) ← SignFile s filePath opts; mret (Some s, err)
    | None => mret (None, Some nilDereference)
    end
}.

End WithPrograms.

End GnuPG.

(** ** main.go *)

Module Main.

Import GoStrings.

(** SignerBackend defines the available signer backends. *)
Definition SignerBackend : Type := string.
Definition BackendGoPGP : SignerBackend := "gopgp".
Definition BackendGnuPG : SignerBackend := "gnupg".
Definition DefaultBackend : SignerBackend := BackendGoPGP.

(** NewSigner creates a new Signer based on the specified backend
    (signer.go).  The constructors return pointers, and NewSigner returns
    what they return as a Signer: with the error of a constructor comes a
    Signer that is not nil and holds a nil pointer.  For an unknown
    backend the Signer is nil. *)
Definition NewSigner `{OpenPGP, Programs} (backend : SignerBackend) (privateKey passphrase : string)
  : IO (option Signer * option error) :=
  if bool_decide (backend = BackendGoPGP) then
    let '(s, err) := GoPGP.NewGoPGPSigner privateKey passphrase in
    mret (Some (mkSigner s), err)
  else if bool_decide (backend = BackendGnuPG) then
    '(s, err) ← GnuPG.NewGnuPGSigner privateKey passphrase;
    mret (Some (mkSigner s), err)
  else mret (None, Some (New ("unknown signer backend: " +:+ backend))).

(** FileFinder defines the interface for finding files (files.go). *)
Class FileFinderI (F : Type) : Type := {
  FindFiles : F → string → list string → list string → IO (F * (list string * option error))
}.

Record FileFinder : Type := mkFileFinder {
  finderType : Type;
  finderMethods : FileFinderI finderType;
  finderValue : finderType
}.
Arguments mkFileFinder {_ _} _.

(** DefaultFileFinder implements FileFinder using the standard library. *)
Definition DefaultFileFinder : Type := unit.

Global Instance DefaultFileFinder_FileFinder : FileFinderI DefaultFileFinder := {
  FindFiles f workDir patterns excludes :=
    gets (λ w, (f, Files.FindFiles w workDir patterns excludes))
}.

(** ActionInputs holds the input parameters for the GPG signing action. *)
Record ActionInputs : Type := mkActionInputs {
  PrivateKey : string;
  Passphrase : string;
  Armor : bool;
  DetachSign : bool;
  ClearSign : bool;
  Files : string;
  Excludes : string;
  WorkDir : string;
  Backend : string;
  LogLevel : string
}.

Definition newline : string := String "010"%char EmptyString.

(** parseMultilineInput splits a multiline string into a slice of trimmed,
    non-empty strings. *)
Definition parseMultilineInput (input : string) : list string :=
  filter (λ line, line ≠ "") (TrimSpace <$> GoStrings.Split input newline).

(** The loop of run over the files. *)
Fixpoint signEach {T : Type} `{SignerI T} (signer : T) (files : list string) (opts : SignOptions)
  : IO (T * option error) :=
  match files with
  | [] => mret (signer, None)
  | file :: rest =>
      '(signer, err) ← SignFile signer file opts;
      match err with
      | Some err => mret (signer, Some (Wrap ("failed to sign file " +:+ file +:+ ": ") err))
      | None => signEach signer rest opts
      end
  end.

(** The working directory of a run: the input, else GITHUB_WORKSPACE, else
    the current directory. *)
Definition resolveWorkDir (args : ActionInputs) : IO (string * option error) :=
  let workDir := WorkDir args in
  workDir ←
    (if bool_decide (workDir = "") then Os.Getenv "GITHUB_WORKSPACE" else mret workDir);
  if bool_decide (workDir = "") then
    '(workDir, err) ← Os.Getwd;
    match err with
    | Some err => mret ("", Some (Wrap "failed to get working directory: " err))
    | None => mret (workDir, None)
    end
  else mret (workDir, None).

(** What a run leaves: its error, and the signer and the finder it worked
    with as it leaves them (the caller of run holds pointers to the ones it
    passed). *)
Record Outcome : Type := mkOutcome {
  outErr : option error;
  outSigner : option Signer;
  outFinder : option FileFinder
}.

(** run executes the main logic of the GPG signing action.  Log output is
    not modelled. *)
Definition run `{OpenPGP, Programs} (args : ActionInputs) (signer : option Signer)
    (finder : option FileFinder) : IO Outcome :=
  (* Create signer if not provided (for testing) *)
  '(signer, err) ←
    match signer with
    | Some s => mret (Some s, None)
    | None => NewSigner (Backend args) (PrivateKey args) (Passphrase args)
    end;
  match signer, err with
  | _, Some err => mret (mkOutcome (Some (Wrap "failed to create signer: " err)) None finder)
  | None, None =>
      (* never: NewSigner returns a signer or an error; a nil signer would
         make the first SignFile panic *)
      mret (mkOutcome (Some (New "invalid memory address or nil pointer dereference")) None finder)
  | Some (@mkSigner _ _ signer), None =>
      (* Create file finder if not provided (for testing) *)
      let '(@mkFileFinder _ _ finder) := default (@mkFileFinder DefaultFileFinder _ ()) finder in
      '(workDir, err) ← resolveWorkDir args;
      match err with
      | Some err => mret (mkOutcome (Some err) (Some (mkSigner signer)) (Some (mkFileFinder finder)))
      | None =>
          let opts := mkSignOptions (Armor args) (DetachSign args) (ClearSign args) in
          let patterns := parseMultilineInput (Files args) in
          let excludes := parseMultilineInput (Excludes args) in
          '(finder, (files, err)) ← FindFiles finder workDir patterns excludes;
          match err with
          | Some err =>
              mret (mkOutcome (Some (Wrap "failed to find files: " err))
                      (Some (mkSigner signer)) (Some (mkFileFinder finder)))
          | None =>
              if bool_decide (length files = 0) then
                mret (mkOutcome None (Some (mkSigner signer)) (Some (mkFileFinder finder)))
              else
                '(signer, err) ← signEach signer files opts;
                mret (mkOutcome err (Some (mkSigner signer)) (Some (mkFileFinder finder)))
          end
      end
  end.

(** A signer that notes every call of its SignFile, in order, and passes
    it on: what a test double such as MockSigner records. *)
Record Noting (T : Type) : Type := mkNoting {
  noted : list (string * SignOptions);
  inner : T
}.
Arguments mkNoting {_} _ _.
Arguments noted {_} _.
Arguments inner {_} _.

Global Instance Noting_Signer {T : Type} `{SignerI T} : SignerI (Noting T) := {
  SignFile s filePath opts :=
    '(t, err) ← SignFile (inner s) filePath opts;
    mret (mkNoting (noted s ++ [(filePath, opts)]) t, err)
}.

(** SignFile succeeds on each file of a list in turn: the signer and the
    machine before the first call and after the last. *)
Inductive SignsAll {T : Type} `{SignerI T} (opts : SignOptions)
  : T → World → list string → T → World → Prop :=
| SignsAll_nil s w : SignsAll opts s w [] s w
| SignsAll_cons s w file s1 w1 rest s' w' :
    SignFile s file opts w = ((s1, None), w1) →
    SignsAll opts s1 w1 rest s' w' →
    SignsAll opts s w (file :: rest) s' w'.

End Main.

(** ** Signing modes *)

(** The three kinds of signature, with the output encoding where there is
    a choice; a clear-text signature is ASCII-armored text by its format. *)
Inductive SignMode : Type :=
| Detached (armored : bool)
| ClearText
| Inline (armored : bool).

Definition isArmored (m : SignMode) : bool :=
  match m with
  | Detached armored | Inline armored => armored
  | ClearText => true
  end.

(** The precedence of the signing contract: detached when requested, else
    clear-text when requested, else inline. *)
Definition effectiveMode (opts : SignOptions) : SignMode :=
  if DetachSign opts then Detached (Armor opts)
  else if ClearSign opts then ClearText
  else Inline (Armor opts).

(** The signature of the given mode as the OpenPGP library makes it with
    a key: a signing handle, detached for a detached signature and for no
    other, takes the data by SignCleartext for a clear-text signature and
    by Sign, with the binary or the armored encoding, for the two others.
    The outer error is that of making the handle, the inner one that of
    signing. *)
Definition librarySignature `{OpenPGP} (key : Key) (data : string) (m : SignMode)
  : (string + error) + error :=
  match m with
  | Detached armored =>
      match NewSignHandle key true with
      | inl handle => inl (Sign handle data (if armored then Armored else Bytes))
      | inr err => inr err
      end
  | ClearText =>
      match NewSignHandle key false with
      | inl handle => inl (SignCleartext handle data)
      | inr err => inr err
      end
  | Inline armored =>
      match NewSignHandle key false with
      | inl handle => inl (Sign handle data (if armored then Armored else Bytes))
      | inr err => inr err
      end
  end.

(** The words the library-backed signer puts before the library's error
    of signing. *)
Definition signingFailure (m : SignMode) : string :=
  match m with
  | Detached _ => "failed to create detached signature: "
  | ClearText => "failed to create clear signature: "
  | Inline _ => "failed to create signature: "
  end.

(** How gpg reads a command line: exactly one of the three signing
    commands, and [--armor] for armored output where the command leaves
    the choice. *)
Definition isSignCommand (arg : string) : bool :=
  bool_decide (arg ∈ ["--detach-sign"; "--clear-sign"; "--sign"]).

Definition gpgMode (args : list string) : option SignMode :=
  let armor := bool_decide ("--armor" ∈ args) in
  match filter (λ arg, isSignCommand arg = true) args with
  | [command] =>
      if bool_decide (command = "--detach-sign") then Some (Detached armor)
      else if bool_decide (command = "--clear-sign") then Some ClearText
      else Some (Inline armor)
  | _ => None
  end.

Section SpecDefinitions.
Import GoStrings Filepath FilepathFS Files.

(** ** The merge of the include patterns *)

(** A path that names a file that is not a directory. *)
Definition isRegular (w : World) (path : string) : bool :=
  match Os.Stat w path with
  | (Some info, None) => negb (IsDir info)
  | _ => false
  end.

(** The files one include pattern (trimmed, not empty) resolves to, in the
    order in which FindFiles meets them. *)
Definition resolvedBy (w : World) (workDir pattern : string) : list string :=
  if Contains pattern "**" then (findWithGlobstar w workDir pattern).1
  else filter (λ m, isRegular w m = true) (Glob w (Filepath.Join [workDir; pattern])).1.

(** The patterns FindFiles resolves: trimmed, the empty ones dropped. *)
Definition includePatterns (patterns : list string) : list string :=
  filter (λ p, p ≠ "") (TrimSpace <$> patterns).

(** The merge order: the files of the first pattern, then those of the
    second, and so on. *)
Definition merged (w : World) (workDir : string) (patterns : list string) : list string :=
  concat (resolvedBy w workDir <$> includePatterns patterns).

(** The first occurrence of every element, in order; [earlier] are the
    elements that have occurred. *)
Fixpoint firstOccurrences (earlier : list string) (l : list string) : list string :=
  match l with
  | [] => []
  | x :: rest =>
      if bool_decide (x ∈ earlier) then firstOccurrences earlier rest
      else x :: firstOccurrences (x :: earlier) rest
  end.

Definition kept (workDir : string) (excludes : list string) (file : string) : Prop :=
  shouldExclude file workDir excludes = false.

Global Instance kept_dec workDir excludes file : Decision (kept workDir excludes file).
Proof. unfold kept. apply _. Defined.

(** The variables of FindFiles after it has met the files [L]: the kept
    first occurrences, and the same paths marked as seen. *)
Definition stateAfter (workDir : string) (excludes : list string) (L : list string)
    (st : Files.found) : Prop :=
  st.1 = filter (kept workDir excludes) (firstOccurrences [] L) ∧
  ∀ p, Files.seenAt st.2 p = true ↔ p ∈ st.1.

(** ** The recursive wildcard, as the specification describes it *)

(** The literal prefix, before the first [**], and the suffix, after it;
    a separator next to the wildcard goes. *)
Definition splitGlobstar (pattern : string) : string * string :=
  let parts := GoStrings.Split pattern "**" in
  (TrimSuffix (hd "" parts) sep, TrimPrefix (GoStrings.Join (tail parts) "**") sep).

(** The files below a node, directories apart, in lexical order; [path] is
    the name of the node. *)
Fixpoint filesUnder (path : string) (n : node) : list string :=
  match n with
  | File _ => [path]
  | Dir entries =>
      flat_map (λ e, filesUnder (Filepath.Join [path; e.1]) e.2) entries
  end.

(** The suffix matches the base name of the file or else its path relative
    to the walked root; an empty suffix takes every file. *)
Definition qualifies (suffix walked file : string) : bool :=
  bool_decide (suffix = "") ||
  matches suffix (Base file) ||
  matches suffix (Rel walked file).1.

Definition globstarSpec (w : World) (workDir pattern : string) : list string :=
  let '(prefix, suffix) := splitGlobstar pattern in
  let walked := if bool_decide (prefix = "") then workDir else Filepath.Join [workDir; prefix] in
  match Os.nodeAt w walked with
  | inl n => filter (λ file, qualifies suffix walked file = true) (filesUnder walked n)
  | inr _ => []
  end.

(** ** The exclusion rules *)

(** The path of a file relative to the working directory, the file's own
    path when there is none. *)
Definition relativeTo (workDir file : string) : string :=
  match Rel workDir file with
  | (_, Some _) => file
  | (relPath, None) => relPath
  end.

(** An exclusion pattern without its recursive wildcards. *)
Definition stripped (exclude : string) : string :=
  ReplaceAll (ReplaceAll exclude ("**" +:+ sep) "") "**" "".

(** The four rules by which an exclusion pattern (trimmed, not empty)
    excludes a file. *)
Inductive excludedBy (workDir file exclude : string) : Prop :=
| byRelativePath :
    matches exclude (relativeTo workDir file) = true → excludedBy workDir file exclude
| byBaseName :
    matches exclude (Base file) = true → excludedBy workDir file exclude
| byStripped name :
    Contains exclude "**" = true →
    name = Base file ∨ name = relativeTo workDir file →
    matches (stripped exclude) name = true → excludedBy workDir file exclude
| byFullPath :
    matches (Filepath.Join [workDir; exclude]) file = true → excludedBy workDir file exclude.

End SpecDefinitions.

(** ** Cleaned paths *)

Definition noSep (e : string) : Prop := GoStrings.Contains e Filepath.sep = false.

(** An element of a cleaned path. *)
Definition isElem (e : string) : Prop := e ≠ "" ∧ e ≠ "." ∧ noSep e.

(** The shape of a cleaned path. *)
Definition canon (rooted : bool) (elems : list string) : string :=
  if rooted then Filepath.sep +:+ GoStrings.Join elems Filepath.sep
  else if bool_decide (GoStrings.Join elems Filepath.sep = "") then "."
  else GoStrings.Join elems Filepath.sep.

(** ** Example collaborators

    A stand-in for the OpenPGP library: a key is private or public and may
    be locked with a passphrase; its armored text is one of three fixed
    texts.  A stand-in for the installed programs: every command succeeds
    and changes nothing. *)
Module Example.

Record key : Type := mkKey { isPrivate : bool; lockedWith : option string }.

Definition parse (armored : string) : key + error :=
  if bool_decide (armored = "PRIVATE KEY") then inl (mkKey true None)
  else if bool_decide (armored = "PRIVATE KEY locked with secret123")
  then inl (mkKey true (Some "secret123"))
  else if bool_decide (armored = "PUBLIC KEY") then inl (mkKey false None)
  else inr (New "gopenpgp: error in reading key ring").

Definition unlock (k : key) (pass : string) : key + error :=
  match lockedWith k with
  | None => inl k
  | Some p =>
      if bool_decide (pass = p) then inl (mkKey (isPrivate k) None)
      else inr (New "gopenpgp: error in unlocking key")
  end.

Definition sign (h : key * bool) (data : string) (enc : Encoding) : string + error :=
  match lockedWith h.1, h.2, enc with
  | Some _, _, _ => inr (New "gopenpgp: cannot sign with a locked key")
  | None, true, Armored => inl ("-----BEGIN PGP SIGNATURE----- " +:+ data)
  | None, true, Bytes => inl ("SIG " +:+ data)
  | None, false, Armored => inl ("-----BEGIN PGP MESSAGE----- " +:+ data)
  | None, false, Bytes => inl ("MSG " +:+ data)
  end.

Definition signCleartext (h : key * bool) (data : string) : string + error :=
  match lockedWith h.1 with
  | Some _ => inr (New "gopenpgp: cannot sign with a locked key")
  | None => inl ("-----BEGIN PGP SIGNED MESSAGE----- " +:+ data)
  end.

Definition library : OpenPGP := {|
  Key := key;
  NewKeyFromArmored := parse;
  IsPrivate := isPrivate;
  Unlock := unlock;
  IsLocked := λ k, inl (bool_decide (is_Some (lockedWith k)));
  SignHandle := key * bool;
  NewSignHandle := λ k detached, inl (k, detached);
  Sign := sign;
  SignCleartext := signCleartext
|}.

Definition programs : Programs := {| runProgram := λ _ w, (None, w) |}.

End Example.

(** An example machine: the directory /w with three text files, and a
    directory in the place of the signature of the second. *)
Definition threeFiles : World :=
  mkWorld
    (Dir [("w", Dir [("a.txt", File "alpha"); ("b.txt", File "beta");
                     ("b.txt.asc", Dir []); ("c.txt", File "gamma")])])
    (Some ["w"]) ∅ [].

Definition exampleSigner : @GoPGP.GoPGPSigner Example.library :=
  @GoPGP.mkGoPGPSigner Example.library (Example.mkKey true None).

Definition exampleArgs : Main.ActionInputs :=
  Main.mkActionInputs "PRIVATE KEY" "" true true false "*.txt" "" "/w" "gopgp" "info".

Definition exampleOpts : SignOptions := mkSignOptions true true false.

(** The example machine after /w/a.txt has been signed. *)
Definition oneSigned : World :=
  Eval vm_compute in (SignFile exampleSigner "/w/a.txt" exampleOpts threeFiles).2.

(** An example machine: /w with a file at the top and a file two
    directories down. *)
Definition deepTree : World :=
  mkWorld
    (Dir [("w", Dir [("a", File "x"); ("d", Dir [("sub", Dir [("deep.txt", File "deep")])]);
                     ("top.txt", File "top")])])
    (Some ["w"]) ∅ [].

(** ** main.go: the log level and the action output *)

(** The standard output and the standard error of the program, as the
    text written so far. *)
Record Console : Type := mkConsole {
  stdout : string;
  stderr : string
}.

Definition Printf (text : string) (c : Console) : Console :=
  mkConsole (stdout c +:+ text) (stderr c).

Definition Fprintf_stderr (text : string) (c : Console) : Console :=
  mkConsole (stdout c) (stderr c +:+ text).

Module OsFile.

Import Os.

(** The file at [elems] after its content has been changed by [f]; a file
    that is not there is created empty first. *)
Fixpoint updateNode (n : node) (elems : list string) (f : string → string) : node + error :=
  match elems with
  | [] =>
      match n with
      | File old => inl (File (f old))
      | Dir _ => inr EISDIR
      end
  | e :: rest =>
      match n with
      | File _ => inr ENOTDIR
      | Dir entries =>
          match assoc e entries with
          | Some child =>
              match updateNode child rest f with
              | inl child' => inl (Dir (replaceEntry e child' entries))
              | inr err => inr err
              end
          | None =>
              match rest with
              | [] => inl (Dir (insertEntry e (File (f "")) entries))
              | _ => inr ENOENT
              end
          end
      end
  end.

(** An open file: the name it was opened with and the place it is at. *)
Record FileHandle : Type := mkFileHandle {
  handleName : string;
  handlePlace : list string
}.

(** [os.OpenFile(name, os.O_APPEND|os.O_CREATE|os.O_WRONLY, perm)]:
    permissions are not modelled. *)
Definition OpenFile_append (name : string) : IO (option FileHandle * option error) :=
  λ w,
    match resolve w name with
    | None => ((None, Some (PathError "open" name ENOENT)), w)
    | Some elems =>
        match updateNode (root w) elems id with
        | inl r => ((Some (mkFileHandle name elems), None), setRoot w r)
        | inr e => ((None, Some (PathError "open" name e)), w)
        end
    end.

(** [io.WriteString(f, s)] on a file opened for appending; the file is at
    the place it was opened at.  The machine has no quota and no I/O
    faults: writing to a file that is there succeeds. *)
Definition WriteString (f : FileHandle) (s : string) : IO (option error) :=
  λ w,
    match updateNode (root w) (handlePlace f) (λ old, old +:+ s) with
    | inl r => (None, setRoot w r)
    | inr e => (Some (PathError "write" (handleName f) e), w)
    end.

End OsFile.

Module Slog.

(** slog.Level and its four named levels. *)
Definition Level : Type := Z.
Definition LevelDebug : Level := (-4)%Z.
Definition LevelInfo : Level := 0%Z.
Definition LevelWarn : Level := 4%Z.
Definition LevelError : Level := 8%Z.

End Slog.

Module MainOutput.

Import GoStrings Main.

(** strings.ToLower on ASCII letters; the other characters stay. *)
Definition toLower (c : ascii) : ascii :=
  let n := nat_of_ascii c in
  if bool_decide (65 ≤ n) && bool_decide (n ≤ 90) then ascii_of_nat (n + 32) else c.

Fixpoint ToLower (s : string) : string :=
  match s with
  | EmptyString => EmptyString
  | String c rest => String (toLower c) (ToLower rest)
  end.

(** stringToLogLevel converts a string log level to slog.Level. *)
Definition stringToLogLevel (level : string) : Slog.Level :=
  let level := ToLower level in
  if bool_decide (level = "debug") then Slog.LevelDebug
  else if bool_decide (level = "info") then Slog.LevelInfo
  else if bool_decide (level = "warn") then Slog.LevelWarn
  else if bool_decide (level = "error") then Slog.LevelError
  else Slog.LevelInfo.

(** The workflow command that sets an output. *)
Definition setOutputCommand (name value : string) : string :=
  "::set-output name=" +:+ name +:+ "::" +:+ value +:+ newline.

(** setActionOutput writes an output value for GitHub Actions. *)
Definition setActionOutput (name value : string) (c : Console) (w : World) : Console * World :=
  let '(outputFile, w) := Os.Getenv "GITHUB_OUTPUT" w in
  if bool_decide (outputFile = "") then (Printf (setOutputCommand name value) c, w)
  else
    match OsFile.OpenFile_append outputFile w with
    | ((_, Some err), w) =>
        let c :=
          Fprintf_stderr
            ("Warning: failed to open GITHUB_OUTPUT file: " +:+ Error err +:+ newline) c in
        (Printf (setOutputCommand name value) c, w)
    | ((None, None), w) => (c, w)  (* never: OpenFile returns a file or an error *)
    | ((Some f, None), w) =>
        match OsFile.WriteString f (name +:+ "=" +:+ value +:+ newline) w with
        | (Some err, w) =>
            let c :=
              Fprintf_stderr
                ("Warning: failed to write to GITHUB_OUTPUT file: " +:+ Error err +:+ newline) c in
            (Printf (setOutputCommand name value) c, w)
        | (None, w) => (c, w)
        end
    end.

End MainOutput.

(** ** testutil_test.go: the test doubles *)

Module MockSigner.

(** MockSigner implements Signer for testing. *)
Record MockSigner : Type := mkMockSigner {
  SignedFiles : list string;
  SignedOpts : list SignOptions;
  Err : option error
}.

Global Instance MockSigner_Signer : SignerI MockSigner := {
  SignFile m filePath opts :=
    match Err m with
    | Some err => mret (m, Some err)
    | None =>
        mret (mkMockSigner (SignedFiles m ++ [filePath]) (SignedOpts m ++ [opts]) (Err m), None)
    end
}.

End MockSigner.

Module MockFileFinder.

(** MockFileFinder implements FileFinder for testing. *)
Record MockFileFinder : Type := mkMockFileFinder {
  Files : list string;
  Err : option error;
  LastWorkDir : string
}.

Global Instance MockFileFinder_FileFinder : Main.FileFinderI MockFileFinder := {
  FindFiles m workDir patterns excludes :=
    let m := mkMockFileFinder (Files m) (Err m) workDir in
    match Err m with
    | Some err => mret (m, ([], Some err))
    | None => mret (m, (Files m, None))
    end
}.

End MockFileFinder.

(** ** Derived notions *)

(** The character [c] does not occur in [s]. *)
Definition lacks (c : ascii) (s : string) : Prop :=
  GoStrings.Contains s (String c "") = false.

(** A line as parseMultilineInput returns it: not empty, without white
    space around it, and within one line. *)
Definition isLine (line : string) : Prop :=
  line ≠ "" ∧ GoStrings.TrimSpace line = line ∧ lacks "010" line.

(** The command that the SignFile of the GnuPG signer runs. *)
Definition gpgCommand (s : GnuPG.GnuPGSigner) (opts : SignOptions) (filePath : string) : Command :=
  mkCommand "gpg" (GnuPG.buildArgs s opts ++ [filePath]) (GnuPG.passphrase s).

(** The command that imports a key. *)
Definition gpgImport (armoredKey : string) : Command :=
  mkCommand "gpg" ["--batch"; "--import"; "-"] armoredKey.

(** What is there of a file that has been signed: the file itself and the
    file of its signature. *)
Definition signedFile (opts : SignOptions) (f : string) (w : World) : Prop :=
  (∃ data, entryAt w f = Some (IsFile data)) ∧
  (∃ signature, entryAt w (f +:+ getOutputExtension opts) = Some (IsFile signature)).

(** The error with which FindFiles gives up on an include pattern
    (trimmed, not empty), if any. *)
Definition patternError (w : World) (workDir pattern : string) : option error :=
  if GoStrings.Contains pattern "**" then (Files.findWithGlobstar w workDir pattern).2
  else
    Wrap ("invalid glob pattern " +:+ Quote pattern +:+ ": ")
      <$> (FilepathFS.Glob w (Filepath.Join [workDir; pattern])).2.

(** The pattern that FindFiles has filepath.Glob resolve for an include
    pattern (trimmed, not empty): the pattern joined with the working
    directory, and for a pattern that [**] cuts into more than two parts
    the pattern with every [**] replaced by [*], joined likewise.  A
    pattern that [**] cuts into two parts is not given to filepath.Glob:
    the tree is walked. *)
Definition globbedPattern (workDir pattern : string) : option string :=
  if GoStrings.Contains pattern "**" then
    match GoStrings.Split pattern "**" with
    | [_; _] => None
    | _ => Some (Filepath.Join [workDir; GoStrings.ReplaceAll pattern "**" "*"])
    end
  else Some (Filepath.Join [workDir; pattern]).

(** The error of FindFiles for an include pattern on which filepath.Glob
    fails: wrapped with the quoted pattern, but as it is for a pattern with
    a recursive wildcard. *)
Definition globError (pattern : string) (cause : error) : error :=
  if GoStrings.Contains pattern "**" then cause
  else Wrap ("invalid glob pattern " +:+ Quote pattern +:+ ": ") cause.

(** The content of a file, empty for what is not a file. *)
Definition contentOf (e : option entry) : string :=
  match e with
  | Some (IsFile data) => data
  | _ => ""
  end.

(** The line that sets an output in the file of outputs. *)
Definition outputLine (name value : string) : string :=
  name +:+ "=" +:+ value +:+ Main.newline.

(** ASCII letters in upper case, to state that case does not matter. *)
Definition toUpper (c : ascii) : ascii :=
  let n := nat_of_ascii c in
  if bool_decide (97 ≤ n) && bool_decide (n ≤ 122) then ascii_of_nat (n - 32) else c.

Fixpoint ToUpper (s : string) : string :=
  match s with
  | EmptyString => EmptyString
  | String c rest => String (toUpper c) (ToUpper rest)
  end.

(** An example machine whose GITHUB_OUTPUT names a file that holds one
    output. *)
Definition outputWorld : World :=
  mkWorld (Dir [("out", File ("a=1" +:+ Main.newline)); ("w", Dir [])])
    (Some ["w"]) (<["GITHUB_OUTPUT" := "/out"]> ∅) [].

(** * Properties *)

(** ** The loops of the pattern matcher end

    The loops of Match and Glob are modelled with fuel.  The results do not
    depend on it once it exceeds the length of the pattern, which is how
    Match and Glob start them, so that they satisfy the equations of the
    source's loops. *)

Section Termination.
Import GoStrings Filepath FilepathFS.

Implicit Types (chunk pattern name s : string) (fuel : nat).

Lemma drop_1_length s : String.length (drop 1 s) ≤ String.length s.
Proof. destruct s; cbn; lia. Qed.

Lemma startsWith_length c s : startsWith c s = true → String.length (drop 1 s) < String.length s.
Proof. destruct s; [done|]. cbn. lia. Qed.

Lemma getEsc_shorter chunk r chunk' :
  getEsc chunk = (r, chunk', None) → String.length chunk' < String.length chunk.
Proof.
  unfold getEsc. destruct chunk as [|c rest]; [done|].
  destruct (_ || _); [done|].
  case_bool_decide.
  - destruct rest as [|r' nchunk]; [done|]. intros [= _ <- _]. cbn. lia.
  - intros [= _ <- _]. cbn. lia.
Qed.

Lemma classLoop_fuel fuel1 fuel2 chunk r matched nrange :
  String.length chunk < fuel1 → String.length chunk < fuel2 →
  classLoop fuel1 chunk r matched nrange = classLoop fuel2 chunk r matched nrange.
Proof.
  revert fuel2 chunk matched nrange.
  induction fuel1 as [|fuel1 IH]; intros [|fuel2] chunk matched nrange H1 H2; try lia.
  cbn [classLoop]. destruct (_ && _); [done|].
  destruct (getEsc chunk) as [[lo chunk1] [e|]] eqn:Hlo; [done|].
  apply getEsc_shorter in Hlo.
  destruct (startsWith "-" chunk1) eqn:Hdash.
  - apply startsWith_length in Hdash.
    destruct (getEsc (drop 1 chunk1)) as [[hi chunk2] [e|]] eqn:Hhi; [done|].
    apply getEsc_shorter in Hhi. apply IH; lia.
  - apply IH; lia.
Qed.

Lemma classLoop_shorter fuel chunk r matched nrange chunk' matched' :
  classLoop fuel chunk r matched nrange = (chunk', matched', None) →
  String.length chunk' < String.length chunk.
Proof.
  revert chunk matched nrange.
  induction fuel as [|fuel IH]; intros chunk matched nrange; cbn [classLoop]; [done|].
  destruct (startsWith "]" chunk) eqn:Hclose; cbn [andb].
  - case_bool_decide.
    + intros [= <- _]. by eapply startsWith_length.
    + destruct (getEsc chunk) as [[lo chunk1] [e|]] eqn:Hlo; [done|].
      destruct chunk as [|c rest]; [done|]. cbn [startsWith] in Hclose.
      apply bool_decide_eq_true in Hclose as ->. by cbn in Hlo.
  - destruct (getEsc chunk) as [[lo chunk1] [e|]] eqn:Hlo; [done|].
    apply getEsc_shorter in Hlo.
    destruct (startsWith "-" chunk1) eqn:Hdash.
    + apply startsWith_length in Hdash.
      destruct (getEsc (drop 1 chunk1)) as [[hi chunk2] [e|]] eqn:Hhi; [done|].
      apply getEsc_shorter in Hhi. intros Heq%IH. lia.
    + intros Heq%IH. lia.
Qed.

Lemma matchChunkLoop_fuel fuel1 fuel2 chunk s failed :
  String.length chunk < fuel1 → String.length chunk < fuel2 →
  matchChunkLoop fuel1 chunk s failed = matchChunkLoop fuel2 chunk s failed.
Proof.
  revert fuel2 chunk s failed.
  induction fuel1 as [|fuel1 IH]; intros [|fuel2] chunk s failed H1 H2; try lia.
  cbn [matchChunkLoop]. destruct chunk as [|c rest]; [done|].
  cbn [String.length] in H1, H2.
  case_bool_decide.
  { destruct (match s with String r s' => _ | EmptyString => _ end) as [r s1].
    destruct (if startsWith "^" rest then _ else _) as [negated chunk1] eqn:Hneg.
    assert (String.length chunk1 ≤ String.length rest) as Hle.
    { destruct (startsWith "^" rest); simplify_eq; [apply drop_1_length|done]. }
    destruct (classLoop _ chunk1 r false 0) as [[chunk2 matched] [e|]] eqn:Hclass; [done|].
    apply classLoop_shorter in Hclass. apply IH; lia. }
  case_bool_decide.
  { destruct s; [|destruct (failed || _)]; apply IH; lia. }
  destruct (if bool_decide (c = "\"%char) then _ else _) as [[lit rest1] err] eqn:Hlit.
  assert (String.length rest1 ≤ String.length rest) as Hle.
  { case_bool_decide; [destruct rest|]; simplify_eq; cbn; lia. }
  destruct err; [done|].
  destruct s; [|destruct (failed || _)]; apply IH; lia.
Qed.

(** matchChunk, as the loop of the source reads. *)
Lemma matchChunk_fuel fuel chunk s :
  String.length chunk < fuel → matchChunkLoop fuel chunk s false = matchChunk chunk s.
Proof. intros. apply matchChunkLoop_fuel; lia. Qed.

Lemma skipStars_length pattern :
  String.length (skipStars pattern).2 ≤ String.length pattern ∧
  ((skipStars pattern).1 = true → String.length (skipStars pattern).2 < String.length pattern) ∧
  ((skipStars pattern).1 = false → (skipStars pattern).2 = pattern ∧ startsWith "*" pattern = false).
Proof.
  induction pattern as [|c rest IH]; [done|].
  cbn [skipStars startsWith]. case_bool_decide; cbn [fst snd String.length]; [|done].
  split; [lia|]. split; [lia|done].
Qed.

Lemma scanLoop_length inrange pattern :
  String.length (scanLoop inrange pattern).2 ≤ String.length pattern.
Proof.
  remember (String.length pattern) as n eqn:Hn.
  assert (String.length pattern ≤ n) as Hle by lia. clear Hn.
  revert inrange pattern Hle. induction n as [|n IH]; intros inrange pattern Hle.
  { destruct pattern; [done|]. cbn in Hle. lia. }
  destruct pattern as [|c rest]; [cbn; lia|].
  cbn [String.length] in Hle. cbn [scanLoop].
  repeat case_bool_decide; cbn [andb negb].
  - destruct rest as [|c2 rest2]; [cbn; lia|].
    cbn [String.length] in Hle. cbn [consFst snd].
    etrans; [apply (IH inrange rest2); lia|]. cbn. lia.
  - cbn [consFst snd]. etrans; [apply IH; lia|]. cbn. lia.
  - cbn [consFst snd]. etrans; [apply IH; lia|]. cbn. lia.
  - destruct inrange; cbn [negb consFst snd].
    + etrans; [apply IH; lia|]. cbn. lia.
    + done.
  - cbn [consFst snd]. etrans; [apply IH; lia|]. cbn. lia.
Qed.

Lemma scanLoop_shorter pattern :
  pattern ≠ "" → startsWith "*" pattern = false →
  String.length (scanLoop false pattern).2 < String.length pattern.
Proof.
  destruct pattern as [|c rest]; [done|]. intros _ Hstar.
  cbn [startsWith] in Hstar. apply bool_decide_eq_false in Hstar.
  cbn [scanLoop String.length].
  repeat case_bool_decide; try done; cbn [andb consFst snd].
  - destruct rest as [|c2 rest2]; [cbn; lia|]. cbn [consFst snd String.length].
    pose proof (scanLoop_length false rest2). lia.
  - pose proof (scanLoop_length true rest). lia.
  - pose proof (scanLoop_length false rest). lia.
  - pose proof (scanLoop_length false rest). lia.
Qed.

(** Every chunk takes at least one character of the pattern. *)
Lemma scanChunk_shorter pattern star chunk rest :
  pattern ≠ "" → scanChunk pattern = (star, chunk, rest) →
  String.length rest < String.length pattern.
Proof.
  intros Hne. unfold scanChunk.
  pose proof (skipStars_length pattern) as (Hle & Hlt & Hsame).
  destruct (skipStars pattern) as [star' pattern'] eqn:Hskip. cbn [fst snd] in *.
  pose proof (scanLoop_length false pattern') as Hscan.
  destruct (scanLoop false pattern') as [chunk' rest'] eqn:Hloop. cbn [snd] in Hscan.
  intros [= _ _ <-]. destruct star'.
  - specialize (Hlt eq_refl). lia.
  - destruct (Hsame eq_refl) as [-> Hstar].
    pose proof (scanLoop_shorter pattern Hne Hstar) as Hlt'. rewrite Hloop in Hlt'. done.
Qed.

Lemma checkRest_fuel fuel1 fuel2 pattern :
  String.length pattern ≤ fuel1 → String.length pattern ≤ fuel2 →
  checkRest fuel1 pattern = checkRest fuel2 pattern.
Proof.
  revert fuel2 pattern.
  induction fuel1 as [|fuel1 IH]; intros fuel2 pattern H1 H2.
  { destruct pattern; [|cbn in H1; lia]. by destruct fuel2. }
  destruct fuel2 as [|fuel2].
  { destruct pattern; [done|cbn in H2; lia]. }
  cbn [checkRest]. case_bool_decide as Hne; [done|].
  destruct (scanChunk pattern) as [[star chunk] rest] eqn:Hscan.
  apply scanChunk_shorter in Hscan; [|done].
  destruct (matchChunk chunk "") as [[? ?] [e|]]; [done|]. apply IH; lia.
Qed.

Lemma matchLoop_fuel fuel1 fuel2 pattern name :
  String.length pattern < fuel1 → String.length pattern < fuel2 →
  matchLoop fuel1 pattern name = matchLoop fuel2 pattern name.
Proof.
  revert fuel2 pattern name.
  induction fuel1 as [|fuel1 IH]; intros [|fuel2] pattern name H1 H2; try lia.
  cbn [matchLoop]. case_bool_decide as Hne; [done|].
  destruct (scanChunk pattern) as [[star chunk] rest] eqn:Hscan.
  apply scanChunk_shorter in Hscan; [|done].
  destruct (star && _); [done|].
  destruct (matchChunk chunk name) as [[t ok] err].
  destruct (ok && _); [apply IH; lia|].
  destruct err; [done|].
  destruct (if star then _ else _); [apply IH; lia|done|done].
Qed.

(** checkRest, as the loop of the source reads. *)
Lemma checkRest_eq pattern :
  checkRest (String.length pattern) pattern =
    if bool_decide (pattern = "") then (false, None)
    else
      let '(_, chunk, pattern) := scanChunk pattern in
      match matchChunk chunk "" with
      | (_, _, Some e) => (false, Some e)
      | _ => checkRest (String.length pattern) pattern
      end.
Proof.
  destruct pattern as [|c rest]; [done|].
  cbn [String.length checkRest]. case_bool_decide as Hne; [done|].
  destruct (scanChunk (String c rest)) as [[star chunk] rest'] eqn:Hscan.
  apply scanChunk_shorter in Hscan; [|done]. cbn [String.length] in Hscan.
  destruct (matchChunk chunk "") as [[? ?] [e|]]; [done|]. apply checkRest_fuel; lia.
Qed.

(** Match, as the loop of the source reads: the fuel of the model never
    runs out. *)
Lemma Match_eq pattern name :
  Match pattern name =
    if bool_decide (pattern = "") then (bool_decide (name = ""), None)
    else
      let '(star, chunk, rest) := scanChunk pattern in
      if star && bool_decide (chunk = "") then (negb (Contains name sep), None)
      else
        let '(t, ok, err) := matchChunk chunk name in
        if ok && (bool_decide (t = "") || negb (bool_decide (rest = ""))) then Match rest t
        else
          match err with
          | Some e => (false, Some e)
          | None =>
              match (if star then starLoop chunk (bool_decide (rest = "")) name else StarNone) with
              | StarFound t => Match rest t
              | StarError e => (false, Some e)
              | StarNone => checkRest (String.length rest) rest
              end
          end.
Proof.
  unfold Match at 1. cbn [matchLoop]. case_bool_decide as Hne; [done|].
  destruct (scanChunk pattern) as [[star chunk] rest] eqn:Hscan.
  apply scanChunk_shorter in Hscan; [|done].
  destruct (star && _); [done|].
  destruct (matchChunk chunk name) as [[t ok] err].
  destruct (ok && _); [apply matchLoop_fuel; lia|].
  destruct err; [done|].
  destruct (if star then _ else _); [apply matchLoop_fuel; lia|done|done].
Qed.

Lemma take_length n s : String.length (take n s) ≤ n.
Proof. revert n. induction s as [|c s IH]; intros [|n]; cbn; try lia. specialize (IH n). lia. Qed.

Lemma Split_dir_length path : String.length (Filepath.Split path).1 ≤ String.length path.
Proof. unfold Filepath.Split. cbn [fst]. etrans; [apply take_length|]. lia. Qed.

(** The directory of a pattern that globWithLimit recurses on is shorter
    than the pattern. *)
Lemma cleanGlobPath_shorter pattern :
  let dir := cleanGlobPath (Filepath.Split pattern).1 in
  hasMeta dir = true → String.length dir < String.length pattern.
Proof.
  cbn zeta. pose proof (Split_dir_length pattern) as Hle.
  destruct (Filepath.Split pattern) as [dir file]. cbn [fst] in *.
  unfold cleanGlobPath. case_bool_decide as Hempty; [done|].
  case_bool_decide as Hsep; [by subst dir|].
  intros _. destruct dir as [|c dir]; [done|]. cbn [String.length] in *.
  pose proof (take_length (S (String.length dir) - 1) (String c dir)). lia.
Qed.

Lemma globWithLimit_fuel fuel1 fuel2 w pattern depth :
  String.length pattern < fuel1 → String.length pattern < fuel2 →
  globWithLimit fuel1 w pattern depth = globWithLimit fuel2 w pattern depth.
Proof.
  revert fuel2 pattern depth.
  induction fuel1 as [|fuel1 IH]; intros [|fuel2] pattern depth H1 H2; try lia.
  cbn [globWithLimit]. case_bool_decide; [done|].
  destruct (Match pattern "") as [? [e|]]; [done|].
  destruct (hasMeta pattern); cbn [negb]; [|done].
  pose proof (cleanGlobPath_shorter pattern) as Hdir. cbn zeta in Hdir.
  destruct (Filepath.Split pattern) as [dir file]. cbn [fst] in Hdir.
  destruct (hasMeta (cleanGlobPath dir)); cbn [negb]; [|done].
  specialize (Hdir eq_refl). case_bool_decide; [done|].
  by rewrite (IH fuel2) by lia.
Qed.

Lemma globWithLimit_S fuel w pattern depth :
  globWithLimit (S fuel) w pattern depth =
    if bool_decide (depth = pathSeparatorsLimit) then ([], Some ErrBadPattern)
    else
      match Match pattern "" with
      | (_, Some e) => ([], Some e)
      | _ =>
          if negb (hasMeta pattern) then
            match Os.Lstat w pattern with
            | (_, Some _) => ([], None)
            | _ => ([pattern], None)
            end
          else
            let '(dir, file) := Filepath.Split pattern in
            let dir := cleanGlobPath dir in
            if negb (hasMeta dir) then glob w dir file []
            else if bool_decide (dir = pattern) then ([], Some ErrBadPattern)
            else
              match globWithLimit fuel w dir (depth + 1) with
              | (_, Some e) => ([], Some e)
              | (m, None) => globDirs w file m []
              end
      end.
Proof. reflexivity. Qed.

(** Glob is globWithLimit from depth 0, and globWithLimit, as the source
    reads: the fuel of the model never runs out. *)
Lemma globWithLimit_eq w pattern depth :
  globWithLimit (S (String.length pattern)) w pattern depth =
    if bool_decide (depth = pathSeparatorsLimit) then ([], Some ErrBadPattern)
    else
      match Match pattern "" with
      | (_, Some e) => ([], Some e)
      | _ =>
          if negb (hasMeta pattern) then
            match Os.Lstat w pattern with
            | (_, Some _) => ([], None)
            | _ => ([pattern], None)
            end
          else
            let '(dir, file) := Filepath.Split pattern in
            let dir := cleanGlobPath dir in
            if negb (hasMeta dir) then glob w dir file []
            else if bool_decide (dir = pattern) then ([], Some ErrBadPattern)
            else
              match globWithLimit (S (String.length dir)) w dir (depth + 1) with
              | (_, Some e) => ([], Some e)
              | (m, None) => globDirs w file m []
              end
      end.
Proof.
  rewrite globWithLimit_S. case_bool_decide; [done|].
  destruct (Match pattern "") as [? [e|]]; [done|].
  destruct (hasMeta pattern); cbn [negb]; [|done].
  pose proof (cleanGlobPath_shorter pattern) as Hdir. cbn zeta in Hdir.
  destruct (Filepath.Split pattern) as [dir file]. cbn [fst] in Hdir. cbn zeta.
  destruct (hasMeta (cleanGlobPath dir)); cbn [negb]; [|done].
  specialize (Hdir eq_refl). case_bool_decide; [done|].
  by rewrite (globWithLimit_fuel (String.length pattern) (S (String.length (cleanGlobPath dir)))) by lia.
Qed.

End Termination.

(** ** The file system *)

Section FileSystem.
Import Os.

Lemma assoc_insertEntry name child entries n :
  assoc name entries = None →
  assoc n (insertEntry name child entries) =
    if bool_decide (name = n) then Some child else assoc n entries.
Proof.
  induction entries as [|[n0 c0] rest IH]; simpl; [done|].
  destruct (bool_decide_reflect (n0 = name)) as [|Hn0]; [done|]. intros Hrest.
  destruct (ltb name n0); simpl.
  - done.
  - rewrite IH by done. repeat case_bool_decide; congruence.
Qed.

Lemma assoc_replaceEntry name child entries n c :
  assoc name entries = Some c →
  assoc n (replaceEntry name child entries) =
    if bool_decide (name = n) then Some child else assoc n entries.
Proof.
  induction entries as [|[n0 c0] rest IH]; simpl; [done|].
  destruct (bool_decide_reflect (n0 = name)) as [->|Hn0]; simpl.
  - intros _. by case_bool_decide.
  - intros Hrest. rewrite IH by done. repeat case_bool_decide; congruence.
Qed.

Lemma writeNode_lookup_same n elems data n' :
  writeNode n elems data = inl n' → lookupNode n' elems = inl (File data).
Proof.
  revert n n'. induction elems as [|e rest IH]; intros n n'; simpl.
  - destruct n; [|done]. by intros [= <-].
  - destruct n as [|entries]; [done|].
    destruct (assoc e entries) as [child|] eqn:He.
    + destruct (writeNode child rest data) as [child'|] eqn:Hw; [|done].
      intros [= <-]. simpl. erewrite assoc_replaceEntry by done.
      rewrite bool_decide_eq_true_2 by done. eauto.
    + destruct rest; [|done]. intros [= <-]. simpl.
      rewrite assoc_insertEntry by done. by rewrite bool_decide_eq_true_2.
Qed.

(** A write creates the file or replaces the content of a file. *)
Lemma writeNode_before n elems data n' :
  writeNode n elems data = inl n' →
  entryOf (lookupNode n elems) = None ∨ ∃ old, entryOf (lookupNode n elems) = Some (IsFile old).
Proof.
  revert n n'. induction elems as [|e rest IH]; intros n n'; simpl.
  - destruct n as [old|]; [|done]. intros _. right. by exists old.
  - destruct n as [|entries]; [done|].
    destruct (assoc e entries) as [child|] eqn:He.
    + destruct (writeNode child rest data) as [child'|] eqn:Hw; [|done].
      intros _. by eapply IH.
    + intros _. by left.
Qed.

Lemma writeNode_lookup_other n elems data n' other :
  writeNode n elems data = inl n' → other ≠ elems →
  entryOf (lookupNode n' other) = entryOf (lookupNode n other).
Proof.
  revert n n' other. induction elems as [|e rest IH]; intros n n' other; simpl.
  - destruct n; [|done]. intros [= <-] Hne. by destruct other.
  - destruct n as [|entries]; [done|].
    destruct (assoc e entries) as [child|] eqn:He.
    + destruct (writeNode child rest data) as [child'|] eqn:Hw; [|done].
      intros [= <-] Hne. destruct other as [|o orest]; [done|]. simpl.
      erewrite assoc_replaceEntry by done. case_bool_decide as Heo; [|done].
      subst o. rewrite He. apply IH; [done|congruence].
    + destruct rest; [|done]. intros [= <-] Hne.
      destruct other as [|o orest]; [done|]. simpl.
      rewrite assoc_insertEntry by done. case_bool_decide as Heo; [|done].
      subst o. rewrite He. destruct orest; [done|]. done.
Qed.

End FileSystem.

Section PathNames.
Import GoStrings Filepath.

Lemma append_nil_l (b : string) : "" +:+ b = b.
Proof. reflexivity. Qed.

Lemma append_cons c (a b : string) : String c a +:+ b = String c (a +:+ b).
Proof. reflexivity. Qed.

Lemma append_nil_r (a : string) : a +:+ "" = a.
Proof. induction a; rewrite ?append_cons, ?append_nil_l; congruence. Qed.

Lemma append_assoc (a b c : string) : (a +:+ b) +:+ c = a +:+ (b +:+ c).
Proof. induction a; rewrite ?append_cons, ?append_nil_l; congruence. Qed.

Lemma append_length (a b : string) :
  String.length (a +:+ b) = String.length a + String.length b.
Proof. induction a; rewrite ?append_cons, ?append_nil_l; simpl; congruence. Qed.

Lemma append_ne_self (a b : string) : b ≠ "" → a +:+ b ≠ a.
Proof.
  intros Hb Heq. apply (f_equal String.length) in Heq. rewrite append_length in Heq.
  destruct b; [done|]. simpl in Heq. lia.
Qed.

Lemma HasPrefix_sep c rest : HasPrefix (String c rest) sep = bool_decide (c = Separator).
Proof.
  unfold HasPrefix, sep.
  change (String.prefix (String Separator "") (String c rest))
    with (if ascii_dec Separator c then String.prefix "" rest else false).
  destruct (ascii_dec Separator c) as [<-|Hne].
  - rewrite bool_decide_eq_true_2 by done. by destruct rest.
  - by rewrite bool_decide_eq_false_2.
Qed.

Lemma splitScan_no_sep ext cur :
  Contains ext sep = false → splitScan sep 0 cur ext = [cur +:+ ext].
Proof.
  revert cur. induction ext as [|c rest IH]; intros cur; simpl.
  - intros _. by rewrite append_nil_r.
  - change (String.prefix sep (String c rest)) with (HasPrefix (String c rest) sep).
    intros [Hc Hrest]%orb_false_iff. rewrite Hc. rewrite IH by done.
    by rewrite append_assoc.
Qed.

Lemma splitScan_ext ext s cur :
  Contains ext sep = false →
  ∃ init last,
    splitScan sep 0 cur s = init ++ [last] ∧
    splitScan sep 0 cur (s +:+ ext) = init ++ [last +:+ ext].
Proof.
  intros Hext. revert cur. induction s as [|c rest IH]; intros cur.
  - exists [], cur. split; [done|]. by apply splitScan_no_sep.
  - rewrite append_cons. cbn [splitScan].
    rewrite !HasPrefix_sep. destruct (bool_decide (c = Separator)).
    + destruct (IH "") as (init & last & H1 & H2).
      exists (cur :: init), last. simpl. by rewrite H1, H2.
    + apply IH.
Qed.

Lemma cleanElems_app rooted stack a b :
  cleanElems rooted stack (a ++ b) = cleanElems rooted (cleanElems rooted stack a) b.
Proof.
  revert stack. induction a as [|e a IH]; intros stack; simpl; [done|].
  repeat (case_match; try done).
Qed.

Lemma cleanElems_ext rooted stack last ext :
  3 ≤ String.length ext →
  cleanElems rooted stack [last +:+ ext] = stack ++ [last +:+ ext] ∧
  cleanElems rooted stack [last] ≠ stack ++ [last +:+ ext].
Proof.
  intros Hlen.
  assert (Hne : ∀ x, String.length x ≤ 2 → last +:+ ext ≠ x).
  { intros x Hx Heq. apply (f_equal String.length) in Heq.
    rewrite append_length in Heq. lia. }
  assert (Hself : last +:+ ext ≠ last).
  { apply append_ne_self. intros ->. simpl in Hlen. lia. }
  split.
  - simpl. rewrite !bool_decide_eq_false_2; [done|apply Hne; simpl; lia..].
  - simpl. intros Heq.
    assert (Hlong : ∀ l : list string, length l ≤ length stack → l ≠ stack ++ [last +:+ ext]).
    { intros l Hl Hl'. apply (f_equal length) in Hl'. rewrite length_app in Hl'. simpl in Hl'. lia. }
    assert (Hsnoc : ∀ x, x ≠ last +:+ ext → stack ++ [x] ≠ stack ++ [last +:+ ext]).
    { intros x Hx [= ?]%app_inv_head. done. }
    repeat case_bool_decide; simpl in Heq; subst;
      try (by eapply Hlong; [|exact Heq]);
      try (by eapply Hsnoc; [|exact Heq]).
    + destruct (list.last stack) as [top|] eqn:Htop.
      * apply last_Some in Htop as [l' ->]. case_bool_decide.
        -- eapply Hsnoc; [|exact Heq]. by apply not_eq_sym, Hne.
        -- rewrite removelast_last in Heq. eapply Hlong; [|exact Heq].
           rewrite length_app. simpl. lia.
      * destruct rooted.
        -- by eapply Hlong; [|exact Heq].
        -- eapply Hsnoc; [|exact Heq]. by apply not_eq_sym, Hne.
Qed.

Lemma isRooted_ext p ext : p ≠ "" → isRooted (p +:+ ext) = isRooted p.
Proof. destruct p; [done|]. intros _. unfold isRooted. by rewrite append_cons, !HasPrefix_sep. Qed.

Lemma resolve_ext w p ext elems :
  Contains ext sep = false → 3 ≤ String.length ext →
  Os.resolve w p = Some elems →
  ∃ elems', Os.resolve w (p +:+ ext) = Some elems' ∧ elems' ≠ elems.
Proof.
  intros Hsep Hlen. unfold Os.resolve.
  case_bool_decide as Hp; [done|].
  rewrite bool_decide_eq_false_2.
  2:{ intros Heq. apply (f_equal String.length) in Heq. rewrite append_length in Heq.
      simpl in Heq. lia. }
  rewrite isRooted_ext by done.
  assert (Hsplit : GoStrings.Split p sep = splitScan sep 0 "" p) by done.
  assert (Hsplit' : GoStrings.Split (p +:+ ext) sep = splitScan sep 0 "" (p +:+ ext)) by done.
  rewrite Hsplit, Hsplit'.
  destruct (splitScan_ext ext p "" Hsep) as (init & last & -> & ->).
  assert (Hgen : ∀ stack,
    cleanElems true stack (init ++ [last +:+ ext]) ≠ cleanElems true stack (init ++ [last])).
  { intros stack. rewrite !cleanElems_app.
    destruct (cleanElems_ext true (cleanElems true stack init) last ext Hlen) as [-> Hne].
    by apply not_eq_sym. }
  destruct (isRooted p).
  - intros [= <-]. eexists; split; [done|]. apply Hgen.
  - destruct (cwd w) as [d|]; [|done]. simpl. intros [= <-].
    eexists; split; [done|]. apply Hgen.
Qed.

End PathNames.

Section Writing.
Import GoStrings Filepath.

Lemma resolve_cwd w w' path : cwd w' = cwd w → Os.resolve w' path = Os.resolve w path.
Proof. unfold Os.resolve. by intros ->. Qed.

Lemma WriteFile_success path data w w' :
  Os.WriteFile path data w = (None, w') →
  ∃ elems,
    Os.resolve w path = Some elems ∧
    Os.writeNode (root w) elems data = inl (root w') ∧
    cwd w' = cwd w ∧ environ w' = environ w ∧ procs w' = procs w.
Proof.
  unfold Os.WriteFile. destruct (Os.resolve w path) as [elems|]; [|done].
  destruct (Os.writeNode (root w) elems data) as [r|] eqn:Hw; [|done].
  intros [= <-]. by exists elems.
Qed.

Lemma WriteFile_entryAt_before path data w w' :
  Os.WriteFile path data w = (None, w') →
  entryAt w path = None ∨ ∃ old, entryAt w path = Some (IsFile old).
Proof.
  intros (elems & Hres & Hw & _)%WriteFile_success.
  unfold entryAt, Os.nodeAt. rewrite Hres. by eapply writeNode_before.
Qed.

Lemma WriteFile_failure path data w e w' :
  Os.WriteFile path data w = (Some e, w') → w' = w.
Proof.
  unfold Os.WriteFile. destruct (Os.resolve w path) as [elems|]; [|congruence].
  destruct (Os.writeNode (root w) elems data); congruence.
Qed.

Lemma WriteFile_entryAt_same path data w w' :
  Os.WriteFile path data w = (None, w') → entryAt w' path = Some (IsFile data).
Proof.
  intros (elems & Hres & Hw & Hcwd & _)%WriteFile_success.
  unfold entryAt, Os.nodeAt. rewrite (resolve_cwd w w') by done. rewrite Hres.
  by rewrite (writeNode_lookup_same _ _ _ _ Hw).
Qed.

Lemma WriteFile_entryAt_other path data w w' p :
  Os.WriteFile path data w = (None, w') →
  Os.resolve w p ≠ Os.resolve w path →
  entryAt w' p = entryAt w p.
Proof.
  intros (elems & Hres & Hw & Hcwd & _)%WriteFile_success Hne.
  unfold entryAt, Os.nodeAt. rewrite (resolve_cwd w w') by done.
  destruct (Os.resolve w p) as [other|]; [|done].
  apply (writeNode_lookup_other _ _ _ _ _ Hw). congruence.
Qed.

Lemma ReadFile_world path w r w' : Os.ReadFile path w = (r, w') → w' = w.
Proof. unfold Os.ReadFile. repeat case_match; congruence. Qed.

Lemma ReadFile_success path w data w' :
  Os.ReadFile path w = ((data, None), w') → entryAt w path = Some (IsFile data).
Proof.
  unfold Os.ReadFile, entryAt. destruct (Os.nodeAt w path) as [[]|]; simpl; congruence.
Qed.

Lemma getOutputExtension_shape opts :
  Contains (getOutputExtension opts) sep = false ∧ 3 ≤ String.length (getOutputExtension opts).
Proof. destruct opts as [[] [] []]; split; (reflexivity || (simpl; lia)). Qed.

Section WithLibrary.
Context `{OpenPGP}.

Lemma getOutputPath_ext s filePath opts :
  GoPGP.getOutputPath s filePath opts = filePath +:+ getOutputExtension opts.
Proof. by destruct opts as [[] [] []]. Qed.

(** What a call of the library-backed SignFile does: it fails and leaves
    the machine as it was, or it reads the file, makes the signature and
    writes it to the file named with the extension. *)
Lemma GoPGPSigner_SignFile_cases s filePath opts w r w' :
  GoPGP.GoPGPSigner_SignFile s filePath opts w = (r, w') →
  (is_Some r ∧ w' = w) ∨
  (r = None ∧ ∃ data signature,
     entryAt w filePath = Some (IsFile data) ∧
     GoPGP.signatureFor s data opts = (signature, None) ∧
     Os.WriteFile (filePath +:+ getOutputExtension opts) signature w = (None, w')).
Proof.
  unfold GoPGP.GoPGPSigner_SignFile, mbind, IO_bind, mret, IO_ret.
  destruct (Os.ReadFile filePath w) as [[data [e|]] w1] eqn:Hread;
    pose proof (ReadFile_world _ _ _ _ Hread) as ->.
  { intros [= <- <-]. left. eauto. }
  destruct (GoPGP.signatureFor s data opts) as [signature [e|]] eqn:Hsig.
  { intros [= <- <-]. left. eauto. }
  rewrite getOutputPath_ext.
  destruct (Os.WriteFile _ signature w) as [[e|] w2] eqn:Hwrite.
  { intros [= <- <-]. left. split; [eauto|]. by eapply WriteFile_failure. }
  intros [= <- <-]. right. split; [done|]. exists data, signature.
  eauto using ReadFile_success.
Qed.

End WithLibrary.
End Writing.


(** C1.  For each of the eight values of the three flags, ordered as
    (Armor, DetachSign, ClearSign), getOutputExtension returns the
    extension of the table: [.asc] whenever ClearSign is set, otherwise
    [.asc] whenever Armor is set, otherwise [.sig] whenever DetachSign is
    set, otherwise [.gpg]. *)
Theorem getOutputExtension_table :
  getOutputExtension (mkSignOptions false false false) = ".gpg" ∧
  getOutputExtension (mkSignOptions false true false) = ".sig" ∧
  getOutputExtension (mkSignOptions true false false) = ".asc" ∧
  getOutputExtension (mkSignOptions true true false) = ".asc" ∧
  getOutputExtension (mkSignOptions false false true) = ".asc" ∧
  getOutputExtension (mkSignOptions false true true) = ".asc" ∧
  getOutputExtension (mkSignOptions true false true) = ".asc" ∧
  getOutputExtension (mkSignOptions true true true) = ".asc".
Proof. repeat split; reflexivity. Qed.

(** ** The library-backed SignFile *)

Section OneFile.
Context `{OpenPGP}.

Lemma entryAt_resolve w p q : Os.resolve w p = Os.resolve w q → entryAt w p = entryAt w q.
Proof. unfold entryAt, Os.nodeAt. by intros ->. Qed.

Lemma entryAt_Some_resolve w p e : entryAt w p = Some e → is_Some (Os.resolve w p).
Proof. unfold entryAt, Os.nodeAt. destruct (Os.resolve w p); [eauto|done]. Qed.

Lemma WriteFile_keeps_files path data w w' p d :
  Os.WriteFile path data w = (None, w') →
  entryAt w p = Some (IsFile d) → ∃ d', entryAt w' p = Some (IsFile d').
Proof.
  intros Hw Hp. destruct (decide (Os.resolve w p = Os.resolve w path)) as [Heq|Hne].
  - exists data. pose proof Hw as (? & ? & ? & Hcwd & _)%WriteFile_success.
    rewrite (entryAt_resolve w' p path).
    + by eapply WriteFile_entryAt_same.
    + by rewrite !(resolve_cwd w w').
  - exists d. by rewrite (WriteFile_entryAt_other _ _ _ _ _ Hw Hne).
Qed.

(** C8, as amended.  A successful SignFile of the library-backed signer
    has read the input file and written the signature of its content to
    one file, the one named by the input path with the extension of the
    options appended, a name that differs from the input path.  That name
    held nothing or a file before the call: the file is created, or the
    content of the file already there is replaced.  After the call it is a
    file holding the signature; every name that denotes another place
    denotes what it did before, the input file among them when the output
    name does not denote the input file itself; and the current directory,
    the environment, the list of commands run and the signer are
    unchanged. *)
Theorem SignFile_writes_one_file (s s' : GoPGP.GoPGPSigner) (filePath : string)
    (opts : SignOptions) (w w' : World) :
  SignFile s filePath opts w = ((s', None), w') →
  let outputPath := filePath +:+ getOutputExtension opts in
  ∃ data signature,
    entryAt w filePath = Some (IsFile data) ∧
    GoPGP.signatureFor s data opts = (signature, None) ∧
    GoPGP.getOutputPath s filePath opts = outputPath ∧
    outputPath ≠ filePath ∧
    Os.WriteFile outputPath signature w = (None, w') ∧
    (entryAt w outputPath = None ∨ ∃ old, entryAt w outputPath = Some (IsFile old)) ∧
    entryAt w' outputPath = Some (IsFile signature) ∧
    (Os.resolve w filePath ≠ Os.resolve w outputPath →
     entryAt w' filePath = Some (IsFile data)) ∧
    (∀ p, Os.resolve w p ≠ Os.resolve w outputPath → entryAt w' p = entryAt w p) ∧
    cwd w' = cwd w ∧ environ w' = environ w ∧ procs w' = procs w ∧ s' = s.
Proof.
  intros Hsign outputPath. cbn in Hsign. unfold mbind, IO_bind, mret, IO_ret in Hsign.
  destruct (GoPGP.GoPGPSigner_SignFile s filePath opts w) as [r w1] eqn:Hcall.
  injection Hsign as <- -> <-.
  apply GoPGPSigner_SignFile_cases in Hcall as [[[? [=]] _]|[_ (data & signature & Hin & Hsig & Hw)]].
  destruct (getOutputExtension_shape opts) as [Hsep Hlen].
  pose proof Hw as (? & _ & _ & Hcwd & Henv & Hprocs)%WriteFile_success.
  subst outputPath. exists data, signature. split_and!; try done.
  - apply getOutputPath_ext.
  - apply append_ne_self. intros Heq. rewrite Heq in Hlen. simpl in Hlen. lia.
  - by eapply WriteFile_entryAt_before.
  - by eapply WriteFile_entryAt_same.
  - intros Hne. rewrite <- Hin. by eapply WriteFile_entryAt_other.
  - intros p Hp. by eapply WriteFile_entryAt_other.
Qed.

End OneFile.

(** Signing /w/a.txt with a detached armored signature. *)
Lemma SignFile_writes_one_file_witness :
  ∃ w',
    SignFile exampleSigner "/w/a.txt" (mkSignOptions true true false) threeFiles
      = ((exampleSigner, None), w') ∧
    entryAt threeFiles "/w/a.txt.asc" = None ∧
    entryAt w' "/w/a.txt.asc" = Some (IsFile "-----BEGIN PGP SIGNATURE----- alpha") ∧
    entryAt w' "/w/a.txt" = Some (IsFile "alpha") ∧
    entryAt w' "/w/b.txt" = entryAt threeFiles "/w/b.txt".
Proof.
  eexists. split; [vm_compute; reflexivity|].
  destruct (@SignFile_writes_one_file Example.library exampleSigner exampleSigner "/w/a.txt"
    (mkSignOptions true true false) threeFiles _ eq_refl)
    as (data & signature & Hin & Hsig & _ & _ & _ & _ & Hout & Hkeep & Hframe & _).
  vm_compute in Hin. vm_compute in Hsig.
  injection Hin as <-. injection Hsig as <-.
  split_and!; [reflexivity|exact Hout|by apply Hkeep|by apply Hframe].
Defined.

(** C8 fails where a file is at the output name already: the file
    written is not new, and a file that is not the input is changed.
    After /w/a.txt has been signed with a detached armored
    signature, /w/a.txt.asc is a file holding that signature; signing
    /w/a.txt in clear text then succeeds and writes to the same name, so
    that the detached signature is gone. *)
Lemma SignFile_replaces_signature :
  entryAt oneSigned "/w/a.txt.asc" = Some (IsFile "-----BEGIN PGP SIGNATURE----- alpha") ∧
  ∃ w',
    SignFile exampleSigner "/w/a.txt" (mkSignOptions true false true) oneSigned
      = ((exampleSigner, None), w') ∧
    entryAt w' "/w/a.txt.asc" = Some (IsFile "-----BEGIN PGP SIGNED MESSAGE----- alpha") ∧
    entryAt w' "/w/a.txt" = Some (IsFile "alpha").
Proof. split; [by vm_compute|]. eexists. by vm_compute. Qed.

(** ** The orchestrator *)

Section Orchestrator.
Import Main.
Context `{OpenPGP, Programs}.
Local Arguments parseMultilineInput : simpl never.
Context {T F : Type} `{SignerI T, FileFinderI F}.

Lemma signEach_fail_fast (opts : SignOptions) (before : list string) (failing : string)
    (after : list string) (log : list (string * SignOptions)) (s s1 s2 : T)
    (w w1 w2 : World) (cause : error) :
  SignsAll opts s w before s1 w1 →
  SignFile s1 failing opts w1 = ((s2, Some cause), w2) →
  signEach (mkNoting log s) (before ++ failing :: after) opts w =
    ((mkNoting (log ++ ((λ f, (f, opts)) <$> (before ++ [failing]))) s2,
      Some (Wrap ("failed to sign file " +:+ failing +:+ ": ") cause)), w2).
Proof.
  intros Hall Hfail. revert log.
  induction Hall as [s w|s w file s' w' rest s1 w1 Hfile Hrest IH]; intros log.
  - cbn. unfold mbind, IO_bind, mret, IO_ret. by rewrite Hfail.
  - cbn. unfold mbind, IO_bind, mret, IO_ret. rewrite Hfile.
    rewrite IH by done. by rewrite <- app_assoc.
Qed.

Lemma SignsAll_artifacts (opts : SignOptions) (artifact : string → World → Prop)
    (files : list string) (s s' : T) (w w' : World) :
  (∀ s w f s' w', SignFile s f opts w = ((s', None), w') → artifact f w') →
  (∀ s w g r w' f, SignFile s g opts w = (r, w') → artifact f w → artifact f w') →
  SignsAll opts s w files s' w' →
  Forall (λ f, artifact f w') files ∧ ∀ f, artifact f w → artifact f w'.
Proof.
  intros Hwrite Hkeep. induction 1 as [s w|s w file s1 w1 rest s' w' Hfile Hrest [IH1 IH2]].
  - by split.
  - split.
    + constructor; [|done]. apply IH2. by eapply Hwrite.
    + intros f Hf. apply IH2. by eapply Hkeep.
Qed.

(** C3.  The finder returns the files [before ++ failing :: after];
    SignFile succeeds on the files of [before] in turn and fails on
    [failing].  Then run returns the error of that call wrapped with the
    path of the failing file, the calls of SignFile were those on
    [before] and then on [failing], in the order of the finder and with
    the options of the arguments, none on [after], and the machine is as
    the failing call left it.  Whenever a successful SignFile leaves the
    artifact of its file and no call of SignFile removes an artifact, the
    artifacts of the files of [before] are there after the run. *)
Theorem run_fail_fast (args : ActionInputs) (signer s1 s2 : T) (finder finder' : F)
    (workDir : string) (before : list string) (failing : string) (after : list string)
    (cause : error) (w0 w1 w2 w3 w4 : World) (artifact : string → World → Prop) :
  let opts := mkSignOptions (Armor args) (DetachSign args) (ClearSign args) in
  resolveWorkDir args w0 = ((workDir, None), w1) →
  FindFiles finder workDir (parseMultilineInput (Files args))
    (parseMultilineInput (Excludes args)) w1 =
    ((finder', (before ++ failing :: after, None)), w2) →
  SignsAll opts signer w2 before s1 w3 →
  SignFile s1 failing opts w3 = ((s2, Some cause), w4) →
  (∀ s w f s' w', SignFile s f opts w = ((s', None), w') → artifact f w') →
  (∀ s w g r w' f, SignFile s g opts w = (r, w') → artifact f w → artifact f w') →
  run args (Some (mkSigner (mkNoting [] signer))) (Some (mkFileFinder finder)) w0 =
    (mkOutcome
       (Some (Wrap ("failed to sign file " +:+ failing +:+ ": ") cause))
       (Some (mkSigner (mkNoting ((λ f, (f, opts)) <$> (before ++ [failing])) s2)))
       (Some (mkFileFinder finder')),
     w4) ∧
  Forall (λ f, artifact f w4) before.
Proof.
  intros opts Hwd Hfind Hall Hfail Hwrite Hkeep. split.
  - unfold run. cbn. unfold mbind, IO_bind, mret, IO_ret.
    rewrite Hwd, Hfind.
    rewrite bool_decide_eq_false_2 by (rewrite length_app; simpl; lia).
    fold opts.
    by rewrite (signEach_fail_fast opts before failing after [] signer s1 s2 w2 w3 w4 cause).
  - destruct (SignsAll_artifacts opts artifact before signer s1 w2 w3 Hwrite Hkeep Hall)
      as [Hbefore _].
    eapply Forall_impl; [exact Hbefore|]. intros f Hf. by eapply Hkeep.
Qed.

End Orchestrator.

Section LibrarySigner.
Context `{OpenPGP}.

Lemma GoPGPSigner_leaves_artifact (s s' : GoPGP.GoPGPSigner) f opts w w' :
  SignFile s f opts w = ((s', None), w') →
  ∃ d, entryAt w' (f +:+ getOutputExtension opts) = Some (IsFile d).
Proof.
  intros Hsign. cbn in Hsign. unfold mbind, IO_bind, mret, IO_ret in Hsign.
  destruct (GoPGP.GoPGPSigner_SignFile s f opts w) as [r w1] eqn:Hcall.
  injection Hsign as <- -> <-.
  apply GoPGPSigner_SignFile_cases in Hcall as [[[? [=]] _]|[_ (data & signature & _ & _ & Hw)]].
  exists signature. by eapply WriteFile_entryAt_same.
Qed.

Lemma GoPGPSigner_keeps_files (s : GoPGP.GoPGPSigner) g opts w r w' p d :
  SignFile s g opts w = (r, w') →
  entryAt w p = Some (IsFile d) → ∃ d', entryAt w' p = Some (IsFile d').
Proof.
  intros Hsign Hp. cbn in Hsign. unfold mbind, IO_bind, mret, IO_ret in Hsign.
  destruct (GoPGP.GoPGPSigner_SignFile s g opts w) as [r1 w1] eqn:Hcall.
  injection Hsign as <- <-.
  apply GoPGPSigner_SignFile_cases in Hcall as [[_ ->]|[_ (data & signature & _ & _ & Hw)]].
  - eauto.
  - by eapply WriteFile_keeps_files.
Qed.

End LibrarySigner.

(** Three files, the second of which cannot be signed: the place of its
    signature is taken by a directory. *)
Lemma run_fail_fast_witness :
  @Main.run Example.library Example.programs exampleArgs
    (Some (mkSigner (Main.mkNoting [] exampleSigner))) (Some (Main.mkFileFinder ())) threeFiles =
    (Main.mkOutcome
       (Some (Wrap "failed to sign file /w/b.txt: "
                (Wrap "failed to write signature: "
                   (Os.PathError "open" "/w/b.txt.asc" Os.EISDIR))))
       (Some (mkSigner (Main.mkNoting [("/w/a.txt", exampleOpts); ("/w/b.txt", exampleOpts)]
                          exampleSigner)))
       (Some (Main.mkFileFinder ())),
     oneSigned) ∧
  Forall (λ f, ∃ d, entryAt oneSigned (f +:+ ".asc") = Some (IsFile d)) ["/w/a.txt"].
Proof.
  apply (@run_fail_fast Example.library Example.programs _ _ _ _ exampleArgs
    exampleSigner exampleSigner exampleSigner () () "/w"
    ["/w/a.txt"] "/w/b.txt" ["/w/c.txt"]
    (Wrap "failed to write signature: " (Os.PathError "open" "/w/b.txt.asc" Os.EISDIR))
    threeFiles threeFiles threeFiles oneSigned oneSigned
    (λ f w, ∃ d, entryAt w (f +:+ getOutputExtension exampleOpts) = Some (IsFile d))).
  - reflexivity.
  - reflexivity.
  - eapply Main.SignsAll_cons; [reflexivity|apply Main.SignsAll_nil].
  - reflexivity.
  - intros s w f s' w'. apply GoPGPSigner_leaves_artifact.
  - intros s w g r w' f Hsign [d Hd]. by eapply GoPGPSigner_keeps_files.
Defined.

(** ** The signing contract *)

Section Signing.
Context `{OpenPGP}.

(** C2.  Both signing variants follow the same precedence.  The effective
    mode is detached when DetachSign is set (ClearSign has no say, Armor is
    honoured), else clear-text when ClearSign is set (armored whatever
    Armor says), else inline (Armor honoured).  For every data and options
    the library-backed SignFile computes what the OpenPGP library makes of
    the effective mode with the signer's key: the result of Sign on a
    detached handle for a detached signature, of SignCleartext on a plain
    handle for a clear-text signature, of Sign on a plain handle for an
    inline signature, Sign being asked for armored output exactly when
    Armor is set; a failure of the library is returned with the words of
    the step that failed; and a SignFile that succeeds has written that
    signature of the content of the input to the output path.  The command
    line built for gpg names the effective mode, whatever the
    passphrase. *)
Theorem signing_mode_precedence (s : GoPGP.GoPGPSigner) (g : GnuPG.GnuPGSigner)
    (data : string) (opts : SignOptions) :
  GoPGP.signatureFor s data opts =
    match librarySignature (GoPGP.privateKey s) data (effectiveMode opts) with
    | inl (inl signature) => (signature, None)
    | inl (inr err) => ("", Some (Wrap (signingFailure (effectiveMode opts)) err))
    | inr err => ("", Some (Wrap "failed to create signing handle: " err))
    end ∧
  (∀ filePath w s' w',
     SignFile s filePath opts w = ((s', None), w') →
     ∃ content signature,
       entryAt w filePath = Some (IsFile content) ∧
       librarySignature (GoPGP.privateKey s) content (effectiveMode opts)
         = inl (inl signature) ∧
       entryAt w' (filePath +:+ getOutputExtension opts) = Some (IsFile signature)) ∧
  gpgMode (GnuPG.buildArgs g opts) = Some (effectiveMode opts) ∧
  effectiveMode opts =
    match DetachSign opts, ClearSign opts with
    | true, _ => Detached (Armor opts)
    | false, true => ClearText
    | false, false => Inline (Armor opts)
    end ∧
  isArmored (effectiveMode opts) = (Armor opts || (negb (DetachSign opts) && ClearSign opts)).
Proof.
  assert (Hlibrary : ∀ content,
    GoPGP.signatureFor s content opts =
      match librarySignature (GoPGP.privateKey s) content (effectiveMode opts) with
      | inl (inl signature) => (signature, None)
      | inl (inr err) => ("", Some (Wrap (signingFailure (effectiveMode opts)) err))
      | inr err => ("", Some (Wrap "failed to create signing handle: " err))
      end).
  { intros content. destruct opts as [a d c].
    unfold GoPGP.signatureFor, effectiveMode, librarySignature; simpl.
    destruct d; [|destruct c].
    - unfold GoPGP.createDetachedSignature, GoPGP.encodingOf.
      destruct (NewSignHandle _ true) as [handle|]; [|done].
      by destruct (Sign handle content _).
    - unfold GoPGP.createClearSignature.
      destruct (NewSignHandle _ false) as [handle|]; [|done].
      by destruct (SignCleartext handle content).
    - unfold GoPGP.createInlineSignature, GoPGP.encodingOf.
      destruct (NewSignHandle _ false) as [handle|]; [|done].
      by destruct (Sign handle content _). }
  split_and!.
  - apply Hlibrary.
  - intros filePath w s' w' Hsign. cbn in Hsign.
    unfold mbind, IO_bind, mret, IO_ret in Hsign.
    destruct (GoPGP.GoPGPSigner_SignFile s filePath opts w) as [r w1] eqn:Hcall.
    injection Hsign as <- -> <-.
    apply GoPGPSigner_SignFile_cases in Hcall
      as [[[? [=]] _]|[_ (content & signature & Hin & Hsig & Hw)]].
    exists content, signature. split_and!; [done| |by eapply WriteFile_entryAt_same].
    rewrite Hlibrary in Hsig.
    destruct (librarySignature _ content _) as [[signature'|]|]; [|done..].
    by injection Hsig as ->.
  - destruct opts as [a d c], g as [pass]. unfold GnuPG.buildArgs, effectiveMode; simpl.
    destruct (bool_decide (pass = "")), a, d, c; reflexivity.
  - by destruct opts as [a [] []].
  - by destruct opts as [[] [] []].
Qed.

(** C9.  A passphrase-protected key: a private key that parses and is
    locked, and that a wrong passphrase fails to unlock.  Initializing the
    library-backed signer with no passphrase gives the locked-key error,
    with the wrong passphrase the unlock error, the two differ (as values
    and as messages, and only the second wraps a cause), and whenever
    initialization succeeds the signer's key is not locked. *)
Theorem NewGoPGPSigner_key_lock (armoredKey wrong : string) (key : Key) (cause : error) :
  NewKeyFromArmored armoredKey = inl key →
  IsPrivate key = true →
  IsLocked key = inl true →
  wrong ≠ "" →
  Unlock key wrong = inr cause →
  let lockedErr := New "private key is locked but no passphrase provided" in
  let unlockErr := Wrap "failed to unlock private key: " cause in
  GoPGP.NewGoPGPSigner armoredKey "" = (None, Some lockedErr) ∧
  GoPGP.NewGoPGPSigner armoredKey wrong = (None, Some unlockErr) ∧
  lockedErr ≠ unlockErr ∧
  Error lockedErr ≠ Error unlockErr ∧
  Unwrap lockedErr = None ∧ Unwrap unlockErr = Some cause ∧
  ∀ passphrase s,
    GoPGP.NewGoPGPSigner armoredKey passphrase = (Some s, None) →
    IsLocked (GoPGP.privateKey s) = inl false.
Proof.
  intros Hparse Hpriv Hlocked Hwrong Hunlock lockedErr unlockErr.
  split_and!; try done.
  - unfold GoPGP.NewGoPGPSigner. rewrite Hparse, Hpriv. simpl. by rewrite Hlocked.
  - unfold GoPGP.NewGoPGPSigner. rewrite Hparse, Hpriv. simpl.
    rewrite bool_decide_eq_false_2 by done. simpl. by rewrite Hunlock.
  - intros passphrase s. unfold GoPGP.NewGoPGPSigner. rewrite Hparse, Hpriv. simpl.
    destruct (if negb (bool_decide (passphrase = "")) then _ else _) as [k|]; [|done].
    destruct (IsLocked k) as [[]|] eqn:Hk; [done| |done].
    intros [= <-]. done.
Qed.

End Signing.

(** A clear-text signature is asked for together with binary output: the
    library's SignCleartext makes the signature, which is armored text,
    and gpg is given [--clear-sign].  With all three flags set the
    signature is detached and armored: ClearSign has no say. *)
Lemma signing_mode_precedence_witness :
  GoPGP.signatureFor exampleSigner "alpha" (mkSignOptions false false true) =
    ("-----BEGIN PGP SIGNED MESSAGE----- alpha", None) ∧
  effectiveMode (mkSignOptions false false true) = ClearText ∧
  GnuPG.buildArgs (GnuPG.mkGnuPGSigner "") (mkSignOptions false false true) =
    ["--batch"; "--yes"; "--clear-sign"] ∧
  (∃ w',
     SignFile exampleSigner "/w/a.txt" (mkSignOptions false false true) threeFiles
       = ((exampleSigner, None), w') ∧
     entryAt w' "/w/a.txt.asc" = Some (IsFile "-----BEGIN PGP SIGNED MESSAGE----- alpha")) ∧
  GoPGP.signatureFor exampleSigner "alpha" (mkSignOptions true true true) =
    ("-----BEGIN PGP SIGNATURE----- alpha", None) ∧
  effectiveMode (mkSignOptions true true true) = Detached true ∧
  gpgMode (GnuPG.buildArgs (GnuPG.mkGnuPGSigner "secret123") (mkSignOptions true true true)) =
    Some (Detached true).
Proof.
  destruct (@signing_mode_precedence Example.library exampleSigner (GnuPG.mkGnuPGSigner "")
    "alpha" (mkSignOptions false false true)) as (Hsig & Hfile & Hgpg & Hmode & _).
  destruct (@signing_mode_precedence Example.library exampleSigner
    (GnuPG.mkGnuPGSigner "secret123") "alpha" (mkSignOptions true true true))
    as (Hsig' & _ & Hgpg' & Hmode' & _).
  split_and!; [exact Hsig|exact Hmode|reflexivity| |exact Hsig'|exact Hmode'|exact Hgpg'].
  eexists. split; [vm_compute; reflexivity|].
  destruct (Hfile "/w/a.txt" threeFiles exampleSigner _ eq_refl)
    as (content & signature & Hin & Hlib & Hout).
  vm_compute in Hin. injection Hin as <-.
  vm_compute in Hlib. injection Hlib as <-.
  exact Hout.
Defined.

(** A locked example key, no passphrase and a wrong one. *)
Lemma NewGoPGPSigner_key_lock_witness :
  let lib := Example.library in
  GoPGP.NewGoPGPSigner "PRIVATE KEY locked with secret123" "" =
    (None, Some (New "private key is locked but no passphrase provided")) ∧
  GoPGP.NewGoPGPSigner "PRIVATE KEY locked with secret123" "wrongpass" =
    (None, Some (Wrap "failed to unlock private key: " (New "gopenpgp: error in unlocking key"))).
Proof.
  intros lib.
  pose proof (@NewGoPGPSigner_key_lock lib "PRIVATE KEY locked with secret123" "wrongpass"
    (Example.mkKey true (Some "secret123")) (New "gopenpgp: error in unlocking key")
    eq_refl eq_refl eq_refl ltac:(discriminate) eq_refl) as (H1 & H2 & _).
  exact (conj H1 H2).
Defined.

(** ** The backend selector *)

Section Backend.
Context `{OpenPGP, Programs}.

(** C10.  For a backend other than gopgp and gnupg, NewSigner returns no
    signer and an error that names the backend; the key and the passphrase
    have no part in the result, whatever the OpenPGP library and the
    installed programs do, and the machine is as before: no command was
    run. *)
Theorem NewSigner_unknown_backend (backend privateKey passphrase : string) (w : World) :
  backend ≠ "gopgp" →
  backend ≠ "gnupg" →
  Main.NewSigner backend privateKey passphrase w =
    ((None, Some (New ("unknown signer backend: " +:+ backend))), w).
Proof.
  intros Hgo Hgnu. unfold Main.NewSigner, Main.BackendGoPGP, Main.BackendGnuPG.
  by rewrite !bool_decide_eq_false_2.
Qed.

End Backend.

(** The backend of the test TestNewSigner_InvalidBackend. *)
Lemma NewSigner_unknown_backend_witness :
  @Main.NewSigner Example.library Example.programs "invalid" "key" ""
    (mkWorld (Dir []) (Some []) ∅ []) =
    ((None, Some (New "unknown signer backend: invalid")), mkWorld (Dir []) (Some []) ∅ []).
Proof.
  apply (@NewSigner_unknown_backend Example.library Example.programs); discriminate.
Defined.

(** ** Cleaned paths *)

Section CleanPaths.
Import GoStrings Filepath.

Lemma Contains_sep_nil : Contains "" sep = false.
Proof. reflexivity. Qed.

Lemma Contains_sep_cons c s :
  Contains (String c s) sep = bool_decide (c = Separator) || Contains s sep.
Proof. cbn [Contains]. by rewrite HasPrefix_sep. Qed.

Lemma Contains_sep_app a b : Contains (a +:+ b) sep = Contains a sep || Contains b sep.
Proof.
  induction a as [|c a IH].
  - by rewrite append_nil_l.
  - rewrite append_cons, !Contains_sep_cons, IH. by rewrite orb_assoc.
Qed.

Lemma splitScan_noSep s cur :
  noSep cur → Forall noSep (splitScan sep 0 cur s).
Proof.
  revert cur. induction s as [|c s IH]; intros cur Hcur; cbn [splitScan].
  - by constructor.
  - rewrite HasPrefix_sep. case_bool_decide as Hc.
    + constructor; [done|]. by apply IH.
    + apply IH. unfold noSep. rewrite Contains_sep_app, Contains_sep_cons, Hcur.
      by rewrite bool_decide_eq_false_2.
Qed.

Lemma Split_noSep p : Forall noSep (GoStrings.Split p sep).
Proof. by apply splitScan_noSep. Qed.

Lemma cleanElems_isElem rooted stack elems :
  Forall isElem stack → Forall noSep elems → Forall isElem (cleanElems rooted stack elems).
Proof.
  intros Hstack Helems. revert stack Hstack.
  induction Helems as [|e elems He _ IH]; intros stack Hstack; cbn [cleanElems]; [done|].
  assert (Hdots : isElem "..") by done.
  destruct (bool_decide_reflect (e = "")) as [->|Hne]; [by apply IH|].
  destruct (bool_decide_reflect (e = ".")) as [->|Hdot]; [by apply IH|].
  cbn [orb].
  assert (Hpush : Forall isElem (stack ++ [e])).
  { apply Forall_app. split; [done|]. by repeat constructor. }
  destruct (bool_decide_reflect (e = "..")) as [->|Hdd]; [|by apply IH].
  destruct (last stack) as [top|] eqn:Htop.
  - case_bool_decide; [by apply IH|]. apply IH.
    apply last_Some in Htop as [l' ->]. rewrite removelast_last.
    by apply Forall_app in Hstack as [? _].
  - destruct rooted; by apply IH.
Qed.

Lemma splitScan_prepend e s cur :
  noSep e → splitScan sep 0 cur (e +:+ s) = splitScan sep 0 (cur +:+ e) s.
Proof.
  revert cur. induction e as [|c e IH]; intros cur.
  - intros _. by rewrite append_nil_l, append_nil_r.
  - unfold noSep. rewrite Contains_sep_cons. intros [Hc He]%orb_false_iff.
    rewrite append_cons. cbn [splitScan]. rewrite HasPrefix_sep, Hc.
    rewrite IH by done. by rewrite append_assoc.
Qed.

Lemma Join_cons_cons e e2 elems s :
  GoStrings.Join (e :: e2 :: elems) s = e +:+ s +:+ GoStrings.Join (e2 :: elems) s.
Proof. reflexivity. Qed.

Lemma splitScan_Join e elems cur :
  Forall noSep (e :: elems) →
  splitScan sep 0 cur (GoStrings.Join (e :: elems) sep) = (cur +:+ e) :: elems.
Proof.
  revert e cur. induction elems as [|e2 elems IH]; intros e cur Hall.
  - apply Forall_cons in Hall as [He _]. cbn [GoStrings.Join]. by apply splitScan_no_sep.
  - apply Forall_cons in Hall as [He Hall]. rewrite Join_cons_cons.
    rewrite splitScan_prepend by done.
    change (sep +:+ GoStrings.Join (e2 :: elems) sep)
      with (String Separator (GoStrings.Join (e2 :: elems) sep)).
    cbn [splitScan]. rewrite HasPrefix_sep, bool_decide_eq_true_2 by done.
    change (String.length sep - 1) with 0. by rewrite IH.
Qed.

Lemma Join_first e elems :
  ∃ rest, GoStrings.Join (e :: elems) sep = e +:+ rest.
Proof.
  destruct elems as [|e2 elems].
  - exists "". by rewrite append_nil_r.
  - rewrite Join_cons_cons. eauto.
Qed.

Lemma Join_isElem_shape elems :
  Forall isElem elems → elems ≠ [] →
  ∃ c s, GoStrings.Join elems sep = String c s ∧ c ≠ Separator.
Proof.
  intros Hall Hne. destruct elems as [|e elems]; [done|].
  apply Forall_cons in Hall as [(He & _ & Hsep) _].
  destruct (Join_first e elems) as [rest ->].
  destruct e as [|c e]; [done|]. exists c, (e +:+ rest). split; [done|].
  unfold noSep in Hsep. rewrite Contains_sep_cons in Hsep.
  apply orb_false_iff in Hsep as [Hc _]. by apply bool_decide_eq_false in Hc.
Qed.

Lemma Clean_canon p :
  ∃ elems, Forall isElem elems ∧ Clean p = canon (isRooted p) elems.
Proof.
  exists (cleanElems (isRooted p) [] (GoStrings.Split p sep)). split; [|done].
  apply cleanElems_isElem; [done|apply Split_noSep].
Qed.

Lemma canon_nonempty rooted elems : canon rooted elems ≠ "".
Proof. unfold canon. destruct rooted; [done|]. by case_bool_decide. Qed.

Lemma Clean_nonempty p : Clean p ≠ "".
Proof. destruct (Clean_canon p) as (elems & _ & ->). apply canon_nonempty. Qed.

Lemma isRooted_canon rooted elems :
  Forall isElem elems → isRooted (canon rooted elems) = rooted.
Proof.
  intros Hall. unfold canon, isRooted. destruct rooted.
  - change (sep +:+ GoStrings.Join elems sep) with (String Separator (GoStrings.Join elems sep)).
    rewrite HasPrefix_sep. by rewrite bool_decide_eq_true_2.
  - destruct elems as [|e elems]; [done|].
    destruct (Join_isElem_shape (e :: elems) Hall) as (c & s & Heq & Hc); [done|].
    rewrite Heq. rewrite bool_decide_eq_false_2 by done.
    rewrite HasPrefix_sep. by rewrite bool_decide_eq_false_2.
Qed.

Lemma filter_isElem elems :
  Forall isElem elems → filter (λ e, e ≠ "") elems = elems.
Proof.
  induction 1 as [|e elems [He _] _ IH]; [done|].
  by rewrite filter_cons, decide_True, IH.
Qed.

Lemma elemsOf_canon rooted elems :
  Forall isElem elems →
  elemsOf (canon rooted elems) =
    if rooted then elems else if bool_decide (elems = []) then ["."] else elems.
Proof.
  intros Hall. unfold elemsOf, canon, GoStrings.Split. cbn [sep].
  fold sep. destruct rooted.
  - change (sep +:+ GoStrings.Join elems sep) with (String Separator (GoStrings.Join elems sep)).
    cbn [splitScan]. rewrite HasPrefix_sep, bool_decide_eq_true_2 by done.
    change (String.length sep - 1) with 0.
    destruct elems as [|e elems]; [done|].
    rewrite splitScan_Join by (eapply Forall_impl; [done|by intros ? (_ & _ & ?)]).
    rewrite append_nil_l, filter_cons, decide_False by (by intros ?).
    by apply filter_isElem.
  - destruct elems as [|e elems]; [done|].
    destruct (Join_isElem_shape (e :: elems) Hall) as (c & s & Heq & Hc); [done|].
    rewrite bool_decide_eq_false_2 by (by rewrite Heq).
    rewrite bool_decide_eq_false_2 by done.
    rewrite splitScan_Join by (eapply Forall_impl; [done|by intros ? (_ & _ & ?)]).
    rewrite append_nil_l. by apply filter_isElem.
Qed.

Lemma dropCommon_nil a b : dropCommon a b = ([], []) → a = b.
Proof.
  revert b. induction a as [|x a IH]; intros [|y b]; cbn [dropCommon]; try done.
  case_bool_decide as Hxy; [|done]. intros ?%IH. congruence.
Qed.

Lemma dropCommon_elem a b bs ts x :
  dropCommon a b = (bs, ts) → x ∈ ts → x ∈ b.
Proof.
  revert b. induction a as [|y a IH]; intros [|z b]; cbn [dropCommon]; try (by intros [= <- <-]).
  case_bool_decide; [|by intros [= <- <-]]. intros Hd Hx. right. by eapply IH.
Qed.

Lemma Join_empty elems :
  GoStrings.Join elems sep = "" → elems = [] ∨ elems = [""].
Proof.
  destruct elems as [|e [|e2 elems]]; cbn [GoStrings.Join]; [by left|intros ->; by right|].
  intros Heq. apply (f_equal String.length) in Heq.
  rewrite !append_length in Heq. simpl in Heq. lia.
Qed.

(** A path that Rel computes is not empty. *)
Lemma Rel_nonempty basepath targpath rel :
  Rel basepath targpath = (rel, None) → rel ≠ "".
Proof.
  unfold Rel.
  destruct (Clean_canon basepath) as (Eb & Hb & ->).
  destruct (Clean_canon targpath) as (Et & Ht & ->).
  set (rb := isRooted basepath). set (rt := isRooted targpath).
  case_bool_decide as Hsame; [by intros [= <-]|].
  rewrite !isRooted_canon by done.
  case_bool_decide as Hrooted; [|done]. cbn [negb].
  assert (Hbase : elemsOf (if bool_decide (canon rb Eb = ".") then "" else canon rb Eb) = Eb).
  { case_bool_decide as Hdot.
    - unfold canon in Hdot. destruct rb; [done|].
      destruct Eb as [|e Eb]; [done|].
      destruct (Join_isElem_shape (e :: Eb) Hb) as (c & s & Heq & Hc); [done|].
      rewrite bool_decide_eq_false_2 in Hdot by (by rewrite Heq).
      apply Forall_cons in Hb as [(He & Hdot' & _) _].
      destruct (Join_first e Eb) as [rest Hrest]. rewrite Hrest in Hdot.
      destruct e as [|c1 [|c2 e]]; [done| |].
      + rewrite append_cons, append_nil_l in Hdot. injection Hdot as -> _. done.
      + by rewrite !append_cons in Hdot.
    - rewrite elemsOf_canon by done. destruct rb; [done|].
      case_bool_decide as Hnil; [|done]. subst Eb. done. }
  rewrite Hbase, elemsOf_canon by done.
  destruct (dropCommon Eb _) as [bs ts] eqn:Hdrop.
  intros Hrel Hempty. destruct (bool_decide (head bs = Some "..")); [done|].
  injection Hrel as Hrel. rewrite Hempty in Hrel.
  apply Join_empty in Hrel as [Hnil|Hone].
  - apply app_eq_nil in Hnil as [Hbs ->]. apply fmap_nil_inv in Hbs as ->.
    apply dropCommon_nil in Hdrop. apply Hsame. clearbody rb rt. subst rt.
    destruct rb.
    + by rewrite Hdrop.
    + case_bool_decide as Hnil.
      * subst Et. subst Eb. by apply Forall_cons in Hb as [(_ & ? & _) _].
      * by rewrite Hdrop.
  - assert (Hin : "" ∈ ((λ _ : string, "..") <$> bs) ++ ts) by (rewrite Hone; set_solver).
    apply elem_of_app in Hin as [Hin|Hin].
    + by apply list_elem_of_fmap in Hin as (? & ? & _).
    + apply (dropCommon_elem _ _ _ _ _ Hdrop) in Hin.
      destruct rt.
      * rewrite Forall_forall in Ht. by apply Ht in Hin as [? _].
      * case_bool_decide; [set_solver|].
        rewrite Forall_forall in Ht. by apply Ht in Hin as [? _].
Qed.

End CleanPaths.

(** ** The pattern matcher *)

Section Merge.
Import GoStrings Filepath FilepathFS Files.

Lemma firstOccurrences_snoc earlier l x :
  firstOccurrences earlier (l ++ [x]) =
    firstOccurrences earlier l ++ (if bool_decide (x ∈ earlier ++ l) then [] else [x]).
Proof.
  revert earlier. induction l as [|y l IH]; intros earlier; simpl.
  - rewrite app_nil_r. by case_bool_decide.
  - case_bool_decide as Hy.
    + rewrite IH.
      by replace (bool_decide (x ∈ earlier ++ l)) with (bool_decide (x ∈ earlier ++ y :: l))
        by (apply bool_decide_ext; set_solver).
    + rewrite IH. simpl.
      by replace (bool_decide (x ∈ (y :: earlier) ++ l))
        with (bool_decide (x ∈ earlier ++ y :: l))
        by (apply bool_decide_ext; set_solver).
Qed.

Lemma firstOccurrences_elem earlier l x :
  x ∈ firstOccurrences earlier l ↔ x ∈ l ∧ x ∉ earlier.
Proof.
  revert earlier. induction l as [|y l IH]; intros earlier; simpl.
  - set_solver.
  - case_bool_decide as Hy.
    + rewrite IH. set_solver.
    + rewrite elem_of_cons, IH. destruct (decide (x = y)); set_solver.
Qed.

Lemma firstOccurrences_NoDup earlier l : NoDup (firstOccurrences earlier l).
Proof.
  revert earlier. induction l as [|y l IH]; intros earlier; simpl.
  - constructor.
  - case_bool_decide; [done|]. constructor; [|done].
    rewrite firstOccurrences_elem. set_solver.
Qed.

Lemma seenAt_insert seen m p :
  seenAt (<[m := true]> seen) p = true ↔ p = m ∨ seenAt seen p = true.
Proof.
  unfold seenAt. destruct (decide (m = p)) as [->|Hne].
  - rewrite lookup_insert_eq. simpl. naive_solver.
  - rewrite lookup_insert_ne by done. naive_solver.
Qed.

Lemma stateAfter_skip workDir excludes L st x :
  stateAfter workDir excludes L st →
  x ∈ st.1 ∨ ¬ kept workDir excludes x →
  stateAfter workDir excludes (L ++ [x]) st.
Proof.
  intros [Hfiles Hseen] Hx. split; [|done].
  rewrite firstOccurrences_snoc, filter_app. simpl.
  case_bool_decide as HL; simpl; [by rewrite app_nil_r|].
  rewrite filter_cons. destruct (decide (kept workDir excludes x)) as [Hk|Hk].
  - destruct Hx as [Hx|Hx]; [|done]. exfalso. apply HL.
    rewrite Hfiles in Hx. apply list_elem_of_filter in Hx as [_ Hx].
    apply firstOccurrences_elem in Hx. set_solver.
  - by rewrite filter_nil, app_nil_r.
Qed.

Lemma stateAfter_add workDir excludes L st x :
  stateAfter workDir excludes L st →
  seenAt st.2 x = false → kept workDir excludes x →
  stateAfter workDir excludes (L ++ [x]) (st.1 ++ [x], <[x := true]> st.2).
Proof.
  intros [Hfiles Hseen] Hx Hk. split; simpl.
  - rewrite firstOccurrences_snoc, filter_app. simpl.
    rewrite bool_decide_eq_false_2.
    + rewrite filter_cons, decide_True by done. by rewrite filter_nil, Hfiles.
    + intros HL. assert (x ∈ st.1) as Hin.
      { rewrite Hfiles. apply list_elem_of_filter. split; [done|].
        apply firstOccurrences_elem. set_solver. }
      apply Hseen in Hin. congruence.
  - intros p. rewrite seenAt_insert, elem_of_app, list_elem_of_singleton, Hseen. naive_solver.
Qed.

Lemma addWalked_stateAfter workDir excludes files L st :
  stateAfter workDir excludes L st →
  stateAfter workDir excludes (L ++ files) (addWalked workDir excludes files st).
Proof.
  revert L st. induction files as [|m rest IH]; intros L st Hst; simpl.
  - by rewrite app_nil_r.
  - replace (L ++ m :: rest) with ((L ++ [m]) ++ rest) by by rewrite <- app_assoc.
    destruct st as [matchedFiles seen].
    destruct (seenAt seen m) eqn:Hseen; simpl.
    { apply IH, stateAfter_skip; [done|]. left. by apply Hst. }
    destruct (shouldExclude m workDir excludes) eqn:Hex; simpl.
    { apply IH, stateAfter_skip; [done|]. right. unfold kept. congruence. }
    apply IH. by apply (stateAfter_add _ _ _ (matchedFiles, seen)).
Qed.

Lemma addGlobbed_stateAfter w workDir excludes globbed L st :
  stateAfter workDir excludes L st →
  stateAfter workDir excludes (L ++ filter (λ m, isRegular w m = true) globbed)
    (addGlobbed w workDir excludes globbed st).
Proof.
  revert L st. induction globbed as [|m rest IH]; intros L st Hst; simpl.
  - by rewrite app_nil_r.
  - destruct st as [matchedFiles seen]. rewrite filter_cons.
    assert (Hmore : ∀ st', stateAfter workDir excludes (L ++ [m]) st' →
      stateAfter workDir excludes (L ++ m :: filter (λ m, isRegular w m = true) rest)
        (addGlobbed w workDir excludes rest st')).
    { intros st' Hst'.
      replace (L ++ m :: filter (λ m, isRegular w m = true) rest)
        with ((L ++ [m]) ++ filter (λ m, isRegular w m = true) rest)
        by (by rewrite <- app_assoc).
      by apply IH. }
    destruct (seenAt seen m) eqn:Hseen.
    { destruct (decide _); [|by apply IH].
      apply Hmore, stateAfter_skip; [done|]. left. by apply Hst. }
    pose proof (eq_refl : isRegular w m = isRegular w m) as Hreg.
    unfold isRegular at 2 in Hreg.
    destruct (Os.Stat w m) as [[info|] [e|]];
      try (rewrite decide_False by (rewrite Hreg; done); by apply IH).
    destruct (IsDir info); simpl in Hreg.
    { rewrite decide_False by (rewrite Hreg; done). by apply IH. }
    rewrite decide_True by done.
    destruct (shouldExclude m workDir excludes) eqn:Hex.
    { apply Hmore, stateAfter_skip; [done|]. right. unfold kept. congruence. }
    apply Hmore. by apply (stateAfter_add _ _ _ (matchedFiles, seen)).
Qed.

(** What the loop of FindFiles returns: an error and no list, or the kept
    first occurrences of the merge. *)
Lemma findLoop_merge w workDir excludes patterns L st :
  stateAfter workDir excludes L st →
  let r := findLoop w workDir excludes patterns st in
  (is_Some r.2 ∧ r.1 = []) ∨
  (r.2 = None ∧
   r.1 = filter (kept workDir excludes)
           (firstOccurrences [] (L ++ merged w workDir patterns))).
Proof.
  revert L st. induction patterns as [|pattern rest IH]; intros L st Hst; cbn [findLoop].
  - right. split; [done|]. unfold merged. simpl. rewrite app_nil_r. apply Hst.
  - unfold merged, includePatterns. rewrite fmap_cons, filter_cons.
    case_bool_decide as Hempty.
    { rewrite decide_False by (by intros ?). by apply IH. }
    rewrite decide_True by done. rewrite fmap_cons. cbn [concat]. rewrite app_assoc.
    unfold resolvedBy at 1.
    destruct (Contains (TrimSpace pattern) "**").
    + destruct (findWithGlobstar w workDir (TrimSpace pattern)) as [files [e|]]; cbn [fst snd].
      { left. eauto. }
      by apply IH, addWalked_stateAfter.
    + destruct (Glob w _) as [globbed [e|]]; cbn [fst snd].
      { left. eauto. }
      by apply IH, addGlobbed_stateAfter.
Qed.

Lemma stateAfter_init workDir excludes : stateAfter workDir excludes [] ([], ∅).
Proof.
  split; [done|]. intros p. unfold seenAt. cbn [fst snd]. rewrite lookup_empty. simpl. set_solver.
Qed.

End Merge.

Section Walking.
Import GoStrings Filepath FilepathFS Files.

Lemma node_ind' (P : node → Prop) :
  (∀ data, P (File data)) →
  (∀ entries, Forall (λ e, P e.2) entries → P (Dir entries)) →
  ∀ n, P n.
Proof.
  intros Hfile Hdir. fix IH 1. intros [data|entries]; [apply Hfile|].
  apply Hdir. induction entries as [|e entries IHentries].
  - constructor.
  - constructor.
    + apply IH.
    + apply IHentries.
Qed.

(** Match never reports a match together with an error. *)
Lemma checkRest_false fuel pattern : (checkRest fuel pattern).1 = false.
Proof.
  revert pattern. induction fuel as [|fuel IH]; intros pattern; simpl; [done|].
  repeat case_match; simpl; try done; try apply IH.
Qed.

Lemma matchLoop_true fuel pattern name err :
  matchLoop fuel pattern name = (true, err) → err = None.
Proof.
  revert pattern name. induction fuel as [|fuel IH]; intros pattern name; simpl; [done|].
  repeat case_match;
    lazymatch goal with
    | |- matchLoop _ _ _ = _ → _ => apply IH
    | |- checkRest ?f ?p = _ → _ =>
        intros Heq; pose proof (checkRest_false f p) as Hc; by rewrite Heq in Hc
    | |- _ => first [by intros [=]|by intros [= _ <-]]
    end.
Qed.

Lemma Match_true pattern name err : Match pattern name = (true, err) → err = None.
Proof. apply matchLoop_true. Qed.

Lemma globstarVisit_file searchDir suffix path data found :
  globstarVisit searchDir suffix path (Some (infoOf (File data))) None found =
    (found ++ filter (λ file, qualifies suffix searchDir file = true) [path], None).
Proof.
  assert (filter (λ file, qualifies suffix searchDir file = true) [path] =
          if qualifies suffix searchDir path then [path] else []) as ->.
  { rewrite filter_cons, filter_nil.
    destruct (qualifies suffix searchDir path); [by rewrite decide_True|by rewrite decide_False]. }
  unfold globstarVisit, qualifies. cbn [infoOf IsDir].
  case_bool_decide as Hs; [done|]. cbn [negb orb].
  unfold matches.
  destruct (Match suffix (Base path)) as [[] [e|]] eqn:Hm; cbn [fst orb].
  - by apply Match_true in Hm.
  - done.
  - destruct (Match suffix (Rel searchDir path).1).1; [done|by rewrite app_nil_r].
  - destruct (Match suffix (Rel searchDir path).1).1; [done|by rewrite app_nil_r].
Qed.

Lemma walk_globstarVisit searchDir suffix n path found :
  walk path n (globstarVisit searchDir suffix) found =
    (found ++ filter (λ file, qualifies suffix searchDir file = true) (filesUnder path n), None).
Proof.
  revert path found. induction n as [data|entries IH] using node_ind'; intros path found.
  - apply globstarVisit_file.
  - cbn [walk filesUnder]. unfold globstarVisit at 1. cbn [infoOf IsDir].
    revert found. induction IH as [|[name child] entries Hchild _ IHentries]; intros found.
    + simpl. by rewrite app_nil_r.
    + cbn [flat_map fst snd] in *. rewrite Hchild. rewrite IHentries.
      by rewrite filter_app, app_assoc.
Qed.

End Walking.

Section Exclusion.
Import GoStrings Filepath FilepathFS Files.

Lemma excludeLoop_kept file workDir excludes exclude :
  excludeLoop file workDir (relativeTo workDir file) excludes = false →
  exclude ∈ excludes → TrimSpace exclude ≠ "" →
  matches (TrimSpace exclude) (relativeTo workDir file) = false ∧
  matches (TrimSpace exclude) (Base file) = false ∧
  (Contains (TrimSpace exclude) "**" = true → stripped (TrimSpace exclude) ≠ "" →
   matches (stripped (TrimSpace exclude)) (Base file) = false ∧
   matches (stripped (TrimSpace exclude)) (relativeTo workDir file) = false) ∧
  matches (Filepath.Join [workDir; TrimSpace exclude]) file = false.
Proof.
  induction excludes as [|e rest IH]; cbn [excludeLoop]; [by intros _ ?%elem_of_nil|].
  intros Hloop Hin Hne. apply elem_of_cons in Hin as [->|Hin].
  - rewrite bool_decide_eq_false_2 in Hloop by done.
    destruct (matches (TrimSpace e) (relativeTo workDir file)); [done|].
    destruct (matches (TrimSpace e) (Base file)); [done|].
    fold (stripped (TrimSpace e)) in Hloop.
    destruct (Contains (TrimSpace e) "**" && _) eqn:Hc; [done|].
    destruct (matches (Filepath.Join [workDir; TrimSpace e]) file); [done|].
    split_and!; try done. intros Hstar Hs. rewrite Hstar in Hc. cbn [andb] in Hc.
    rewrite bool_decide_eq_false_2 in Hc by done. cbn [negb andb] in Hc.
    by apply orb_false_iff in Hc.
  - apply IH; [|done..]. by repeat case_match.
Qed.

End Exclusion.

Section NonEmpty.
Import GoStrings Filepath FilepathFS Files.

Lemma Forall_filter_keep {A} (P Q : A → Prop) `{∀ x, Decision (Q x)} (l : list A) :
  Forall P l → Forall P (filter Q l).
Proof.
  rewrite !Forall_forall. intros Hall x [_ Hx]%list_elem_of_filter. by apply Hall.
Qed.

Lemma Forall_concat_all {A} (P : A → Prop) (ls : list (list A)) :
  Forall (Forall P) ls → Forall P (concat ls).
Proof. induction 1; cbn [concat]; [done|]. by apply Forall_app. Qed.

Lemma Join2_nonempty a b : a ≠ "" → Filepath.Join [a; b] ≠ "".
Proof.
  intros Ha. cbn [Filepath.Join]. rewrite bool_decide_eq_false_2 by done. apply Clean_nonempty.
Qed.

Lemma filesUnder_nonempty path n :
  path ≠ "" → Forall (λ f, f ≠ "") (filesUnder path n).
Proof.
  revert path. induction n as [data|entries IH] using node_ind'; intros path Hpath.
  - by repeat constructor.
  - cbn [filesUnder]. induction IH as [|e entries He _ IHentries]; cbn [flat_map]; [done|].
    apply Forall_app. split; [|done]. by apply He, Join2_nonempty.
Qed.

Lemma take_app_length d f : take (String.length d) (d +:+ f) = d.
Proof.
  induction d as [|c d IH]; [by destruct f|].
  rewrite append_cons. cbn [String.length take]. by rewrite IH.
Qed.

(** The text before the base name is empty or ends with a separator. *)
Lemma afterLastSep_spec p :
  ∃ d, p = d +:+ afterLastSep p ∧ (d = "" ∨ ∃ d', d = d' +:+ sep) ∧ noSep (afterLastSep p).
Proof.
  induction p as [|c p (d & Hp & Hd & Hfile)].
  { exists "". split_and!; [done|by left|done]. }
  cbn [afterLastSep]. destruct (Contains p sep) eqn:Hsep.
  - exists (String c d). split; [by rewrite append_cons, <- Hp|]. split; [|done].
    right. destruct Hd as [->|[d' ->]].
    + rewrite append_nil_l in Hp. unfold noSep in Hfile. congruence.
    + by exists (String c d').
  - case_bool_decide as Hc.
    + subst c. exists sep. split; [done|]. split; [|done]. right. by exists "".
    + exists "". split; [done|]. split; [by left|].
      unfold noSep. rewrite Contains_sep_cons, Hsep. by rewrite bool_decide_eq_false_2.
Qed.

Lemma cleanGlobPath_Split_nonempty pattern : cleanGlobPath (Filepath.Split pattern).1 ≠ "".
Proof.
  unfold Filepath.Split. cbn [fst].
  destruct (afterLastSep_spec pattern) as (d & Hp & Hd & _).
  remember (afterLastSep pattern) as file eqn:Hfile. clear Hfile. subst pattern.
  rewrite append_length.
  replace (String.length d + String.length file - String.length file)
    with (String.length d) by lia.
  rewrite take_app_length.
  unfold cleanGlobPath. case_bool_decide; [done|]. case_bool_decide as Hsep; [by rewrite Hsep|].
  destruct Hd as [->|[d' ->]]; [done|].
  rewrite append_length. cbn [String.length sep].
  replace (String.length d' + 1 - 1) with (String.length d') by lia.
  rewrite take_app_length.
  intros ->. by rewrite append_nil_l in Hsep.
Qed.

Lemma globNames_nonempty dir pattern names m :
  dir ≠ "" → Forall (λ f, f ≠ "") m →
  Forall (λ f, f ≠ "") (globNames dir pattern names m).1.
Proof.
  intros Hdir. revert m. induction names as [|n names IH]; intros m Hm; cbn [globNames]; [done|].
  destruct (Match pattern n) as [matched [e|]]; [done|]. apply IH.
  destruct matched; [|done]. apply Forall_app. split; [done|].
  repeat constructor. by apply Join2_nonempty.
Qed.

Lemma glob_nonempty w dir pattern m :
  dir ≠ "" → Forall (λ f, f ≠ "") m → Forall (λ f, f ≠ "") (glob w dir pattern m).1.
Proof.
  intros Hdir Hm. unfold glob. destruct (Os.nodeAt w dir) as [[]|]; try done.
  by apply globNames_nonempty.
Qed.

Lemma globDirs_nonempty w file dirs m :
  Forall (λ f, f ≠ "") dirs → Forall (λ f, f ≠ "") m →
  Forall (λ f, f ≠ "") (globDirs w file dirs m).1.
Proof.
  intros Hdirs. revert m. induction Hdirs as [|d dirs Hd _ IH]; intros m Hm; cbn [globDirs]; [done|].
  pose proof (glob_nonempty w d file m Hd Hm) as Hglob.
  destruct (glob w d file m) as [m' [e|]]; [done|]. by apply IH.
Qed.

Lemma globWithLimit_nonempty fuel w pattern depth :
  pattern ≠ "" → Forall (λ f, f ≠ "") (globWithLimit fuel w pattern depth).1.
Proof.
  revert pattern depth.
  induction fuel as [|fuel IH]; intros pattern depth Hpattern; cbn [globWithLimit]; [done|].
  case_bool_decide; [done|].
  destruct (Match pattern "") as [? [e|]]; [done|].
  destruct (hasMeta pattern); cbn [negb].
  2:{ destruct (Os.Lstat w pattern) as [? [?|]]; [done|]. by repeat constructor. }
  pose proof (cleanGlobPath_Split_nonempty pattern) as Hdir.
  destruct (Filepath.Split pattern) as [dir file]. cbn [fst] in Hdir.
  destruct (hasMeta (cleanGlobPath dir)); cbn [negb].
  2:{ by apply glob_nonempty. }
  case_bool_decide; [done|].
  specialize (IH (cleanGlobPath dir) (depth + 1)%N Hdir).
  destruct (globWithLimit fuel w (cleanGlobPath dir) (depth + 1)) as [m [e|]]; [done|].
  by apply globDirs_nonempty.
Qed.

Lemma Glob_nonempty w pattern :
  pattern ≠ "" → Forall (λ f, f ≠ "") (Glob w pattern).1.
Proof. apply globWithLimit_nonempty. Qed.

Lemma nodeAt_nonempty w path n : Os.nodeAt w path = inl n → path ≠ "".
Proof. intros Hn ->. by unfold Os.nodeAt, Os.resolve in Hn. Qed.

Lemma findWithGlobstar_nonempty w workDir pattern :
  workDir ≠ "" → Forall (λ f, f ≠ "") (findWithGlobstar w workDir pattern).1.
Proof.
  intros Hwd. unfold findWithGlobstar.
  destruct (GoStrings.Split pattern "**") as [|part0 [|part1 [|]]];
    try by apply Glob_nonempty, Join2_nonempty.
  unfold Walk. destruct (Os.nodeAt w _) as [n|e] eqn:Hn.
  - rewrite walk_globstarVisit. cbn [fst app]. apply Forall_filter_keep.
    eapply filesUnder_nonempty, nodeAt_nonempty, Hn.
  - done.
Qed.

Lemma resolvedBy_nonempty w workDir pattern :
  workDir ≠ "" → Forall (λ f, f ≠ "") (resolvedBy w workDir pattern).
Proof.
  intros Hwd. unfold resolvedBy. destruct (Contains pattern "**").
  - by apply findWithGlobstar_nonempty.
  - by apply Forall_filter_keep, Glob_nonempty, Join2_nonempty.
Qed.

Lemma merged_nonempty w workDir patterns :
  workDir ≠ "" → Forall (λ f, f ≠ "") (merged w workDir patterns).
Proof.
  intros Hwd. unfold merged. apply Forall_concat_all, Forall_fmap, Forall_true.
  intros pattern. by apply resolvedBy_nonempty.
Qed.

Lemma effectiveWorkDir_nonempty workDir : effectiveWorkDir workDir ≠ "".
Proof. unfold effectiveWorkDir. by case_bool_decide. Qed.

Lemma Base_nonempty path : Base path ≠ "".
Proof. unfold Base. repeat case_bool_decide; done. Qed.

Lemma relativeTo_nonempty workDir file : file ≠ "" → relativeTo workDir file ≠ "".
Proof.
  intros Hfile. unfold relativeTo. destruct (Rel workDir file) as [rel [e|]] eqn:Hrel; [done|].
  by eapply Rel_nonempty.
Qed.

Lemma matches_empty name : matches "" name = true → name = "".
Proof. unfold matches, Match. cbn. by intros ?%bool_decide_eq_true. Qed.

End NonEmpty.

Section Globstar.
Import GoStrings Filepath FilepathFS Files.

(** C7, as amended.  For a pattern with exactly one [**], which Split
    cuts in two parts, findWithGlobstar returns without error the files
    the specification describes: the pattern is split into prefix and
    suffix, the tree below workDir/prefix is walked, and a file that is not
    a directory is taken when the suffix is empty or matches its base name
    or its path relative to the walked root. *)
Theorem findWithGlobstar_one_wildcard (w : World) (workDir pattern before after : string) :
  GoStrings.Split pattern "**" = [before; after] →
  findWithGlobstar w workDir pattern = (globstarSpec w workDir pattern, None).
Proof.
  intros Hsplit. unfold findWithGlobstar, globstarSpec, splitGlobstar. rewrite Hsplit.
  cbn [hd tail GoStrings.Join].
  set (walked := if bool_decide (TrimSuffix before sep = "") then workDir
                 else Filepath.Join [workDir; TrimSuffix before sep]).
  unfold Walk. destruct (Os.nodeAt w walked) as [n|e].
  - by rewrite walk_globstarVisit.
  - done.
Qed.

Lemma findWithGlobstar_one_wildcard_witness :
  findWithGlobstar deepTree "/w" "**/*.txt" = (["/w/d/sub/deep.txt"; "/w/top.txt"], None).
Proof.
  exact (findWithGlobstar_one_wildcard deepTree "/w" "**/*.txt" "" "/*.txt" eq_refl).
Defined.

(** C7 fails for a pattern with two wildcards: the tree is not walked.
    The result leaves out the file /w/top.txt, whose base name the suffix
    matches, and holds the directory /w/d/sub. *)
Lemma findWithGlobstar_two_wildcards :
  findWithGlobstar deepTree "/w" "**/**" = (["/w/d/sub"], None) ∧
  globstarSpec deepTree "/w" "**/**" = ["/w/a"; "/w/d/sub/deep.txt"; "/w/top.txt"] ∧
  entryAt deepTree "/w/d/sub" = Some IsDirectory ∧
  entryAt deepTree "/w/top.txt" = Some (IsFile "top") ∧
  qualifies (splitGlobstar "**/**").2 "/w" "/w/top.txt" = true.
Proof. vm_compute. done. Qed.

End Globstar.

(** ** Malformed include patterns *)

Section Malformed.
Import GoStrings Filepath FilepathFS Files.

Lemma findLoop_error_nil w workDir excludes patterns st files e :
  findLoop w workDir excludes patterns st = (files, Some e) → files = [].
Proof.
  revert st. induction patterns as [|pattern rest IH]; intros st; cbn [findLoop]; [done|].
  repeat case_match; try (by intros [= <- _]); apply IH.
Qed.

Lemma findLoop_app_error w workDir excludes before after st files e :
  findLoop w workDir excludes before st = (files, Some e) →
  findLoop w workDir excludes (before ++ after) st = ([], Some e).
Proof.
  revert st. induction before as [|pattern rest IH]; intros st; cbn [findLoop app]; [done|].
  repeat case_match; try (by intros [= _ <-]); apply IH.
Qed.

Lemma findLoop_app_ok w workDir excludes before after st :
  (findLoop w workDir excludes before st).2 = None →
  ∃ st', findLoop w workDir excludes (before ++ after) st = findLoop w workDir excludes after st'.
Proof.
  revert st. induction before as [|pattern rest IH]; intros st; cbn [findLoop app]; [eauto|].
  repeat case_match; try done; apply IH.
Qed.

Lemma Glob_malformed w pattern cause :
  (Match pattern "").2 = Some cause → Glob w pattern = ([], Some cause).
Proof.
  unfold Glob. cbn [globWithLimit]. destruct (Match pattern "") as [m [e|]]; [|done].
  by intros [= ->].
Qed.

Lemma findLoop_error w workDir excludes patterns st :
  (findLoop w workDir excludes patterns st).2 =
    head (omap (patternError w workDir) (includePatterns patterns)).
Proof.
  revert st. induction patterns as [|pattern rest IH]; intros st; cbn [findLoop]; [done|].
  unfold includePatterns. rewrite fmap_cons, filter_cons.
  case_bool_decide as Hempty.
  { rewrite decide_False by (by intros ?). apply IH. }
  rewrite decide_True by done. cbn [omap list_omap]. unfold patternError at 1.
  destruct (Contains (TrimSpace pattern) "**").
  - destruct (findWithGlobstar w workDir (TrimSpace pattern)) as [files [e|]]; cbn [fst snd];
      [done|]. apply IH.
  - destruct (Glob w _) as [globbed [e|]]; cbn [fst snd fmap option_fmap option_map]; [done|].
    apply IH.
Qed.

Lemma FindFiles_error_head w workDir patterns excludes :
  (FindFiles w workDir patterns excludes).2 =
    head (omap (patternError w (effectiveWorkDir workDir)) (includePatterns patterns)).
Proof. apply findLoop_error. Qed.

Lemma includePatterns_app before after :
  includePatterns (before ++ after) = includePatterns before ++ includePatterns after.
Proof. unfold includePatterns. by rewrite fmap_app, filter_app. Qed.

Lemma includePatterns_cons pattern rest :
  TrimSpace pattern ≠ "" →
  includePatterns (pattern :: rest) = TrimSpace pattern :: includePatterns rest.
Proof. intros Hne. unfold includePatterns. by rewrite fmap_cons, filter_cons_True. Qed.

Lemma findWithGlobstar_walk_error w workDir pattern before after :
  GoStrings.Split pattern "**" = [before; after] →
  (findWithGlobstar w workDir pattern).2 = None.
Proof.
  intros Hsplit. unfold findWithGlobstar. rewrite Hsplit.
  set (walked := if bool_decide (TrimSuffix before sep = "") then workDir
                 else Filepath.Join [workDir; TrimSuffix before sep]).
  unfold Walk. destruct (Os.nodeAt w walked) as [n|e].
  - by rewrite walk_globstarVisit.
  - done.
Qed.

Lemma patternError_malformed w workDir pattern full cause :
  globbedPattern workDir pattern = Some full →
  (Match full "").2 = Some cause →
  patternError w workDir pattern = Some (globError pattern cause).
Proof.
  unfold globbedPattern, patternError, globError, findWithGlobstar.
  destruct (Contains pattern "**").
  - destruct (GoStrings.Split pattern "**") as [|part0 [|part1 [|part2 parts]]];
      intros [= <-] Hbad; try done; by rewrite (Glob_malformed _ _ _ Hbad).
  - intros [= <-] Hbad. by rewrite (Glob_malformed _ _ _ Hbad).
Qed.

Lemma patternError_walked w workDir pattern :
  globbedPattern workDir pattern = None → patternError w workDir pattern = None.
Proof.
  unfold globbedPattern, patternError. destruct (Contains pattern "**"); [|done].
  destruct (GoStrings.Split pattern "**") as [|part0 [|part1 [|part2 parts]]] eqn:Hsplit;
    try done.
  intros _. by eapply findWithGlobstar_walk_error.
Qed.

(** C6, as amended.  Take an include pattern that, trimmed, is not empty,
    wherever it stands among the patterns.  If it is a pattern that
    FindFiles has filepath.Glob resolve (it has no [**], or [**] cuts it
    into more than two parts) and the glob syntax rejects what is resolved
    (the pattern joined with the working directory, every [**] replaced by
    [*]), then FindFiles fails and returns no file; when no pattern before
    it fails, the error is that of the glob syntax, wrapped with the
    quoted pattern if the pattern has no [**], and as it is, without the
    pattern, if it has.  If it is a pattern that [**] cuts into two parts,
    its resolution does not fail, whatever the parts are, and the error of
    FindFiles is that of the other patterns. *)
Theorem FindFiles_invalid_pattern (w : World) (workDir : string)
    (before : list string) (pattern : string) (after excludes : list string) :
  let trimmed := TrimSpace pattern in
  let r := FindFiles w workDir (before ++ pattern :: after) excludes in
  trimmed ≠ "" →
  (∀ full cause,
     globbedPattern (effectiveWorkDir workDir) trimmed = Some full →
     (Match full "").2 = Some cause →
     is_Some r.2 ∧ r.1 = [] ∧
     ((FindFiles w workDir before excludes).2 = None →
      r = ([], Some (globError trimmed cause))) ∧
     Error (globError trimmed cause) =
       (if Contains trimmed "**" then ""
        else "invalid glob pattern " +:+ Quote trimmed +:+ ": ") +:+ Error cause) ∧
  (globbedPattern (effectiveWorkDir workDir) trimmed = None →
   (findWithGlobstar w (effectiveWorkDir workDir) trimmed).2 = None ∧
   r.2 = (FindFiles w workDir (before ++ after) excludes).2).
Proof.
  intros trimmed r Hne. subst r.
  assert (Hnil : ∀ patterns,
    (FindFiles w workDir patterns excludes).2 ≠ None →
    (FindFiles w workDir patterns excludes).1 = []).
  { intros patterns. unfold FindFiles.
    destruct (findLoop _ _ _ _ _) as [files [e|]] eqn:Hloop; [|done].
    intros _. by apply findLoop_error_nil in Hloop. }
  pose proof (FindFiles_error_head w workDir (before ++ pattern :: after) excludes) as Hr.
  rewrite includePatterns_app, includePatterns_cons, omap_app in Hr by done.
  cbn [omap list_omap] in Hr. fold trimmed in Hr.
  split.
  - intros full cause Hfull Hbad.
    rewrite (patternError_malformed _ _ _ _ _ Hfull Hbad) in Hr.
    assert (Hsome : is_Some (FindFiles w workDir (before ++ pattern :: after) excludes).2).
    { rewrite Hr. destruct (omap _ (includePatterns before)); cbn; eauto. }
    assert (Hfiles : (FindFiles w workDir (before ++ pattern :: after) excludes).1 = []).
    { apply Hnil. by intros Hnone; rewrite Hnone in Hsome; destruct Hsome. }
    split_and!; [done..| |].
    + rewrite FindFiles_error_head. intros Hb.
      destruct (omap _ (includePatterns before)) as [|e0 rest] eqn:Hom; [|done].
      cbn in Hr. destruct (FindFiles w workDir (before ++ pattern :: after) excludes)
        as [files err].
      cbn [fst snd] in *. by subst.
    + unfold globError. destruct (Contains trimmed "**"); cbn [Error].
      * by rewrite append_nil_l.
      * done.
  - intros Hwalk. pose proof (patternError_walked w _ _ Hwalk) as Hpe.
    split.
    + unfold patternError in Hpe. unfold globbedPattern in Hwalk.
      by destruct (Contains trimmed "**").
    + rewrite Hr, Hpe, FindFiles_error_head, includePatterns_app, omap_app. done.
Qed.

(** An unclosed character class after a pattern that resolves; the same
    class after two recursive wildcards, where the error does not name the
    pattern; and after one recursive wildcard, where the pattern after it
    is the one that fails. *)
Lemma FindFiles_invalid_pattern_witness :
  FindFiles threeFiles "/w" ["*.txt"; " [a "; "*.asc"] [] =
    ([], Some (Wrap ("invalid glob pattern " +:+ Quote "[a" +:+ ": ") ErrBadPattern)) ∧
  FindFiles threeFiles "/w" ["*.txt"; "**/**/[a"] [] = ([], Some ErrBadPattern) ∧
  (FindFiles threeFiles "/w" ["*.txt"; "**/[a"; "[b"] []).2 =
    (FindFiles threeFiles "/w" ["*.txt"; "[b"] []).2.
Proof.
  split_and!.
  - apply (FindFiles_invalid_pattern threeFiles "/w" ["*.txt"] " [a " ["*.asc"] []
      ltac:(by vm_compute)) with (full := "/w/[a"); by vm_compute.
  - apply (FindFiles_invalid_pattern threeFiles "/w" ["*.txt"] "**/**/[a" [] []
      ltac:(by vm_compute)) with (full := "/w/*/*/[a"); by vm_compute.
  - apply (FindFiles_invalid_pattern threeFiles "/w" ["*.txt"] "**/[a" ["[b"] []
      ltac:(by vm_compute)). by vm_compute.
Defined.

(** C6 fails for a pattern with a recursive wildcard: the glob syntax
    rejects the pattern (its character class is not closed), and FindFiles
    returns an empty list and no error. *)
Lemma FindFiles_globstar_malformed :
  Match "**/[a" "" = (false, Some ErrBadPattern) ∧
  Match "[a" "a.txt" = (false, Some ErrBadPattern) ∧
  FindFiles threeFiles "/w" ["**/[a"] [] = ([], None).
Proof. vm_compute. done. Qed.

End Malformed.

(** ** Deduplication and exclusion *)

Section Selection.
Import GoStrings Filepath FilepathFS Files.

Lemma FindFiles_merge w workDir patterns excludes :
  let r := FindFiles w workDir patterns excludes in
  (is_Some r.2 ∧ r.1 = []) ∨
  (r.2 = None ∧
   r.1 = filter (kept (effectiveWorkDir workDir) excludes)
           (firstOccurrences [] (merged w (effectiveWorkDir workDir) patterns))).
Proof.
  apply (findLoop_merge w (effectiveWorkDir workDir) excludes patterns [] ([], ∅)).
  apply stateAfter_init.
Qed.

(** C5.  The list FindFiles returns has no path twice; when no pattern
    fails it is the merge of the include patterns, in their order, reduced
    to the first occurrence of every path, without the excluded paths. *)
Theorem FindFiles_deduplicates (w : World) (workDir : string) (patterns excludes : list string) :
  let workDir' := effectiveWorkDir workDir in
  let r := FindFiles w workDir patterns excludes in
  NoDup r.1 ∧
  (r.2 = None →
   r.1 = filter (kept workDir' excludes) (firstOccurrences [] (merged w workDir' patterns))).
Proof.
  intros workDir' r. subst workDir' r.
  pose proof (FindFiles_merge w workDir patterns excludes) as Hm. cbv zeta in Hm.
  destruct Hm as [[[e He] Hnil]|[Hok Heq]].
  - rewrite Hnil. split; [constructor|]. by rewrite He.
  - split; [|done]. rewrite Heq. apply NoDup_filter, firstOccurrences_NoDup.
Qed.

(** The patterns of the test TestFindFiles_NoDuplicates, on three files. *)
Lemma FindFiles_deduplicates_witness :
  NoDup (FindFiles threeFiles "/w" ["b.*"; "*.txt"; "a.txt"] []).1 ∧
  (FindFiles threeFiles "/w" ["b.*"; "*.txt"; "a.txt"] []).1 =
    ["/w/b.txt"; "/w/a.txt"; "/w/c.txt"] ∧
  merged threeFiles "/w" ["b.*"; "*.txt"; "a.txt"] =
    ["/w/b.txt"; "/w/a.txt"; "/w/b.txt"; "/w/c.txt"; "/w/a.txt"].
Proof.
  destruct (FindFiles_deduplicates threeFiles "/w" ["b.*"; "*.txt"; "a.txt"] []) as [Hnd H].
  split; [exact Hnd|]. split; [exact (H eq_refl)|reflexivity].
Defined.

(** C4.  No path in the list FindFiles returns is excluded by an
    exclusion pattern (trimmed, not empty) under any of the four rules:
    match of the pattern against the path relative to the working
    directory, against the base name, of the pattern stripped of its
    recursive wildcards against the base name or the relative path, and
    of the pattern joined with the working directory against the whole
    path.  The working directory is the one FindFiles works with, [.]
    for the empty one.  This holds for every list of include patterns. *)
Theorem FindFiles_exclusion_closed (w : World) (workDir : string)
    (patterns excludes : list string) :
  let workDir' := effectiveWorkDir workDir in
  Forall (λ file,
    Forall (λ exclude,
      TrimSpace exclude ≠ "" → ¬ excludedBy workDir' file (TrimSpace exclude)) excludes)
    (FindFiles w workDir patterns excludes).1.
Proof.
  intros workDir'.
  pose proof (FindFiles_merge w workDir patterns excludes) as Hm. cbv zeta in Hm.
  destruct Hm as [[_ Hlist]|[_ Hlist]]; rewrite Hlist; [constructor|].
  apply Forall_forall. intros file [Hkept Hin]%list_elem_of_filter.
  apply firstOccurrences_elem in Hin as [Hin _].
  assert (Hfile : file ≠ "").
  { pose proof (merged_nonempty w workDir' patterns (effectiveWorkDir_nonempty workDir)) as Hall.
    rewrite Forall_forall in Hall. by apply Hall. }
  apply Forall_forall. intros exclude Hex Hne.
  destruct (excludeLoop_kept file workDir' excludes exclude Hkept Hex Hne)
    as (Hrel & Hbase & Hstripped & Hfull).
  intros [Hm|Hm|name Hstar Hname Hm|Hm]; try congruence.
  destruct (decide (stripped (TrimSpace exclude) = "")) as [Hempty|Hnonempty].
  - rewrite Hempty in Hm. apply matches_empty in Hm. subst name.
    destruct Hname as [Hname|Hname]; symmetry in Hname.
    + by apply Base_nonempty in Hname.
    + by apply relativeTo_nonempty in Hname.
  - destruct (Hstripped Hstar Hnonempty) as [Hb Hr].
    destruct Hname as [-> | ->]; congruence.
Qed.

(** The exclusion of the end-to-end scenario: the checksum goes, by its
    base name; and a file that three include patterns match stays out. *)
Lemma FindFiles_exclusion_closed_witness :
  FindFiles threeFiles "/w" ["*.txt"; "a.*"; "**"] ["a.txt"; " **/c.* "] =
    (["/w/b.txt"], None) ∧
  ¬ excludedBy "/w" "/w/b.txt" "a.txt" ∧ ¬ excludedBy "/w" "/w/b.txt" "**/c.*".
Proof.
  split; [reflexivity|].
  pose proof (FindFiles_exclusion_closed threeFiles "/w" ["*.txt"; "a.*"; "**"]
    ["a.txt"; " **/c.* "]) as Hall.
  apply Forall_cons in Hall as [Hb _].
  apply Forall_cons in Hb as [Ha Hb]. apply Forall_cons in Hb as [Hc _].
  split; [apply Ha|apply Hc]; discriminate.
Defined.

End Selection.

(** * Further properties *)

(** ** Lines of input *)

Section Lines.
Import GoStrings Main.

Implicit Types (s line cur : string) (c : ascii).

Lemma HasPrefix_char a rest c :
  HasPrefix (String a rest) (String c "") = bool_decide (a = c).
Proof.
  unfold HasPrefix.
  change (String.prefix (String c "") (String a rest))
    with (if ascii_dec c a then String.prefix "" rest else false).
  destruct (ascii_dec c a) as [->|Hne].
  - rewrite bool_decide_eq_true_2 by done. by destruct rest.
  - by rewrite bool_decide_eq_false_2.
Qed.

Lemma lacks_nil c : lacks c "".
Proof. reflexivity. Qed.

Lemma lacks_cons c a s : lacks c (String a s) ↔ a ≠ c ∧ lacks c s.
Proof.
  unfold lacks. cbn [Contains]. rewrite HasPrefix_char, orb_false_iff.
  by rewrite bool_decide_eq_false.
Qed.

Lemma lacks_app c a b : lacks c (a +:+ b) ↔ lacks c a ∧ lacks c b.
Proof.
  induction a as [|x a IH].
  - rewrite append_nil_l. pose proof (lacks_nil c). tauto.
  - rewrite append_cons, !lacks_cons, IH. tauto.
Qed.

Lemma splitScan_lacks c s cur :
  lacks c cur → Forall (lacks c) (splitScan (String c "") 0 cur s).
Proof.
  revert cur. induction s as [|a s IH]; intros cur Hcur; cbn [splitScan].
  - by constructor.
  - rewrite HasPrefix_char. case_bool_decide as Ha.
    + constructor; [done|]. apply IH, lacks_nil.
    + apply IH. apply lacks_app. split; [done|]. apply lacks_cons. split; [done|apply lacks_nil].
Qed.

Lemma splitScan_lacks_prepend c e s cur :
  lacks c e → splitScan (String c "") 0 cur (e +:+ s) = splitScan (String c "") 0 (cur +:+ e) s.
Proof.
  revert cur. induction e as [|a e IH]; intros cur.
  - intros _. by rewrite append_nil_l, append_nil_r.
  - intros [Ha He]%lacks_cons. rewrite append_cons. cbn [splitScan].
    rewrite HasPrefix_char, bool_decide_eq_false_2 by done.
    rewrite IH by done. by rewrite append_assoc.
Qed.

Lemma splitScan_lacks_end c e cur :
  lacks c e → splitScan (String c "") 0 cur e = [cur +:+ e].
Proof.
  intros He. rewrite <- (append_nil_r e) at 1. rewrite splitScan_lacks_prepend by done. done.
Qed.

(** Splitting at a character: the pieces before the first occurrence, and
    the split of the rest. *)
Lemma splitScan_char_app c e s cur :
  lacks c e →
  splitScan (String c "") 0 cur (e +:+ String c s) = (cur +:+ e) :: splitScan (String c "") 0 "" s.
Proof.
  intros He. rewrite splitScan_lacks_prepend by done. cbn [splitScan].
  by rewrite HasPrefix_char, bool_decide_eq_true_2.
Qed.

Lemma splitScan_char_app_any c a b cur :
  splitScan (String c "") 0 cur (a +:+ String c b) =
    splitScan (String c "") 0 cur a ++ splitScan (String c "") 0 "" b.
Proof.
  revert cur. induction a as [|x a IH]; intros cur.
  - rewrite append_nil_l. cbn [splitScan]. by rewrite HasPrefix_char, bool_decide_eq_true_2.
  - rewrite append_cons. cbn [splitScan]. rewrite !HasPrefix_char.
    case_bool_decide; cbn [String.length Nat.sub]; by rewrite IH.
Qed.

Lemma splitScan_char_Join c e elems cur :
  Forall (lacks c) (e :: elems) →
  splitScan (String c "") 0 cur (GoStrings.Join (e :: elems) (String c "")) = (cur +:+ e) :: elems.
Proof.
  revert e cur. induction elems as [|e2 elems IH]; intros e cur Hall.
  - apply Forall_cons in Hall as [He _]. cbn [GoStrings.Join]. by apply splitScan_lacks_end.
  - apply Forall_cons in Hall as [He Hall]. rewrite Join_cons_cons.
    change (String c "" +:+ GoStrings.Join (e2 :: elems) (String c ""))
      with (String c (GoStrings.Join (e2 :: elems) (String c ""))).
    rewrite splitScan_char_app by done. by rewrite IH.
Qed.

(** *** TrimSpace *)

Lemma TrimLeftSpace_lacks c s : lacks c s → lacks c (TrimLeftSpace s).
Proof.
  induction s as [|a s IH]; [done|]. intros Hs. pose proof Hs as [_ Hs']%lacks_cons.
  cbn [TrimLeftSpace]. destruct (isSpace a); [by apply IH|done].
Qed.

Lemma TrimRightSpace_cons a s :
  TrimRightSpace (String a s) =
    if bool_decide (TrimRightSpace s = "") then (if isSpace a then "" else String a "")
    else String a (TrimRightSpace s).
Proof. cbn [TrimRightSpace]. by destruct (TrimRightSpace s). Qed.

Lemma TrimRightSpace_lacks c s : lacks c s → lacks c (TrimRightSpace s).
Proof.
  induction s as [|a s IH]; [done|]. intros [Ha Hs]%lacks_cons.
  rewrite TrimRightSpace_cons. case_bool_decide.
  - destruct (isSpace a); [done|]. by apply lacks_cons.
  - apply lacks_cons. split; [done|]. by apply IH.
Qed.

Lemma TrimSpace_lacks c s : lacks c s → lacks c (TrimSpace s).
Proof. intros. by apply TrimRightSpace_lacks, TrimLeftSpace_lacks. Qed.

Lemma TrimRightSpace_idem s : TrimRightSpace (TrimRightSpace s) = TrimRightSpace s.
Proof.
  induction s as [|a s IH]; [done|].
  rewrite TrimRightSpace_cons. case_bool_decide as Hs.
  - destruct (isSpace a) eqn:Ha; [done|]. cbn [TrimRightSpace]. by rewrite Ha.
  - rewrite TrimRightSpace_cons, IH. by rewrite bool_decide_eq_false_2.
Qed.

(** What TrimLeftSpace leaves does not start with white space. *)
Lemma TrimLeftSpace_head s :
  TrimLeftSpace s = "" ∨ ∃ a r, TrimLeftSpace s = String a r ∧ isSpace a = false.
Proof.
  induction s as [|a s IH]; [by left|].
  cbn [TrimLeftSpace]. destruct (isSpace a) eqn:Ha; [done|]. right. by exists a, s.
Qed.

Lemma TrimLeftSpace_fixed a r : isSpace a = false → TrimLeftSpace (String a r) = String a r.
Proof. intros Ha. cbn [TrimLeftSpace]. by rewrite Ha. Qed.

Lemma TrimRightSpace_head a r :
  isSpace a = false → ∃ r', TrimRightSpace (String a r) = String a r'.
Proof.
  intros Ha. rewrite TrimRightSpace_cons, Ha. case_bool_decide; eauto.
Qed.

Lemma TrimSpace_idem s : TrimSpace (TrimSpace s) = TrimSpace s.
Proof.
  unfold TrimSpace. destruct (TrimLeftSpace_head s) as [->|(a & r & -> & Ha)]; [done|].
  destruct (TrimRightSpace_head a r Ha) as [r' Hr]. rewrite Hr.
  rewrite TrimLeftSpace_fixed by done. rewrite <- Hr. apply TrimRightSpace_idem.
Qed.

(** *** parseMultilineInput *)

Lemma Split_newline_lacks input : Forall (lacks "010") (Split input newline).
Proof. apply splitScan_lacks, lacks_nil. Qed.

(** X1.  Every line parseMultilineInput returns is not empty, has no white
    space around it and no line break in it. *)
Theorem parseMultilineInput_lines (input : string) :
  Forall isLine (parseMultilineInput input).
Proof.
  unfold parseMultilineInput. apply Forall_forall. intros line [Hne Hin]%list_elem_of_filter.
  apply list_elem_of_fmap in Hin as (piece & -> & Hin).
  split; [done|]. split; [apply TrimSpace_idem|].
  apply TrimSpace_lacks. revert Hin. apply Forall_forall, Split_newline_lacks.
Qed.

(** X3.  The lines of two inputs joined by a line break are the lines of
    the first followed by the lines of the second. *)
Theorem parseMultilineInput_concat (a b : string) :
  parseMultilineInput (a +:+ newline +:+ b) = parseMultilineInput a ++ parseMultilineInput b.
Proof.
  unfold parseMultilineInput, Split, newline.
  change (String "010" "" +:+ b) with (String "010"%char b).
  by rewrite splitScan_char_app_any, fmap_app, filter_app.
Qed.

(** X2.  Lines that are not empty, have no white space around them and no
    line break in them, joined by line breaks, are given back as they
    are: parseMultilineInput undoes the joining. *)
Theorem parseMultilineInput_round_trip (lines : list string) :
  Forall isLine lines → parseMultilineInput (GoStrings.Join lines newline) = lines.
Proof.
  intros Hall. unfold parseMultilineInput. destruct lines as [|line lines]; [done|].
  unfold Split, newline. rewrite splitScan_char_Join.
  2:{ eapply Forall_impl; [done|]. by intros ? (_ & _ & ?). }
  rewrite append_nil_l.
  induction Hall as [|l ls (Hne & Htrim & _) _ IH]; [done|].
  rewrite fmap_cons, Htrim, filter_cons_True by done. by rewrite IH.
Qed.

End Lines.

(** ** Outcomes of a run *)

Section RunOutcomes.
Import Main.
Context `{OpenPGP, Programs}.
Local Arguments parseMultilineInput : simpl never.
Context {T F : Type} `{SignerI T, FileFinderI F}.

Lemma signEach_all (opts : SignOptions) (files : list string)
    (log : list (string * SignOptions)) (s s' : T) (w w' : World) :
  SignsAll opts s w files s' w' →
  signEach (mkNoting log s) files opts w =
    ((mkNoting (log ++ ((λ f, (f, opts)) <$> files)) s', None), w').
Proof.
  intros Hall. revert log.
  induction Hall as [s w|s w file s1 w1 rest s' w' Hfile Hrest IH]; intros log.
  - cbn. unfold mret, IO_ret. by rewrite app_nil_r.
  - cbn. unfold mbind, IO_bind, mret, IO_ret. rewrite Hfile.
    rewrite IH. by rewrite <- app_assoc.
Qed.

(** A run of signEach that returns no error has signed every file. *)
Lemma signEach_None (opts : SignOptions) (files : list string) (s s' : T) (w w' : World) :
  signEach s files opts w = ((s', None), w') → SignsAll opts s w files s' w'.
Proof.
  revert s w. induction files as [|file rest IH]; intros s w; cbn.
  - unfold mret, IO_ret. intros [= <- <-]. constructor.
  - unfold mbind, IO_bind, mret, IO_ret.
    destruct (SignFile s file opts w) as [[s1 [e|]] w1] eqn:Hfile; [done|].
    intros Hrest. econstructor; [done|]. by apply IH.
Qed.

(** X4.  When SignFile succeeds on every file the finder returns, run
    returns no error; SignFile has been called once on each file, in the
    order of the finder and with the options of the arguments, and on
    nothing else (not at all when the finder returns no file), and the
    machine is as the last call left it. *)
Theorem run_signs_every_file (args : ActionInputs) (signer s' : T) (finder finder' : F)
    (workDir : string) (files : list string) (w0 w1 w2 w3 : World) :
  let opts := mkSignOptions (Armor args) (DetachSign args) (ClearSign args) in
  resolveWorkDir args w0 = ((workDir, None), w1) →
  FindFiles finder workDir (parseMultilineInput (Files args))
    (parseMultilineInput (Excludes args)) w1 = ((finder', (files, None)), w2) →
  SignsAll opts signer w2 files s' w3 →
  run args (Some (mkSigner (mkNoting [] signer))) (Some (mkFileFinder finder)) w0 =
    (mkOutcome None
       (Some (mkSigner (mkNoting ((λ f, (f, opts)) <$> files) s')))
       (Some (mkFileFinder finder')),
     w3).
Proof.
  intros opts Hwd Hfind Hall.
  unfold run. cbn. unfold mbind, IO_bind, mret, IO_ret.
  rewrite Hwd, Hfind. case_bool_decide as Hlen.
  - destruct files; [|done]. by inversion Hall; subst.
  - fold opts. by rewrite (signEach_all opts files [] signer s' w2 w3 Hall).
Qed.

(** X5.  When the finder fails, run returns its error wrapped with
    "failed to find files: "; SignFile is not called, and the machine is as
    the finder left it. *)
Theorem run_finder_error (args : ActionInputs) (signer : T) (finder finder' : F)
    (workDir : string) (files : list string) (cause : error) (w0 w1 w2 : World) :
  resolveWorkDir args w0 = ((workDir, None), w1) →
  FindFiles finder workDir (parseMultilineInput (Files args))
    (parseMultilineInput (Excludes args)) w1 = ((finder', (files, Some cause)), w2) →
  run args (Some (mkSigner (mkNoting [] signer))) (Some (mkFileFinder finder)) w0 =
    (mkOutcome (Some (Wrap "failed to find files: " cause))
       (Some (mkSigner (mkNoting [] signer)))
       (Some (mkFileFinder finder')),
     w2).
Proof.
  intros Hwd Hfind.
  unfold run. cbn. unfold mbind, IO_bind, mret, IO_ret.
  by rewrite Hwd, Hfind.
Qed.

End RunOutcomes.

(** ** The signers *)

Section Signers.
Context `{OpenPGP, Programs}.

Lemma Exec_procs c w err w' : Exec c w = (err, w') → procs w' = procs w ++ [c].
Proof. unfold Exec. destruct (runProgram c w) as [e w1]. by intros [= _ <-]. Qed.

Lemma ReadFile_failure path w data e w' :
  Os.ReadFile path w = ((data, Some e), w') →
  (entryAt w path = None ∧ ∃ cause, e = Os.PathError "open" path cause) ∨
  (entryAt w path = Some IsDirectory ∧ e = Os.PathError "read" path Os.EISDIR).
Proof.
  unfold Os.ReadFile, entryAt. destruct (Os.nodeAt w path) as [[]|]; simpl; [done| |].
  - intros [= _ <- _]. by right.
  - intros [= _ <- _]. left. eauto.
Qed.

(** X11.  A SignFile of the library-backed signer that fails keeps the
    signer, and the failure is one of four.  The input is not there (the
    error of opening it, wrapped with "failed to read file: "), the input
    is a directory, or the library fails to sign the data (its error as
    createDetachedSignature and the like wrap it): then nothing has been
    written and the machine is as it was.  Or the signature cannot be
    written (the error of os.WriteFile wrapped with "failed to write
    signature: "): then the machine is as os.WriteFile has left it.  In
    every case a name that denotes another place than the output path
    denotes what it did before. *)
Theorem GoPGPSigner_SignFile_failure (s s' : GoPGP.GoPGPSigner) (filePath : string)
    (opts : SignOptions) (w w' : World) (e : error) :
  SignFile s filePath opts w = ((s', Some e), w') →
  let outputPath := filePath +:+ getOutputExtension opts in
  s' = s ∧
  (∀ p, Os.resolve w p ≠ Os.resolve w outputPath → entryAt w' p = entryAt w p) ∧
  ((w' = w ∧ entryAt w filePath = None ∧
    ∃ cause, e = Wrap "failed to read file: " (Os.PathError "open" filePath cause)) ∨
   (w' = w ∧ entryAt w filePath = Some IsDirectory ∧
    e = Wrap "failed to read file: " (Os.PathError "read" filePath Os.EISDIR)) ∨
   (w' = w ∧ ∃ data signature,
      entryAt w filePath = Some (IsFile data) ∧
      GoPGP.signatureFor s data opts = (signature, Some e)) ∨
   (∃ data signature cause,
      entryAt w filePath = Some (IsFile data) ∧
      GoPGP.signatureFor s data opts = (signature, None) ∧
      Os.WriteFile outputPath signature w = (Some cause, w') ∧
      e = Wrap "failed to write signature: " cause)).
Proof.
  cbn. unfold GoPGP.GoPGPSigner_SignFile, mbind, IO_bind, mret, IO_ret.
  destruct (Os.ReadFile filePath w) as [[data [e0|]] w1] eqn:Hread;
    pose proof (ReadFile_world _ _ _ _ Hread) as ->.
  { intros [= <- <- <-]. split_and!; try done.
    apply ReadFile_failure in Hread as [[Hnone [cause ->]]|[Hdir ->]]; eauto 6. }
  apply ReadFile_success in Hread.
  destruct (GoPGP.signatureFor s data opts) as [signature [e0|]] eqn:Hsig.
  { intros [= <- <- <-]. split_and!; try done. right. right. left. eauto. }
  rewrite getOutputPath_ext.
  destruct (Os.WriteFile _ signature w) as [[e0|] w2] eqn:Hwrite; [|done].
  intros [= <- <- <-]. split_and!; try done.
  - intros p _. by rewrite (WriteFile_failure _ _ _ _ _ Hwrite).
  - right. right. right. exists data, signature, e0. done.
Qed.

Lemma NewGoPGPSigner_xor (armoredKey passphrase : string) :
  is_Some (GoPGP.NewGoPGPSigner armoredKey passphrase).1 ↔
  (GoPGP.NewGoPGPSigner armoredKey passphrase).2 = None.
Proof.
  unfold GoPGP.NewGoPGPSigner.
  repeat case_match; cbn; split; try done; try (by intros [? [=]]); eauto.
Qed.

(** X10.  NewGoPGPSigner returns a signer exactly when the armored key
    parses, is a private key, and the key it keeps is not locked: the
    parsed key itself when the passphrase is empty, the key unlocked with
    the passphrase otherwise. *)
Theorem NewGoPGPSigner_succeeds_iff (armoredKey passphrase : string) (s : GoPGP.GoPGPSigner) :
  GoPGP.NewGoPGPSigner armoredKey passphrase = (Some s, None) ↔
  ∃ key,
    NewKeyFromArmored armoredKey = inl key ∧
    IsPrivate key = true ∧
    (if bool_decide (passphrase = "") then GoPGP.privateKey s = key
     else Unlock key passphrase = inl (GoPGP.privateKey s)) ∧
    IsLocked (GoPGP.privateKey s) = inl false.
Proof.
  unfold GoPGP.NewGoPGPSigner. split.
  - intros Hnew. destruct (NewKeyFromArmored armoredKey) as [key|]; [|done].
    exists key. split; [done|].
    destruct (IsPrivate key); cbn [negb] in *; [|done]. split; [done|].
    case_bool_decide; cbn [negb] in Hnew.
    + destruct (IsLocked key) as [[]|] eqn:Hl; try done. by injection Hnew as <-.
    + destruct (Unlock key passphrase) as [key'|]; [|done].
      destruct (IsLocked key') as [[]|] eqn:Hl; try done. by injection Hnew as <-.
  - intros (key & -> & -> & Hs & Hl). cbn [negb]. destruct s as [k]. cbn in Hs, Hl.
    case_bool_decide; cbn [negb].
    + subst key. by rewrite Hl.
    + by rewrite Hs, Hl.
Qed.

(** X13.  The SignFile of the GnuPG signer runs one command, gpg with the
    arguments of buildArgs followed by the file path and the passphrase as
    standard input, and nothing else; it fails exactly when the command
    does, with the error of the command wrapped with "gpg command
    failed: ".  The signer is unchanged. *)
Theorem GnuPGSigner_SignFile_command (s s' : GnuPG.GnuPGSigner) (filePath : string)
    (opts : SignOptions) (w w' : World) (err : option error) :
  SignFile s filePath opts w = ((s', err), w') →
  s' = s ∧
  procs w' = procs w ++ [gpgCommand s opts filePath] ∧
  (err = None ↔ (runProgram (gpgCommand s opts filePath) w).1 = None) ∧
  (∀ e, err = Some e →
     ∃ cause, (runProgram (gpgCommand s opts filePath) w).1 = Some cause ∧
              e = Wrap "gpg command failed: " cause).
Proof.
  cbn. unfold GnuPG.GnuPGSigner_SignFile, mbind, IO_bind, mret, IO_ret, Exec.
  fold (gpgCommand s opts filePath).
  destruct (runProgram (gpgCommand s opts filePath) w) as [[e|] w1];
    intros [= <- <- <-]; cbn; split_and!; try done.
  intros ? [= <-]. eauto.
Qed.

(** X14.  The passphrase of the GnuPG signer reaches gpg on the standard
    input of the command.  The command line ends with the file path, has
    [--passphrase-fd] exactly when the passphrase is not empty, and is the
    same for two signers whose passphrases are both empty or both not: it
    depends on the passphrase only through its being empty. *)
Theorem gpgCommand_passphrase (s1 s2 : GnuPG.GnuPGSigner) (opts : SignOptions)
    (filePath : string) :
  cmdStdin (gpgCommand s1 opts filePath) = GnuPG.passphrase s1 ∧
  last (cmdArgs (gpgCommand s1 opts filePath)) = Some filePath ∧
  ("--passphrase-fd" ∈ GnuPG.buildArgs s1 opts ↔ GnuPG.passphrase s1 ≠ "") ∧
  ((GnuPG.passphrase s1 = "" ↔ GnuPG.passphrase s2 = "") →
   cmdArgs (gpgCommand s1 opts filePath) = cmdArgs (gpgCommand s2 opts filePath)).
Proof.
  destruct s1 as [p1], s2 as [p2], opts as [a d c]. cbn [GnuPG.passphrase gpgCommand cmdStdin cmdArgs].
  split_and!.
  - done.
  - by rewrite last_snoc.
  - unfold GnuPG.buildArgs. cbn [GnuPG.passphrase Armor DetachSign ClearSign].
    case_bool_decide as Hp; cbn [negb].
    + split; [|done]. destruct a, d, c; cbn; intros Hin; set_solver.
    + split; [done|]. intros _. destruct a, d, c; cbn; set_solver.
  - intros Hiff. unfold GnuPG.buildArgs. cbn [GnuPG.passphrase].
    destruct (bool_decide_reflect (p1 = "")) as [H1|H1], (bool_decide_reflect (p2 = "")) as [H2|H2];
      try done; tauto.
Qed.

(** X12.  NewGnuPGSigner runs one command, [gpg --batch --import -] with
    the armored key as standard input.  It returns a signer holding the
    passphrase exactly when the command succeeds, and otherwise the error
    of the command wrapped with "failed to import GPG key: ".  The
    passphrase plays no part: with another one the machine and the error
    are the same. *)
Theorem NewGnuPGSigner_import (armoredKey passphrase other : string) (w : World) :
  let r := GnuPG.NewGnuPGSigner armoredKey passphrase w in
  procs r.2 = procs w ++ [gpgImport armoredKey] ∧
  (r.1.2 = None ↔ (runProgram (gpgImport armoredKey) w).1 = None) ∧
  (r.1.2 = None → r.1.1 = Some (GnuPG.mkGnuPGSigner passphrase)) ∧
  (∀ e, r.1.2 = Some e →
     r.1.1 = None ∧
     ∃ cause, (runProgram (gpgImport armoredKey) w).1 = Some cause ∧
              e = Wrap "failed to import GPG key: " cause) ∧
  (GnuPG.NewGnuPGSigner armoredKey other w).2 = r.2 ∧
  (GnuPG.NewGnuPGSigner armoredKey other w).1.2 = r.1.2.
Proof.
  unfold GnuPG.NewGnuPGSigner, GnuPG.importGPGKey, mbind, IO_bind, mret, IO_ret, Exec.
  fold (gpgImport armoredKey).
  destruct (runProgram (gpgImport armoredKey) w) as [[e|] w1]; cbn; split_and!; try done.
  intros ? [= <-]. eauto.
Qed.

(** X9.  What NewSigner returns.  For gopgp and for gnupg the Signer is
    never nil: it holds the pointer that the constructor returns, which
    points to a signer exactly when there is no error and is nil
    otherwise, so that a caller has to look at the error and not at the
    Signer.  For every other backend the Signer is nil and there is an
    error.  For every backend but gnupg the machine is left as it was; for
    gnupg the commands run are those before and the import of the key. *)
Theorem NewSigner_result (backend privateKey passphrase : string) (w : World) :
  let r := Main.NewSigner backend privateKey passphrase w in
  (backend = Main.BackendGoPGP →
   ∃ p : option GoPGP.GoPGPSigner,
     r.1.1 = Some (mkSigner p) ∧ (is_Some p ↔ r.1.2 = None) ∧
     (p, r.1.2) = GoPGP.NewGoPGPSigner privateKey passphrase) ∧
  (backend = Main.BackendGnuPG →
   ∃ p : option GnuPG.GnuPGSigner,
     r.1.1 = Some (mkSigner p) ∧ (is_Some p ↔ r.1.2 = None) ∧
     (p, r.1.2) = (GnuPG.NewGnuPGSigner privateKey passphrase w).1) ∧
  (backend ≠ Main.BackendGoPGP → backend ≠ Main.BackendGnuPG →
   r.1.1 = None ∧ is_Some r.1.2) ∧
  (r.1.2 = None → is_Some r.1.1) ∧
  (backend ≠ Main.BackendGnuPG → r.2 = w) ∧
  (backend = Main.BackendGnuPG → procs r.2 = procs w ++ [gpgImport privateKey]).
Proof.
  unfold Main.NewSigner. case_bool_decide as Hgo.
  - pose proof (NewGoPGPSigner_xor privateKey passphrase) as Hiff.
    destruct (GoPGP.NewGoPGPSigner privateKey passphrase) as [s err] eqn:Hnew.
    cbn in *. split_and!; try done; try (by subst).
    intros _. by exists s.
  - case_bool_decide as Hgnu.
    + unfold GnuPG.NewGnuPGSigner, GnuPG.importGPGKey, mbind, IO_bind, mret, IO_ret.
      fold (gpgImport privateKey).
      destruct (Exec (gpgImport privateKey) w) as [[e|] w1] eqn:Hexec;
        apply Exec_procs in Hexec; cbn; (split_and!; try done; eauto).
      * intros _. exists None. split; [done|]. split; [|done].
        split; [by intros [? [=]]|done].
      * intros _. eexists (Some _). split; [done|]. split; [|done]. split; eauto.
    + cbn. by split_and!.
Qed.

End Signers.

(** ** Whole runs with either backend *)

Section GnuPGCommands.
Import Main.
Context `{OpenPGP, Programs}.
Local Arguments parseMultilineInput : simpl never.

Lemma GnuPGSigner_SignFile_procs (s : GnuPG.GnuPGSigner) filePath opts w s' err w' :
  SignFile s filePath opts w = ((s', err), w') →
  s' = s ∧ procs w' = procs w ++ [gpgCommand s opts filePath] ∧
  (∀ e, err = Some e → ∃ cause, e = Wrap "gpg command failed: " cause).
Proof.
  cbn. unfold GnuPG.GnuPGSigner_SignFile, mbind, IO_bind, mret, IO_ret.
  destruct (Exec _ w) as [e w1] eqn:Hexec. apply Exec_procs in Hexec.
  destruct e as [e|]; intros [= <- <- <-]; split_and!; try done.
  intros ? [= <-]. eauto.
Qed.

Lemma signEach_gnupg (s : GnuPG.GnuPGSigner) files opts w s' err w' :
  signEach s files opts w = ((s', err), w') →
  s' = s ∧
  ∃ attempted,
    attempted `prefix_of` files ∧
    procs w' = procs w ++ (gpgCommand s opts <$> attempted) ∧
    (err = None → attempted = files).
Proof.
  revert w. induction files as [|file rest IH]; intros w.
  - cbn. unfold mret, IO_ret. intros [= <- <- <-]. split; [done|].
    exists []. by rewrite app_nil_r.
  - cbn [signEach]. unfold mbind at 1. unfold IO_bind.
    destruct (SignFile s file opts w) as [[s1 e] w1] eqn:Hfile.
    apply GnuPGSigner_SignFile_procs in Hfile as (-> & Hprocs & _).
    destruct e as [e|].
    + unfold mret, IO_ret. intros [= <- <- <-]. split; [done|].
      exists [file]. split_and!; [by apply prefix_cons, prefix_nil|done|done].
    + intros Hrest. apply IH in Hrest as (-> & attempted & Hpre & Hp & Hall).
      split; [done|]. exists (file :: attempted). split_and!.
      * by apply prefix_cons.
      * rewrite Hp, Hprocs, fmap_cons. by rewrite <- app_assoc.
      * intros Herr. by rewrite Hall.
Qed.


Lemma resolveWorkDir_world args w : (resolveWorkDir args w).2 = w.
Proof.
  unfold resolveWorkDir, mbind, IO_bind, mret, IO_ret, Os.Getenv, Os.Getwd, gets.
  repeat case_match; by simplify_eq.
Qed.

(** The loop of run over a pointer that is not nil is the loop over what
    it points to. *)
Lemma signEach_gnupg_pointer (s : GnuPG.GnuPGSigner) files opts w :
  signEach (Some s) files opts w =
    let '((s', err), w') := signEach s files opts w in ((Some s', err), w').
Proof.
  revert s w. induction files as [|file rest IH]; intros s w; [done|].
  cbn [signEach]. unfold mbind, IO_bind.
  cbn [SignFile GnuPG.GnuPGSigner_pointer_Signer]. unfold mbind, IO_bind.
  destruct (SignFile s file opts w) as [[s1 [e|]] w1]; [done|]. apply IH.
Qed.

Lemma signEach_gopgp_pointer (s : GoPGP.GoPGPSigner) files opts w :
  signEach (Some s) files opts w =
    let '((s', err), w') := signEach s files opts w in ((Some s', err), w').
Proof.
  revert s w. induction files as [|file rest IH]; intros s w; [done|].
  cbn [signEach]. unfold mbind, IO_bind.
  cbn [SignFile GoPGP.GoPGPSigner_pointer_Signer]. unfold mbind, IO_bind.
  destruct (SignFile s file opts w) as [[s1 [e|]] w1]; [done|]. apply IH.
Qed.

(** X15.  A run with the gnupg backend that creates its own signer and
    finder runs the import of the key and then one signing command for
    each file of a prefix of the files FindFiles selects on the machine
    the import left, in order, and no other command; when the run returns
    no error the prefix is the whole list. *)
Theorem run_gnupg_commands (args : ActionInputs) (w0 : World) :
  Backend args = BackendGnuPG →
  let opts := mkSignOptions (Armor args) (DetachSign args) (ClearSign args) in
  let signer := GnuPG.mkGnuPGSigner (Passphrase args) in
  let w1 := (Exec (gpgImport (PrivateKey args)) w0).2 in
  let workDir := (resolveWorkDir args w1).1.1 in
  let files :=
    (Files.FindFiles w1 workDir (parseMultilineInput (Files args))
       (parseMultilineInput (Excludes args))).1 in
  let r := run args None None w0 in
  ∃ attempted,
    attempted `prefix_of` files ∧
    procs r.2 = procs w0 ++ gpgImport (PrivateKey args) :: (gpgCommand signer opts <$> attempted) ∧
    (outErr r.1 = None → attempted = files).
Proof.
  intros Hbackend opts signer w1 workDir files r. subst r.
  unfold run, NewSigner. rewrite Hbackend.
  rewrite bool_decide_eq_false_2 by done. rewrite bool_decide_eq_true_2 by done.
  unfold GnuPG.NewGnuPGSigner, GnuPG.importGPGKey. fold (gpgImport (PrivateKey args)).
  unfold mbind, IO_bind, mret, IO_ret.
  destruct (Exec (gpgImport (PrivateKey args)) w0) as [e w1'] eqn:Hexec.
  pose proof (Exec_procs _ _ _ _ Hexec) as Hprocs. subst w1. cbn [snd] in *.
  destruct e as [e|]; cbn [fmap option_fmap option_map].
  { exists []. split_and!; [apply prefix_nil|done|done]. }
  cbn [default]. subst workDir.
  pose proof (resolveWorkDir_world args w1') as Hw.
  destruct (resolveWorkDir args w1') as [[workDir [e|]] w2]; cbn [fst snd] in *; subst w2.
  { exists []. split_and!; [apply prefix_nil|done|done]. }
  cbn [FindFiles DefaultFileFinder_FileFinder]. unfold gets. subst files.
  destruct (Files.FindFiles w1' workDir _ _) as [files [e|]] eqn:Hfind; cbn [fst snd].
  { exists []. split_and!; [apply prefix_nil|done|done]. }
  case_bool_decide as Hlen.
  { destruct files; [|done]. exists []. by split_and!. }
  fold opts. fold signer. rewrite signEach_gnupg_pointer.
  destruct (signEach signer files opts w1') as [[s' err] w3] eqn:Hsign.
  apply signEach_gnupg in Hsign as (-> & attempted & Hpre & Hp & Hall).
  exists attempted. cbn [fst snd outErr]. split_and!; [done| |done].
  rewrite Hp, Hprocs. by rewrite <- app_assoc.
Qed.


(** The library-backed signer changes the files only. *)
Lemma GoPGPSigner_SignFile_frame (s s' : GoPGP.GoPGPSigner) f opts w err w' :
  SignFile s f opts w = ((s', err), w') →
  s' = s ∧ procs w' = procs w ∧ cwd w' = cwd w ∧ environ w' = environ w.
Proof.
  cbn. unfold mbind, IO_bind, mret, IO_ret.
  destruct (GoPGP.GoPGPSigner_SignFile s f opts w) as [r w1] eqn:Hcall.
  intros [= <- <- <-].
  apply GoPGPSigner_SignFile_cases in Hcall as [[_ ->]|[_ (data & signature & _ & _ & Hw)]];
    [done|].
  by apply WriteFile_success in Hw as (? & _ & _ & ? & ? & ?).
Qed.

Lemma signEach_gopgp_frame (s s' : GoPGP.GoPGPSigner) files opts w err w' :
  signEach s files opts w = ((s', err), w') →
  s' = s ∧ procs w' = procs w ∧ cwd w' = cwd w ∧ environ w' = environ w.
Proof.
  revert w. induction files as [|file rest IH]; intros w.
  - cbn. unfold mret, IO_ret. by intros [= <- <- <-].
  - cbn [signEach]. unfold mbind at 1. unfold IO_bind.
    destruct (SignFile s file opts w) as [[s1 e] w1] eqn:Hfile.
    apply GoPGPSigner_SignFile_frame in Hfile as (-> & Hp & Hc & He).
    destruct e as [e|].
    + unfold mret, IO_ret. by intros [= <- <- <-].
    + intros (-> & ? & ? & ?)%IH. split_and!; congruence.
Qed.

Lemma GoPGPSigner_signedFile (s s' : GoPGP.GoPGPSigner) f opts w w' :
  SignFile s f opts w = ((s', None), w') → signedFile opts f w'.
Proof.
  intros Hsign. split; [|by eapply GoPGPSigner_leaves_artifact].
  pose proof Hsign as Hsign'. cbn in Hsign. unfold mbind, IO_bind, mret, IO_ret in Hsign.
  destruct (GoPGP.GoPGPSigner_SignFile s f opts w) as [r w1] eqn:Hcall.
  injection Hsign as <- -> <-.
  apply GoPGPSigner_SignFile_cases in Hcall as [[[? [=]] _]|[_ (data & signature & Hin & _ & Hw)]].
  by eapply GoPGPSigner_keeps_files.
Qed.

Lemma GoPGPSigner_keeps_signedFile (s : GoPGP.GoPGPSigner) g opts w r w' f :
  SignFile s g opts w = (r, w') → signedFile opts f w → signedFile opts f w'.
Proof.
  intros Hsign [[d Hd] [sg Hs]]. split; by eapply GoPGPSigner_keeps_files.
Qed.

(** X16.  A run with the gopgp backend that creates its own signer and
    finder runs no command and leaves the current directory and the
    environment as they were; when it returns no error, every file
    FindFiles selected is still a file and the file of its signature is
    there. *)
Theorem run_gopgp_artifacts (args : ActionInputs) (w0 : World) :
  Backend args = BackendGoPGP →
  let opts := mkSignOptions (Armor args) (DetachSign args) (ClearSign args) in
  let workDir := (resolveWorkDir args w0).1.1 in
  let files :=
    (Files.FindFiles w0 workDir (parseMultilineInput (Files args))
       (parseMultilineInput (Excludes args))).1 in
  let r := run args None None w0 in
  procs r.2 = procs w0 ∧ cwd r.2 = cwd w0 ∧ environ r.2 = environ w0 ∧
  (outErr r.1 = None → Forall (λ f, signedFile opts f r.2) files).
Proof.
  intros Hbackend opts workDir files r. subst r.
  unfold run, NewSigner. rewrite Hbackend.
  rewrite bool_decide_eq_true_2 by done.
  pose proof (NewGoPGPSigner_xor (PrivateKey args) (Passphrase args)) as Hxor.
  destruct (GoPGP.NewGoPGPSigner (PrivateKey args) (Passphrase args)) as [pointer [e|]];
    unfold mbind, IO_bind, mret, IO_ret; cbn [fst snd outErr]; [done|].
  destruct pointer as [signer|]; [|by destruct (proj2 Hxor eq_refl)].
  cbn [default]. subst workDir.
  pose proof (resolveWorkDir_world args w0) as Hw.
  destruct (resolveWorkDir args w0) as [[workDir [e|]] w2]; cbn [fst snd] in *; subst w2;
    [done|].
  cbn [FindFiles DefaultFileFinder_FileFinder]. unfold gets. subst files.
  destruct (Files.FindFiles w0 workDir _ _) as [files [e|]] eqn:Hfind; cbn [fst snd outErr];
    [done|].
  case_bool_decide as Hlen.
  { destruct files; [|done]. by cbn. }
  fold opts. rewrite signEach_gopgp_pointer.
  destruct (signEach signer files opts w0) as [[s' err] w3] eqn:Hsign. cbn [fst snd outErr].
  pose proof (signEach_gopgp_frame _ _ _ _ _ _ _ Hsign) as (-> & ? & ? & ?).
  split_and!; try done. intros ->.
  apply signEach_None in Hsign.
  by destruct (SignsAll_artifacts opts (signedFile opts) files signer signer w0 w3
    (λ s w f s' w', GoPGPSigner_signedFile s s' f opts w w')
    (λ s w g r w' f, GoPGPSigner_keeps_signedFile s g opts w r w' f) Hsign).
Qed.

End GnuPGCommands.

(** ** The resolution of the patterns *)

Section Resolution.
Import GoStrings Filepath FilepathFS Files.

(** X18.  The error of FindFiles is the error of the first include pattern
    (trimmed, the empty ones apart) whose resolution fails: for a pattern
    with a recursive wildcard the error of findWithGlobstar as it is, for
    any other the error of filepath.Glob wrapped with the quoted pattern.
    It does not depend on the exclusion patterns, and with an error comes
    no file. *)
Theorem FindFiles_first_error (w : World) (workDir : string) (patterns excludes : list string) :
  let r := FindFiles w workDir patterns excludes in
  r.2 = head (omap (patternError w (effectiveWorkDir workDir)) (includePatterns patterns)) ∧
  (r.2 ≠ None → r.1 = []).
Proof.
  intros r. subst r. split; [apply FindFiles_error_head|]. unfold FindFiles.
  destruct (findLoop _ _ _ _ _) as [files [e|]] eqn:Hloop; [|done].
  intros _. by apply findLoop_error_nil in Hloop.
Qed.

Lemma filter_all {A} (P : A → Prop) `{∀ x, Decision (P x)} (l : list A) :
  Forall P l → filter P l = l.
Proof.
  induction 1 as [|x l Hx _ IH]; [done|]. by rewrite filter_cons_True, IH.
Qed.

Lemma filter_agree {A} (P Q : A → Prop) `{∀ x, Decision (P x)} `{∀ x, Decision (Q x)}
    (l : list A) :
  Forall (λ x, P x ↔ Q x) l → filter P l = filter Q l.
Proof.
  induction 1 as [|x l Hx _ IH]; [done|]. rewrite !filter_cons, IH.
  destruct (decide (P x)), (decide (Q x)); tauto.
Qed.

Lemma filter_swap {A} (P Q : A → Prop) `{∀ x, Decision (P x)} `{∀ x, Decision (Q x)}
    (l : list A) :
  filter P (filter Q l) = filter Q (filter P l).
Proof.
  induction l as [|x l IH]; [done|]. rewrite !filter_cons.
  destruct (decide (P x)), (decide (Q x)); rewrite ?filter_cons, ?decide_True, ?decide_False by done;
    by rewrite IH.
Qed.

Lemma kept_nil workDir file : kept workDir [] file.
Proof. reflexivity. Qed.

(** X19.  Exclusion is a filter on the result: FindFiles with exclusion
    patterns returns the files it returns without them, in the same order,
    less those shouldExclude excludes, and the same error. *)
Theorem FindFiles_excludes_filter (w : World) (workDir : string)
    (patterns excludes : list string) :
  let all := FindFiles w workDir patterns [] in
  FindFiles w workDir patterns excludes =
    (filter (kept (effectiveWorkDir workDir) excludes) all.1, all.2).
Proof.
  intros all. subst all.
  pose proof (FindFiles_error_head w workDir patterns excludes) as He.
  pose proof (FindFiles_error_head w workDir patterns []) as He0.
  pose proof (FindFiles_merge w workDir patterns excludes) as Hm.
  pose proof (FindFiles_merge w workDir patterns []) as Hm0.
  cbv zeta in *. rewrite <- He0 in He. clear He0.
  destruct (FindFiles w workDir patterns excludes) as [l e].
  destruct (FindFiles w workDir patterns []) as [l0 e0]. cbn [fst snd] in *. subst e0.
  f_equal.
  destruct Hm as [[[? ->] ->]|[-> ->]].
  - destruct Hm0 as [[_ ->]|[[=] _]]. done.
  - destruct Hm0 as [[[? [=]] _]|[_ ->]].
    f_equal. symmetry. apply filter_all, Forall_forall. intros ? _. apply kept_nil.
Qed.


Lemma firstOccurrences_app earlier A B :
  firstOccurrences earlier (A ++ B) =
    firstOccurrences earlier A ++ filter (λ x, x ∉ earlier ++ A) (firstOccurrences [] B).
Proof.
  induction B as [|x B IH] using rev_ind.
  - by rewrite !app_nil_r.
  - rewrite app_assoc, !firstOccurrences_snoc, IH, filter_app, <- app_assoc. do 2 f_equal.
    rewrite app_nil_l.
    destruct (bool_decide_reflect (x ∈ B)) as [HB|HB].
    + rewrite bool_decide_eq_true_2 by set_solver. done.
    + destruct (bool_decide_reflect (x ∈ earlier ++ A ++ B)) as [Hin|Hin].
      * rewrite filter_cons_False by set_solver. done.
      * rewrite filter_cons_True by set_solver. done.
Qed.

Lemma merged_app w workDir a b : merged w workDir (a ++ b) = merged w workDir a ++ merged w workDir b.
Proof. unfold merged. by rewrite includePatterns_app, fmap_app, concat_app. Qed.

Lemma head_app_omap {A} (l1 l2 : list A) :
  head (l1 ++ l2) = match head l1 with Some x => Some x | None => head l2 end.
Proof. by destruct l1. Qed.

(** X20.  Include patterns added at the end do not disturb what the
    patterns before them select: the error is that of the first list if it
    has one, else that of the added list; and without error the result is
    the result of the first list followed by the files of the added list
    that are not in it yet. *)
Theorem FindFiles_more_patterns (w : World) (workDir : string)
    (first more excludes : list string) :
  let r1 := FindFiles w workDir first excludes in
  let r2 := FindFiles w workDir more excludes in
  let r := FindFiles w workDir (first ++ more) excludes in
  r.2 = match r1.2 with Some e => Some e | None => r2.2 end ∧
  (r.2 = None → r.1 = r1.1 ++ filter (λ f, f ∉ r1.1) r2.1).
Proof.
  intros r1 r2 r. subst r1 r2 r.
  pose proof (FindFiles_error_head w workDir first excludes) as He1.
  pose proof (FindFiles_error_head w workDir more excludes) as He2.
  pose proof (FindFiles_error_head w workDir (first ++ more) excludes) as He.
  pose proof (FindFiles_merge w workDir first excludes) as Hm1.
  pose proof (FindFiles_merge w workDir more excludes) as Hm2.
  pose proof (FindFiles_merge w workDir (first ++ more) excludes) as Hm.
  cbv zeta in *.
  rewrite includePatterns_app, omap_app, head_app_omap, <- He1, <- He2 in He.
  split; [done|]. intros Hok. rewrite Hok in He.
  destruct Hm as [[[? Hsome] _]|[_ ->]]; [congruence|].
  destruct (FindFiles w workDir first excludes) as [l1 [e1|]]; [done|].
  destruct (FindFiles w workDir more excludes) as [l2 [e2|]]; [done|]. cbn [fst snd] in *.
  destruct Hm1 as [[[? [=]] _]|[_ ->]]. destruct Hm2 as [[[? [=]] _]|[_ ->]].
  rewrite merged_app, firstOccurrences_app, filter_app, app_nil_l. f_equal.
  rewrite filter_swap. apply filter_agree, Forall_forall.
  intros f [Hkept _]%list_elem_of_filter.
  rewrite list_elem_of_filter, firstOccurrences_elem. set_solver.
Qed.


Lemma elem_of_concat {A} (x : A) (ls : list (list A)) :
  x ∈ concat ls ↔ ∃ l, x ∈ l ∧ l ∈ ls.
Proof.
  induction ls as [|l ls IH]; cbn [concat].
  - set_solver.
  - rewrite elem_of_app, IH. set_solver.
Qed.

Lemma isRegular_entryAt w f : isRegular w f = true → ∃ data, entryAt w f = Some (IsFile data).
Proof.
  unfold isRegular, Os.Stat, entryAt. destruct (Os.nodeAt w f) as [[data|]|]; try done. eauto.
Qed.

Lemma shouldExclude_relativeTo file workDir excludes :
  shouldExclude file workDir excludes =
    excludeLoop file workDir (relativeTo workDir file) excludes.
Proof. unfold shouldExclude, relativeTo. by destruct (Rel workDir file) as [? [?|]]. Qed.

Lemma excludeLoop_true file workDir excludes :
  excludeLoop file workDir (relativeTo workDir file) excludes = true →
  ∃ exclude, exclude ∈ excludes ∧ TrimSpace exclude ≠ "" ∧
             excludedBy workDir file (TrimSpace exclude).
Proof.
  induction excludes as [|e rest IH]; cbn [excludeLoop]; [done|].
  case_bool_decide as Hblank.
  { intros (x & ? & ? & ?)%IH. exists x. split_and!; [by right|done|done]. }
  destruct (matches (TrimSpace e) (relativeTo workDir file)) eqn:Hrel.
  { intros _. exists e. split_and!; [by left|done|by apply byRelativePath]. }
  destruct (matches (TrimSpace e) (Base file)) eqn:Hbase.
  { intros _. exists e. split_and!; [by left|done|by apply byBaseName]. }
  fold (stripped (TrimSpace e)).
  destruct (Contains (TrimSpace e) "**" && _) eqn:Hc.
  { intros _. exists e. split_and!; [by left|done|].
    apply andb_true_iff in Hc as [Hstar [_ Hm]%andb_true_iff].
    apply orb_true_iff in Hm as [Hm|Hm].
    - apply (byStripped _ _ _ (Base file)); [done|by left|done].
    - apply (byStripped _ _ _ (relativeTo workDir file)); [done|by right|done]. }
  destruct (matches (Filepath.Join [workDir; TrimSpace e]) file) eqn:Hfull.
  { intros _. exists e. split_and!; [by left|done|by apply byFullPath]. }
  intros (x & ? & ? & ?)%IH. exists x. split_and!; [by right|done|done].
Qed.

Lemma shouldExclude_excludedBy file workDir excludes :
  file ≠ "" →
  shouldExclude file workDir excludes = true ↔
  ∃ exclude, exclude ∈ excludes ∧ TrimSpace exclude ≠ "" ∧
             excludedBy workDir file (TrimSpace exclude).
Proof.
  intros Hfile. rewrite shouldExclude_relativeTo. split; [apply excludeLoop_true|].
  intros (exclude & Hin & Hne & Hex).
  destruct (excludeLoop file workDir (relativeTo workDir file) excludes) eqn:Hloop; [done|].
  destruct (excludeLoop_kept file workDir excludes exclude Hloop Hin Hne)
    as (Hrel & Hbase & Hstripped & Hfull).
  destruct Hex as [Hm|Hm|name Hstar Hname Hm|Hm]; try congruence.
  destruct (decide (stripped (TrimSpace exclude) = "")) as [Hempty|Hnonempty].
  - rewrite Hempty in Hm. apply matches_empty in Hm. subst name.
    destruct Hname as [Hname|Hname]; symmetry in Hname.
    + by apply Base_nonempty in Hname.
    + by apply relativeTo_nonempty in Hname.
  - destruct (Hstripped Hstar Hnonempty) as [Hb Hr].
    destruct Hname as [-> | ->]; congruence.
Qed.

(** X22.  shouldExclude answers yes for a file (of a non-empty path)
    exactly when one of the exclusion patterns, trimmed and not empty,
    excludes it by one of the four rules: match against the path relative
    to the working directory, against the base name, of the pattern
    stripped of its recursive wildcards against either, or of the pattern
    joined with the working directory against the whole path. *)
Theorem shouldExclude_rules (file workDir : string) (excludes : list string) :
  file ≠ "" →
  shouldExclude file workDir excludes = true ↔
  ∃ exclude, exclude ∈ excludes ∧ TrimSpace exclude ≠ "" ∧
             excludedBy workDir file (TrimSpace exclude).
Proof. apply shouldExclude_excludedBy. Qed.

(** X23.  When no pattern fails, a path is in the list FindFiles returns
    exactly when some include pattern resolves to it and no exclusion
    pattern (trimmed, not empty) excludes it by one of the four rules:
    nothing else keeps a resolved file out. *)
Theorem FindFiles_complete (w : World) (workDir : string) (patterns excludes : list string)
    (file : string) :
  let workDir' := effectiveWorkDir workDir in
  let r := FindFiles w workDir patterns excludes in
  r.2 = None →
  (file ∈ r.1 ↔
   file ∈ merged w workDir' patterns ∧
   ∀ exclude, exclude ∈ excludes → TrimSpace exclude ≠ "" →
              ¬ excludedBy workDir' file (TrimSpace exclude)).
Proof.
  intros workDir' r Hok. subst r.
  pose proof (FindFiles_merge w workDir patterns excludes) as Hm. cbv zeta in Hm.
  destruct Hm as [[[e He] _]|[_ ->]]; [congruence|].
  rewrite list_elem_of_filter, firstOccurrences_elem. fold workDir'.
  assert (Hne : file ∈ merged w workDir' patterns → file ≠ "").
  { pose proof (merged_nonempty w workDir' patterns (effectiveWorkDir_nonempty workDir)) as Hall.
    rewrite Forall_forall in Hall. apply Hall. }
  unfold kept. split.
  - intros (Hkept & Hin & _). split; [done|]. intros exclude Hex Hblank Hby.
    assert (shouldExclude file workDir' excludes = true) as Htrue; [|congruence].
    apply shouldExclude_excludedBy; eauto.
  - intros [Hin Hnone]. split_and!; [|done|set_solver].
    destruct (shouldExclude file workDir' excludes) eqn:Hs; [|done].
    apply shouldExclude_excludedBy in Hs as (exclude & ? & ? & ?); [|by apply Hne].
    by destruct (Hnone exclude).
Qed.

End Resolution.

(** ** Patterns without metacharacters *)

Section Literal.
Import GoStrings Filepath FilepathFS Files.

Lemma findLoop_includePatterns w workDir excludes patterns st :
  findLoop w workDir excludes (includePatterns patterns) st =
    findLoop w workDir excludes patterns st.
Proof.
  revert st. induction patterns as [|pattern rest IH]; intros st; [done|].
  unfold includePatterns. rewrite fmap_cons, filter_cons. fold (includePatterns rest).
  cbn [findLoop]. case_bool_decide as Hempty.
  { rewrite decide_False by (by intros ?). apply IH. }
  rewrite decide_True by done. cbn [findLoop]. rewrite TrimSpace_idem.
  rewrite bool_decide_eq_false_2 by done.
  repeat case_match; try done; apply IH.
Qed.

(** X21.  FindFiles treats its include patterns as trimmed of white
    space, the empty ones dropped: it returns the same for the patterns as
    given and for the trimmed, non-empty ones. *)
Theorem FindFiles_trims_patterns (w : World) (workDir : string)
    (patterns excludes : list string) :
  FindFiles w workDir patterns excludes =
    FindFiles w workDir (includePatterns patterns) excludes.
Proof. unfold FindFiles. by rewrite findLoop_includePatterns. Qed.

(** *** Patterns without metacharacters *)

Lemma hasMeta_cons c s :
  hasMeta (String c s) = false ↔
  (c ≠ "*" ∧ c ≠ "?" ∧ c ≠ "[" ∧ c ≠ "\")%char ∧ hasMeta s = false.
Proof.
  unfold hasMeta. cbn [ContainsAny]. rewrite orb_false_iff, bool_decide_eq_false.
  set_solver.
Qed.

Lemma skipStars_literal p : startsWith "*" p = false → skipStars p = (false, p).
Proof.
  destruct p as [|c p]; [done|]. cbn [startsWith skipStars]. by intros ->.
Qed.

Lemma scanLoop_literal inrange p : hasMeta p = false → scanLoop inrange p = (p, "").
Proof.
  revert inrange. induction p as [|c p IH]; intros inrange; [done|].
  intros [(Hstar & _ & Hopen & Hesc) Hp]%hasMeta_cons. cbn [scanLoop].
  rewrite (bool_decide_eq_false_2 (c = "\"%char)) by done.
  rewrite (bool_decide_eq_false_2 (c = "["%char)) by done.
  rewrite (bool_decide_eq_false_2 (c = "*"%char)) by done. cbn [andb].
  case_bool_decide; by rewrite IH.
Qed.

Lemma scanChunk_literal p : hasMeta p = false → scanChunk p = (false, p, "").
Proof.
  intros Hp. unfold scanChunk. rewrite skipStars_literal.
  - by rewrite scanLoop_literal.
  - destruct p as [|c p]; [done|]. apply hasMeta_cons in Hp as [(Hstar & _) _].
    cbn [startsWith]. by apply bool_decide_eq_false_2.
Qed.

Lemma matchChunkLoop_literal fuel p rest :
  hasMeta p = false → String.length p < fuel →
  matchChunkLoop fuel p (p +:+ rest) false = (rest, true, None).
Proof.
  revert p. induction fuel as [|fuel IH]; intros p Hp Hlen; [lia|].
  destruct p as [|c p]; [done|].
  apply hasMeta_cons in Hp as [(Hstar & Hq & Hopen & Hesc) Hp].
  cbn [String.length] in Hlen. rewrite append_cons. cbn [matchChunkLoop].
  rewrite (bool_decide_eq_false_2 (c = "["%char)) by done.
  rewrite (bool_decide_eq_false_2 (c = "?"%char)) by done.
  rewrite (bool_decide_eq_false_2 (c = "\"%char)) by done.
  rewrite (bool_decide_eq_false_2 (String c (p +:+ rest) = "")) by done. cbn [orb].
  rewrite (bool_decide_eq_true_2 (c = c)) by done. cbn [negb]. apply IH; [done|lia].
Qed.

(** A pattern without metacharacters matches itself. *)
Lemma Match_literal p : hasMeta p = false → Match p p = (true, None).
Proof.
  intros Hp. rewrite Match_eq. case_bool_decide as Hempty; [by subst|].
  rewrite scanChunk_literal by done. cbn [andb].
  unfold matchChunk. rewrite <- (append_nil_r p) at 3.
  rewrite matchChunkLoop_literal by (done || lia).
  cbn [andb orb]. rewrite bool_decide_eq_true_2 by done. cbn [orb]. by rewrite Match_eq.
Qed.

(** X24.  An exclusion entry without metacharacters that is, trimmed, the
    base name of a file or its path relative to the working directory
    excludes the file. *)
Theorem shouldExclude_by_name (file workDir : string) (excludes : list string)
    (exclude : string) :
  exclude ∈ excludes →
  hasMeta (TrimSpace exclude) = false →
  TrimSpace exclude = Base file ∨ TrimSpace exclude = relativeTo workDir file →
  file ≠ "" →
  shouldExclude file workDir excludes = true.
Proof.
  intros Hin Hmeta Hname Hfile. apply shouldExclude_excludedBy; [done|].
  exists exclude. split; [done|].
  assert (Hm : matches (TrimSpace exclude) (TrimSpace exclude) = true).
  { unfold matches. by rewrite Match_literal. }
  destruct Hname as [Hname|Hname].
  - split; [rewrite Hname; apply Base_nonempty|]. apply byBaseName. by rewrite <- Hname.
  - split; [rewrite Hname; by apply relativeTo_nonempty|]. apply byRelativePath.
    by rewrite <- Hname.
Qed.

End Literal.

Section LiteralPatterns.
Import GoStrings Filepath FilepathFS Files.

Lemma matchChunkLoop_literal_ok fuel p s failed :
  hasMeta p = false → String.length p < fuel →
  (matchChunkLoop fuel p s failed).2 = None.
Proof.
  revert p s failed. induction fuel as [|fuel IH]; intros p s failed Hp Hlen; [lia|].
  destruct p as [|c p]; [by destruct failed|].
  apply hasMeta_cons in Hp as [(Hstar & Hq & Hopen & Hesc) Hp].
  cbn [String.length] in Hlen. cbn [matchChunkLoop].
  rewrite (bool_decide_eq_false_2 (c = "["%char)) by done.
  rewrite (bool_decide_eq_false_2 (c = "?"%char)) by done.
  rewrite (bool_decide_eq_false_2 (c = "\"%char)) by done.
  destruct s; [|destruct (failed || _)]; apply IH; (done || lia).
Qed.

Lemma Match_literal_ok p s : hasMeta p = false → (Match p s).2 = None.
Proof.
  intros Hp. rewrite Match_eq. case_bool_decide as Hempty; [done|].
  rewrite scanChunk_literal by done. cbn [andb].
  pose proof (matchChunkLoop_literal_ok (S (String.length p)) p s false Hp) as Herr.
  fold (matchChunk p s) in Herr.
  destruct (matchChunk p s) as [[t ok] err]. cbn [snd] in Herr. rewrite Herr by lia.
  destruct (ok && _); [by rewrite Match_eq|done].
Qed.

Lemma Contains_globstar_meta p : hasMeta p = false → Contains p "**" = false.
Proof.
  induction p as [|c p IH]; [done|].
  intros [(Hstar & _) Hp]%hasMeta_cons. cbn [Contains]. rewrite IH by done.
  rewrite orb_false_r. unfold HasPrefix.
  change (String.prefix "**" (String c p))
    with (if ascii_dec "*" c then String.prefix "*" p else false).
  by destruct (ascii_dec "*" c) as [<-|].
Qed.

Lemma Glob_literal w p :
  hasMeta p = false →
  Glob w p = (if bool_decide (is_Some (entryAt w p)) then [p] else [], None).
Proof.
  intros Hp. unfold Glob. rewrite globWithLimit_S.
  rewrite bool_decide_eq_false_2 by done.
  pose proof (Match_literal_ok p "" Hp) as Herr.
  destruct (Match p "") as [m err]. cbn [snd] in Herr. subst err.
  rewrite Hp. cbn [negb]. unfold Os.Lstat, entryAt.
  destruct (Os.nodeAt w p) as [[]|]; cbn [entryOf].
  - by rewrite bool_decide_eq_true_2 by eauto.
  - by rewrite bool_decide_eq_true_2 by eauto.
  - by rewrite bool_decide_eq_false_2 by (by intros [? [=]]).
Qed.

(** X25.  An include pattern without metacharacters, in a working
    directory without any, names one path, the working directory joined
    with it.  FindFiles returns that path when it is a file that is not a
    directory and not excluded, and nothing otherwise; a file that is not
    there is no error. *)
Theorem FindFiles_literal (w : World) (workDir pattern : string) (excludes : list string) :
  let p := TrimSpace pattern in
  let workDir' := effectiveWorkDir workDir in
  let full := Filepath.Join [workDir'; p] in
  p ≠ "" → hasMeta p = false → hasMeta full = false →
  FindFiles w workDir [pattern] excludes =
    (if isRegular w full && negb (shouldExclude full workDir' excludes) then [full] else [],
     None).
Proof.
  intros p workDir' full Hp Hmeta Hfull. unfold FindFiles. fold workDir'.
  cbn [findLoop]. fold p. rewrite bool_decide_eq_false_2 by done.
  rewrite Contains_globstar_meta by done. fold full. rewrite Glob_literal by done.
  unfold isRegular, Os.Stat, entryAt.
  destruct (Os.nodeAt w full) as [[data|entries]|e] eqn:Hn; cbn [entryOf].
  - rewrite bool_decide_eq_true_2 by eauto. cbn [addGlobbed]. unfold seenAt.
    rewrite lookup_empty. cbn [default]. unfold Os.Stat. rewrite Hn. cbn [infoOf IsDir negb andb].
    by destruct (shouldExclude full workDir' excludes).
  - rewrite bool_decide_eq_true_2 by eauto. cbn [addGlobbed]. unfold seenAt.
    rewrite lookup_empty. cbn [default]. unfold Os.Stat. by rewrite Hn.
  - by rewrite bool_decide_eq_false_2 by (by intros [? [=]]).
Qed.

End LiteralPatterns.

(** ** The files FindFiles returns are there *)

Section Names.
Import GoStrings Filepath FilepathFS Files.

(** X26.  When no include pattern has a recursive wildcard, every path
    FindFiles returns has passed the test of os.Stat: the call succeeds on
    it and reports no directory, so that the path names a file that is
    there. *)
Theorem FindFiles_returns_files (w : World) (workDir : string)
    (patterns excludes : list string) :
  Forall (λ p, Contains (TrimSpace p) "**" = false) patterns →
  Forall (λ f, (∃ info, Os.Stat w f = (Some info, None) ∧ IsDir info = false) ∧
               ∃ data, entryAt w f = Some (IsFile data))
    (FindFiles w workDir patterns excludes).1.
Proof.
  intros Hplain.
  pose proof (FindFiles_merge w workDir patterns excludes) as Hm. cbv zeta in Hm.
  destruct Hm as [[_ ->]|[_ ->]]; [constructor|].
  apply Forall_forall. intros f [_ Hin]%list_elem_of_filter.
  apply firstOccurrences_elem in Hin as [Hin _].
  unfold merged in Hin. apply elem_of_concat in Hin as (l & Hf & Hl).
  apply list_elem_of_fmap in Hl as (p & -> & Hp).
  unfold includePatterns in Hp. apply list_elem_of_filter in Hp as [_ Hp].
  apply list_elem_of_fmap in Hp as (p0 & -> & Hp0).
  rewrite Forall_forall in Hplain. specialize (Hplain p0 Hp0).
  unfold resolvedBy in Hf. rewrite Hplain in Hf.
  apply list_elem_of_filter in Hf as [Hreg _].
  split; [|by apply isRegular_entryAt].
  unfold isRegular in Hreg. destruct (Os.Stat w f) as [[info|] [e|]]; try done.
  exists info. split; [done|]. by destruct (IsDir info).
Qed.

End Names.

(** ** What a run with the library writes *)

Section Frame.
Import Main.
Context `{OpenPGP, Programs}.
Local Arguments parseMultilineInput : simpl never.

Lemma GoPGPSigner_SignFile_writes_only (s s' : GoPGP.GoPGPSigner) f opts w err w' p :
  SignFile s f opts w = ((s', err), w') →
  Os.resolve w p ≠ Os.resolve w (f +:+ getOutputExtension opts) →
  entryAt w' p = entryAt w p.
Proof.
  cbn. unfold mbind, IO_bind, mret, IO_ret.
  destruct (GoPGP.GoPGPSigner_SignFile s f opts w) as [r w1] eqn:Hcall.
  intros [= <- <- <-] Hp.
  apply GoPGPSigner_SignFile_cases in Hcall as [[_ ->]|[_ (data & signature & _ & _ & Hw)]];
    [done|].
  by eapply WriteFile_entryAt_other.
Qed.

Lemma signEach_gopgp_writes_only (s s' : GoPGP.GoPGPSigner) files opts w err w' p :
  signEach s files opts w = ((s', err), w') →
  Forall (λ f, Os.resolve w p ≠ Os.resolve w (f +:+ getOutputExtension opts)) files →
  entryAt w' p = entryAt w p.
Proof.
  revert w. induction files as [|file rest IH]; intros w.
  - cbn. unfold mret, IO_ret. by intros [= <- <- <-].
  - cbn [signEach]. unfold mbind at 1. unfold IO_bind.
    destruct (SignFile s file opts w) as [[s1 e] w1] eqn:Hfile.
    intros Hrest [Hp Hall]%Forall_cons.
    pose proof (GoPGPSigner_SignFile_frame _ _ _ _ _ _ _ Hfile) as (-> & _ & Hcwd & _).
    pose proof (GoPGPSigner_SignFile_writes_only _ _ _ _ _ _ _ p Hfile Hp) as Hkeep.
    destruct e as [e|].
    + unfold mret, IO_ret in Hrest. by injection Hrest as <- <- <-.
    + rewrite <- Hkeep. apply (IH w1); [done|].
      eapply Forall_impl; [exact Hall|]. cbn. intros f Hf.
      by rewrite !(resolve_cwd w w1).
Qed.

(** X17.  A run with the gopgp backend, whether it fails or not, changes
    nothing but the signature paths of the files FindFiles selects: a name
    that denotes another place than every selected path with the extension
    appended denotes after the run what it did before. *)
Theorem run_gopgp_writes_only_signatures (args : ActionInputs) (w0 : World) (p : string) :
  Backend args = BackendGoPGP →
  let opts := mkSignOptions (Armor args) (DetachSign args) (ClearSign args) in
  let workDir := (resolveWorkDir args w0).1.1 in
  let files :=
    (Files.FindFiles w0 workDir (parseMultilineInput (Files args))
       (parseMultilineInput (Excludes args))).1 in
  Forall (λ f, Os.resolve w0 p ≠ Os.resolve w0 (f +:+ getOutputExtension opts)) files →
  entryAt (run args None None w0).2 p = entryAt w0 p.
Proof.
  intros Hbackend opts workDir files Hp.
  unfold run, NewSigner. rewrite Hbackend.
  rewrite bool_decide_eq_true_2 by done.
  pose proof (NewGoPGPSigner_xor (PrivateKey args) (Passphrase args)) as Hxor.
  destruct (GoPGP.NewGoPGPSigner (PrivateKey args) (Passphrase args)) as [pointer [e|]];
    unfold mbind, IO_bind, mret, IO_ret; cbn [fst snd]; [done|].
  destruct pointer as [signer|]; [|by destruct (proj2 Hxor eq_refl)].
  cbn [default]. subst workDir.
  pose proof (resolveWorkDir_world args w0) as Hw.
  destruct (resolveWorkDir args w0) as [[workDir [e|]] w2]; cbn [fst snd] in *; subst w2;
    [done|].
  cbn [FindFiles DefaultFileFinder_FileFinder]. unfold gets. subst files.
  destruct (Files.FindFiles w0 workDir _ _) as [files [e|]] eqn:Hfind; cbn [fst snd] in *;
    [done|].
  case_bool_decide as Hlen; [done|].
  fold opts. rewrite signEach_gopgp_pointer.
  destruct (signEach signer files opts w0) as [[s' err] w3] eqn:Hsign. cbn [fst snd].
  by eapply signEach_gopgp_writes_only.
Qed.

End Frame.

(** ** The action output *)

Section Output.
Import Os OsFile MainOutput.

Lemma updateNode_lookup_same n elems f n' :
  updateNode n elems f = inl n' →
  entryOf (lookupNode n elems) ≠ Some IsDirectory ∧
  lookupNode n' elems = inl (File (f (contentOf (entryOf (lookupNode n elems))))).
Proof.
  revert n n'. induction elems as [|e rest IH]; intros n n'; simpl.
  - destruct n as [old|]; [|done]. by intros [= <-].
  - destruct n as [|entries]; [done|].
    destruct (assoc e entries) as [child|] eqn:He.
    + destruct (updateNode child rest f) as [child'|] eqn:Hw; [|done].
      intros [= <-]. simpl. erewrite assoc_replaceEntry by done.
      rewrite bool_decide_eq_true_2 by done. by apply IH.
    + destruct rest; [|done]. intros [= <-]. simpl.
      rewrite assoc_insertEntry by done. by rewrite bool_decide_eq_true_2.
Qed.

Lemma updateNode_lookup_other n elems f n' other :
  updateNode n elems f = inl n' → other ≠ elems →
  entryOf (lookupNode n' other) = entryOf (lookupNode n other).
Proof.
  revert n n' other. induction elems as [|e rest IH]; intros n n' other; simpl.
  - destruct n; [|done]. intros [= <-] Hne. by destruct other.
  - destruct n as [|entries]; [done|].
    destruct (assoc e entries) as [child|] eqn:He.
    + destruct (updateNode child rest f) as [child'|] eqn:Hw; [|done].
      intros [= <-] Hne. destruct other as [|o orest]; [done|]. simpl.
      erewrite assoc_replaceEntry by done. case_bool_decide as Heo; [|done].
      subst o. rewrite He. apply IH; [done|congruence].
    + destruct rest; [|done]. intros [= <-] Hne. destruct other as [|o orest]; [done|].
      simpl. rewrite assoc_insertEntry by done. case_bool_decide as Heo; [|done].
      subst o. rewrite He. destruct orest; [done|]. done.
Qed.

(** What has been opened can be written to. *)
Lemma updateNode_again n elems f g n' :
  updateNode n elems f = inl n' → ∃ n'', updateNode n' elems g = inl n''.
Proof.
  revert n n'. induction elems as [|e rest IH]; intros n n'; simpl.
  - destruct n as [old|]; [|done]. intros [= <-]. eauto.
  - destruct n as [|entries]; [done|].
    destruct (assoc e entries) as [child|] eqn:He.
    + destruct (updateNode child rest f) as [child'|] eqn:Hw; [|done].
      intros [= <-]. simpl. erewrite assoc_replaceEntry by done.
      rewrite bool_decide_eq_true_2 by done.
      destruct (IH _ _ Hw) as [n'' ->]. eauto.
    + destruct rest; [|done]. intros [= <-]. simpl.
      rewrite assoc_insertEntry by done. rewrite bool_decide_eq_true_2 by done. eauto.
Qed.


Lemma updateNode_file n elems f old :
  lookupNode n elems = inl (File old) → ∃ n', updateNode n elems f = inl n'.
Proof.
  revert n. induction elems as [|e rest IH]; intros n; simpl.
  - intros [= ->]. eauto.
  - destruct n as [|entries]; [done|].
    destruct (assoc e entries) as [child|] eqn:He; [|done].
    intros [n' ->]%IH. eauto.
Qed.

Lemma OpenFile_append_success path w f w1 :
  OpenFile_append path w = ((Some f, None), w1) →
  ∃ elems,
    resolve w path = Some elems ∧ f = mkFileHandle path elems ∧
    updateNode (root w) elems id = inl (root w1) ∧
    cwd w1 = cwd w ∧ environ w1 = environ w ∧ procs w1 = procs w.
Proof.
  unfold OpenFile_append. destruct (resolve w path) as [elems|]; [|done].
  destruct (updateNode (root w) elems id) as [r|] eqn:Hu; [|done].
  intros [= <- <-]. by exists elems.
Qed.

Lemma OpenFile_append_failure path w f err w1 :
  OpenFile_append path w = ((f, Some err), w1) → f = None ∧ w1 = w.
Proof.
  unfold OpenFile_append. destruct (resolve w path) as [elems|]; [|by intros [= <- _ <-]].
  destruct (updateNode (root w) elems id) as [r|] eqn:Hu; [done|]. by intros [= <- _ <-].
Qed.

Lemma OpenFile_append_file path w old :
  entryAt w path = Some (IsFile old) → (OpenFile_append path w).1.2 = None.
Proof.
  unfold entryAt, nodeAt, OpenFile_append. destruct (resolve w path) as [elems|]; [|done].
  destruct (lookupNode (root w) elems) as [[data|]|] eqn:Hl; try done. intros _.
  destruct (updateNode_file _ _ id _ Hl) as [n' ->]. done.
Qed.

Lemma OpenFile_append_directory path w :
  entryAt w path = Some IsDirectory →
  OpenFile_append path w = ((None, Some (PathError "open" path EISDIR)), w).
Proof.
  unfold entryAt, nodeAt, OpenFile_append. destruct (resolve w path) as [elems|]; [|done].
  destruct (lookupNode (root w) elems) as [[data|entries]|] eqn:Hl; try done. intros _.
  assert (updateNode (root w) elems id = inr EISDIR) as ->; [|done].
  clear -Hl. revert Hl. generalize (root w). induction elems as [|e rest IH]; intros n; simpl.
  - by intros [= ->].
  - destruct n as [|es]; [done|]. destruct (assoc e es) as [child|]; [|done].
    intros Hc. by rewrite (IH _ Hc).
Qed.

(** The file of outputs after setActionOutput has appended to it. *)
Lemma setActionOutput_file name value c w path :
  environ w !! "GITHUB_OUTPUT" = Some path → path ≠ "" →
  (OpenFile_append path w).1.2 = None →
  ∃ w',
    setActionOutput name value c w = (c, w') ∧
    entryAt w' path =
      Some (IsFile (contentOf (entryAt w path) +:+ outputLine name value)) ∧
    (∀ p, resolve w p ≠ resolve w path → entryAt w' p = entryAt w p) ∧
    cwd w' = cwd w ∧ environ w' = environ w ∧ procs w' = procs w.
Proof.
  intros Henv Hpath Hopen. unfold setActionOutput, Getenv, gets. rewrite Henv.
  change (default "" (Some path)) with path.
  rewrite bool_decide_eq_false_2 by done.
  destruct (OpenFile_append path w) as [[f [err|]] w1] eqn:Ho; [done|]. clear Hopen.
  destruct f as [f|].
  2:{ unfold OpenFile_append in Ho. repeat case_match; simplify_eq. }
  apply OpenFile_append_success in Ho as (elems & Hres & -> & Hu & Hcwd & Henv1 & Hprocs).
  unfold WriteString. cbn [handlePlace handleName].
  destruct (updateNode_again _ _ _ (λ old, old +:+ name +:+ "=" +:+ value +:+ Main.newline) _ Hu)
    as [r Hr].
  rewrite Hr. eexists. split; [done|].
  pose proof (updateNode_lookup_same _ _ _ _ Hu) as [_ H1].
  pose proof (updateNode_lookup_same _ _ _ _ Hr) as [_ H2].
  rewrite H1 in H2. cbn [entryOf contentOf id] in H2.
  unfold entryAt, nodeAt, setRoot. cbn [root cwd environ procs].
  split_and!; try done.
  - rewrite (resolve_cwd w1 (mkWorld r (cwd w1) (environ w1) (procs w1))) by done.
    rewrite (resolve_cwd w w1) by done. rewrite Hres, H2. by unfold outputLine.
  - intros p Hp.
    rewrite (resolve_cwd w1 (mkWorld r (cwd w1) (environ w1) (procs w1))) by done.
    rewrite (resolve_cwd w w1) by done. rewrite Hres in Hp.
    destruct (resolve w p) as [other|]; [|done]. cbn [root].
    rewrite (updateNode_lookup_other _ _ _ _ other Hr) by congruence.
    by rewrite (updateNode_lookup_other _ _ _ _ other Hu) by congruence.
Qed.


(** X27.  When GITHUB_OUTPUT names a file that can be opened for
    appending, setActionOutput appends the line [name=value] and a line
    break to what the file held (to nothing if it was not there), prints
    nothing, and changes nothing else. *)
Theorem setActionOutput_appends (name value : string) (c : Console) (w : World)
    (path : string) :
  environ w !! "GITHUB_OUTPUT" = Some path → path ≠ "" →
  (OpenFile_append path w).1.2 = None →
  ∃ w',
    setActionOutput name value c w = (c, w') ∧
    entryAt w' path =
      Some (IsFile (contentOf (entryAt w path) +:+ outputLine name value)) ∧
    (∀ p, resolve w p ≠ resolve w path → entryAt w' p = entryAt w p) ∧
    cwd w' = cwd w ∧ environ w' = environ w ∧ procs w' = procs w.
Proof. apply setActionOutput_file. Qed.

(** X28.  When GITHUB_OUTPUT is not set or empty, setActionOutput prints
    the workflow command [::set-output name=<name>::<value>] on standard
    output and leaves the file system alone.  When the file cannot be
    opened it prints a warning with the error on standard error, then the
    same command, and leaves the file system alone; a directory in the
    place of the file is such a case, with the error "open <path>: is a
    directory". *)
Theorem setActionOutput_falls_back (name value : string) (c : Console) (w : World) :
  let path := default "" (environ w !! "GITHUB_OUTPUT") in
  let command := setOutputCommand name value in
  (path = "" → setActionOutput name value c w = (Printf command c, w)) ∧
  (∀ err, path ≠ "" → (OpenFile_append path w).1.2 = Some err →
     setActionOutput name value c w =
       (Printf command
          (Fprintf_stderr
             ("Warning: failed to open GITHUB_OUTPUT file: " +:+ Error err +:+ Main.newline) c),
        w)) ∧
  (path ≠ "" → entryAt w path = Some IsDirectory →
     (OpenFile_append path w).1.2 = Some (PathError "open" path EISDIR) ∧
     Error (PathError "open" path EISDIR) = "open " +:+ path +:+ ": is a directory").
Proof.
  intros path command. subst path command. unfold setActionOutput, Getenv, gets.
  split_and!.
  - intros ->. by rewrite bool_decide_eq_true_2.
  - intros err Hpath Hopen. rewrite bool_decide_eq_false_2 by done.
    destruct (OpenFile_append _ w) as [[f [e|]] w1] eqn:Ho; [|done].
    cbn [fst snd] in Hopen. injection Hopen as ->.
    by apply OpenFile_append_failure in Ho as [-> ->].
  - intros Hpath Hdir. rewrite (OpenFile_append_directory _ _ Hdir). split; [done|].
    unfold PathError. cbn [Error EISDIR]. by rewrite !append_assoc.
Qed.

(** X29.  setActionOutput writes names and values as they are.  Two
    outputs set one after the other are two lines of the file, in that
    order; and one output whose value holds a line break followed by
    [name2=value2] leaves the file exactly as the two outputs do. *)
Theorem setActionOutput_unescaped (name value name2 value2 : string) (c : Console)
    (w : World) (path : string) :
  environ w !! "GITHUB_OUTPUT" = Some path → path ≠ "" →
  (OpenFile_append path w).1.2 = None →
  let injected := value +:+ Main.newline +:+ name2 +:+ "=" +:+ value2 in
  let one := setActionOutput name injected c w in
  let first := setActionOutput name value c w in
  let two := setActionOutput name2 value2 first.1 first.2 in
  one.1 = c ∧ two.1 = c ∧
  entryAt two.2 path =
    Some (IsFile (contentOf (entryAt w path) +:+ outputLine name value
                    +:+ outputLine name2 value2)) ∧
  entryAt one.2 path = entryAt two.2 path.
Proof.
  intros Henv Hpath Hopen injected one first two. subst one first two.
  destruct (setActionOutput_file name injected c w path Henv Hpath Hopen)
    as (w1 & -> & Hone & _).
  destruct (setActionOutput_file name value c w path Henv Hpath Hopen)
    as (w2 & -> & Hfirst & _ & _ & Henv2 & _).
  cbn [fst snd].
  destruct (setActionOutput_file name2 value2 c w2 path) as (w3 & -> & Htwo & _).
  { by rewrite Henv2. }
  { done. }
  { by eapply OpenFile_append_file. }
  cbn [fst snd]. rewrite Hfirst in Htwo. cbn [contentOf] in Htwo.
  rewrite append_assoc in Htwo. split_and!; [done|done|done|].
  rewrite Hone, Htwo. subst injected. unfold outputLine. by rewrite !append_assoc.
Qed.

End Output.

(** ** The test doubles and the working directory *)

Section Doubles.
Import Main.
Context `{OpenPGP, Programs}.
Local Arguments parseMultilineInput : simpl never.

Lemma signEach_mock (m : MockSigner.MockSigner) (files : list string) (opts : SignOptions)
    (w : World) :
  MockSigner.Err m = None →
  signEach m files opts w =
    ((MockSigner.mkMockSigner (MockSigner.SignedFiles m ++ files)
        (MockSigner.SignedOpts m ++ replicate (length files) opts) None, None), w).
Proof.
  revert m. induction files as [|file rest IH]; intros [sf so err] Herr; cbn in Herr; subst err.
  - cbn. unfold mret, IO_ret. by rewrite !app_nil_r.
  - cbn [signEach SignFile MockSigner.MockSigner_Signer MockSigner.Err].
    unfold mbind, IO_bind, mret, IO_ret.
    rewrite IH by done. cbn [MockSigner.SignedFiles MockSigner.SignedOpts length replicate].
    by rewrite <- !app_assoc.
Qed.

(** X7.  A run with the test doubles, neither set to fail: run returns no
    error; the mock signer has recorded the files of the mock finder, in
    order, after what it had recorded before, each with the options of the
    arguments; the mock finder has recorded the working directory of the
    run; the machine is untouched. *)
Theorem run_with_mocks (args : ActionInputs) (signer : MockSigner.MockSigner)
    (finder : MockFileFinder.MockFileFinder) (workDir : string) (w0 w1 : World) :
  let opts := mkSignOptions (Armor args) (DetachSign args) (ClearSign args) in
  resolveWorkDir args w0 = ((workDir, None), w1) →
  MockSigner.Err signer = None →
  MockFileFinder.Err finder = None →
  run args (Some (mkSigner signer)) (Some (mkFileFinder finder)) w0 =
    (mkOutcome None
       (Some (mkSigner
          (MockSigner.mkMockSigner
             (MockSigner.SignedFiles signer ++ MockFileFinder.Files finder)
             (MockSigner.SignedOpts signer
                ++ replicate (length (MockFileFinder.Files finder)) opts)
             None)))
       (Some (mkFileFinder
          (MockFileFinder.mkMockFileFinder (MockFileFinder.Files finder) None workDir))),
     w0).
Proof.
  intros opts Hwd Hs Hf.
  pose proof (resolveWorkDir_world args w0) as Hw. rewrite Hwd in Hw. cbn in Hw. subst w1.
  unfold run. cbn. unfold mbind, IO_bind, mret, IO_ret. rewrite Hwd, Hf. cbn.
  unfold mret, IO_ret. destruct signer as [sf so err], finder as [files ferr last].
  cbn in *. subst err ferr. case_bool_decide as Hlen.
  - destruct files; [|done]. cbn. by rewrite !app_nil_r.
  - fold opts. by rewrite signEach_mock.
Qed.

(** X8.  A run with a mock signer set to fail and a mock finder that
    returns files: run returns the error of the signer wrapped with the
    path of the first file, and the signer has recorded nothing. *)
Theorem run_with_failing_mock (args : ActionInputs) (signer : MockSigner.MockSigner)
    (finder : MockFileFinder.MockFileFinder) (workDir : string) (w0 w1 : World)
    (cause : error) (file : string) (rest : list string) :
  resolveWorkDir args w0 = ((workDir, None), w1) →
  MockSigner.Err signer = Some cause →
  MockFileFinder.Err finder = None →
  MockFileFinder.Files finder = file :: rest →
  run args (Some (mkSigner signer)) (Some (mkFileFinder finder)) w0 =
    (mkOutcome (Some (Wrap ("failed to sign file " +:+ file +:+ ": ") cause))
       (Some (mkSigner signer))
       (Some (mkFileFinder
          (MockFileFinder.mkMockFileFinder (file :: rest) None workDir))),
     w0).
Proof.
  intros Hwd Hs Hf Hfiles.
  pose proof (resolveWorkDir_world args w0) as Hw. rewrite Hwd in Hw. cbn in Hw. subst w1.
  unfold run. cbn. unfold mbind, IO_bind, mret, IO_ret. rewrite Hwd, Hf. cbn.
  unfold mret, IO_ret. rewrite Hfiles. cbn. unfold mbind, IO_bind, mret, IO_ret.
  by rewrite Hs.
Qed.

(** X6.  The working directory of a run is the WorkDir input when it is
    not empty, else the value of GITHUB_WORKSPACE when it is set and not
    empty, else the current directory; only when all three fail is there
    an error.  Finding it changes nothing. *)
Theorem resolveWorkDir_precedence (args : ActionInputs) (w : World) :
  let env := default "" (environ w !! "GITHUB_WORKSPACE") in
  resolveWorkDir args w =
    (if bool_decide (WorkDir args ≠ "") then (WorkDir args, None)
     else if bool_decide (env ≠ "") then (env, None)
     else
       match cwd w with
       | Some d => (Filepath.sep +:+ GoStrings.Join d Filepath.sep, None)
       | None =>
           ("", Some (Wrap "failed to get working directory: " (Wrap "getwd: " Os.ENOENT)))
       end,
     w).
Proof.
  intros env. subst env.
  unfold resolveWorkDir, mbind, IO_bind, mret, IO_ret, Os.Getenv, Os.Getwd, gets.
  destruct (bool_decide_reflect (WorkDir args = "")) as [->|Hwd].
  - rewrite (bool_decide_eq_false_2 ("" ≠ "")) by (by intros ?).
    destruct (bool_decide_reflect (default "" (environ w !! "GITHUB_WORKSPACE") = "")) as [He|He].
    + rewrite (bool_decide_eq_false_2 (_ ≠ "")) by (by intros ?).
      by destruct (cwd w).
    + by rewrite (bool_decide_eq_true_2 (_ ≠ "")).
  - rewrite (bool_decide_eq_true_2 (_ ≠ "")) by done.
    by rewrite bool_decide_eq_false_2.
Qed.

End Doubles.

(** ** The log level *)

Section LogLevel.
Import MainOutput.

Lemma toLower_toUpper c : toLower (toUpper c) = toLower c.
Proof. by destruct c as [[] [] [] [] [] [] [] []]. Qed.

Lemma toLower_idem c : toLower (toLower c) = toLower c.
Proof. by destruct c as [[] [] [] [] [] [] [] []]. Qed.

Lemma ToLower_ToUpper s : ToLower (ToUpper s) = ToLower s.
Proof. induction s as [|c s IH]; [done|]. cbn [ToUpper ToLower]. by rewrite toLower_toUpper, IH. Qed.

Lemma ToLower_idem s : ToLower (ToLower s) = ToLower s.
Proof. induction s as [|c s IH]; [done|]. cbn [ToLower]. by rewrite toLower_idem, IH. Qed.

(** X30.  stringToLogLevel does not look at the case of ASCII letters; it
    returns one of the four levels, and the level Info for every text that
    is not, in lower case, "debug", "warn" or "error". *)
Theorem stringToLogLevel_case_insensitive (level : string) :
  stringToLogLevel (ToUpper level) = stringToLogLevel level ∧
  stringToLogLevel (ToLower level) = stringToLogLevel level ∧
  stringToLogLevel level ∈ [Slog.LevelDebug; Slog.LevelInfo; Slog.LevelWarn; Slog.LevelError] ∧
  (ToLower level ∉ ["debug"; "warn"; "error"] → stringToLogLevel level = Slog.LevelInfo).
Proof.
  unfold stringToLogLevel. rewrite ToLower_ToUpper, ToLower_idem. split_and!; try done.
  - repeat case_bool_decide; set_solver.
  - intros Hnot. repeat case_bool_decide; try done; set_solver.
Qed.

End LogLevel.

(** ** Examples *)

Section Examples.
Import GoStrings Main.

(** The patterns of the test "glob patterns". *)
Lemma parseMultilineInput_round_trip_witness :
  parseMultilineInput (GoStrings.Join ["dist/*"; "*.tar.gz"; "**/*.bin"] newline) =
    ["dist/*"; "*.tar.gz"; "**/*.bin"].
Proof.
  apply (parseMultilineInput_round_trip ["dist/*"; "*.tar.gz"; "**/*.bin"]).
  repeat constructor; done.
Defined.


(** One text file in the working directory, signed. *)
Lemma run_signs_every_file_witness :
  ∃ w3,
    @run Example.library Example.programs exampleArgs
      (Some (mkSigner (mkNoting [] exampleSigner))) (Some (mkFileFinder ())) deepTree =
      (mkOutcome None
         (Some (mkSigner (mkNoting [("/w/top.txt", exampleOpts)] exampleSigner)))
         (Some (mkFileFinder ())),
       w3).
Proof.
  eexists.
  apply (@run_signs_every_file Example.library Example.programs _ _ _ _ exampleArgs
    exampleSigner exampleSigner () () "/w" ["/w/top.txt"] deepTree deepTree deepTree).
  - reflexivity.
  - reflexivity.
  - eapply SignsAll_cons; [vm_compute; reflexivity|apply SignsAll_nil].
Defined.

(** A malformed include pattern: the finder fails and nothing is signed. *)
Lemma run_finder_error_witness :
  @run Example.library Example.programs
    (mkActionInputs "PRIVATE KEY" "" true true false "[a" "" "/w" "gopgp" "info")
    (Some (mkSigner (mkNoting [] exampleSigner))) (Some (mkFileFinder ())) threeFiles =
    (mkOutcome
       (Some (Wrap "failed to find files: "
                (Wrap ("invalid glob pattern " +:+ Quote "[a" +:+ ": ") Filepath.ErrBadPattern)))
       (Some (mkSigner (mkNoting [] exampleSigner)))
       (Some (mkFileFinder ())),
     threeFiles).
Proof.
  apply (@run_finder_error Example.library Example.programs _ _ _ _
    (mkActionInputs "PRIVATE KEY" "" true true false "[a" "" "/w" "gopgp" "info")
    exampleSigner () () "/w" [] _ threeFiles threeFiles threeFiles).
  - reflexivity.
  - reflexivity.
Defined.

(** A public key in the place of the private key: the constructor of the
    library-backed signer fails, and the Signer that NewSigner returns with
    the error is not nil, but holds a nil pointer. *)
Lemma NewSigner_result_witness :
  let r := @NewSigner Example.library Example.programs "gopgp" "PUBLIC KEY" "" threeFiles in
  r.1.1 = Some (mkSigner (None : option (@GoPGP.GoPGPSigner Example.library))) ∧
  r.1.2 = Some (New "provided key is not a private key") ∧
  r.2 = threeFiles.
Proof.
  intros r.
  destruct (@NewSigner_result Example.library Example.programs "gopgp" "PUBLIC KEY" ""
    threeFiles) as (Hgo & _ & _ & _ & Hworld & _).
  destruct (Hgo eq_refl) as (pointer & Hsigner & _ & Hnew).
  vm_compute in Hnew. injection Hnew as ->.
  split_and!; [exact Hsigner|reflexivity|by apply Hworld].
Defined.

(** The test TestGoPGPSigner_SignFile_NonexistentFile; and a file whose
    signature cannot be written, a directory being in its place. *)
Lemma GoPGPSigner_SignFile_failure_witness :
  SignFile exampleSigner "/w/missing.txt" exampleOpts threeFiles =
    ((exampleSigner,
      Some (Wrap "failed to read file: " (Os.PathError "open" "/w/missing.txt" Os.ENOENT))),
     threeFiles) ∧
  entryAt threeFiles "/w/missing.txt" = None ∧
  ∃ w',
    SignFile exampleSigner "/w/b.txt" exampleOpts threeFiles =
      ((exampleSigner,
        Some (Wrap "failed to write signature: "
                (Os.PathError "open" "/w/b.txt.asc" Os.EISDIR))),
       w') ∧
    entryAt w' "/w/b.txt" = entryAt threeFiles "/w/b.txt".
Proof.
  split; [reflexivity|]. split.
  - destruct (@GoPGPSigner_SignFile_failure Example.library exampleSigner exampleSigner
      "/w/missing.txt" exampleOpts threeFiles threeFiles _ eq_refl)
      as (_ & _ & [(_ & Hnone & _)|[(_ & Hdir & _)|[(_ & d & sg & Hfile & _)|(d & sg & c & Hfile & _)]]]).
    + exact Hnone.
    + discriminate Hdir.
    + discriminate Hfile.
    + discriminate Hfile.
  - eexists. split; [vm_compute; reflexivity|].
    destruct (@GoPGPSigner_SignFile_failure Example.library exampleSigner exampleSigner
      "/w/b.txt" exampleOpts threeFiles _ _ eq_refl) as (_ & Hframe & _).
    by apply Hframe.
Defined.

(** Signing with a passphrase: the command line and the standard input. *)
Lemma GnuPGSigner_SignFile_command_witness :
  ∃ w',
    @SignFile _ (@GnuPG.GnuPGSigner_Signer Example.programs)
      (GnuPG.mkGnuPGSigner "secret123") "/w/a.txt" exampleOpts threeFiles =
      ((GnuPG.mkGnuPGSigner "secret123", None), w') ∧
    procs w' =
      [mkCommand "gpg"
         ["--batch"; "--yes"; "--pinentry-mode"; "loopback"; "--passphrase-fd"; "0";
          "--armor"; "--detach-sign"; "/w/a.txt"]
         "secret123"].
Proof.
  eexists. split; [reflexivity|].
  destruct (@GnuPGSigner_SignFile_command Example.programs (GnuPG.mkGnuPGSigner "secret123")
    (GnuPG.mkGnuPGSigner "secret123") "/w/a.txt" exampleOpts threeFiles _ None eq_refl)
    as (_ & Hprocs & _).
  exact Hprocs.
Defined.

(** The example run with the gnupg backend: the import, then the three
    files in order. *)
Lemma run_gnupg_commands_witness :
  ∃ attempted,
    attempted `prefix_of` ["/w/a.txt"; "/w/b.txt"; "/w/c.txt"] ∧
    procs (@run Example.library Example.programs
             (mkActionInputs "PRIVATE KEY" "" true true false "*.txt" "" "/w" "gnupg" "info")
             None None threeFiles).2 =
      gpgImport "PRIVATE KEY" ::
        (gpgCommand (GnuPG.mkGnuPGSigner "") exampleOpts <$> attempted) ∧
    attempted = ["/w/a.txt"; "/w/b.txt"; "/w/c.txt"].
Proof.
  destruct (@run_gnupg_commands Example.library Example.programs
    (mkActionInputs "PRIVATE KEY" "" true true false "*.txt" "" "/w" "gnupg" "info")
    threeFiles eq_refl) as (attempted & Hpre & Hprocs & Hall).
  exists attempted. split; [exact Hpre|]. split; [exact Hprocs|]. exact (Hall eq_refl).
Defined.

(** The example run with the gopgp backend on a machine with one text file
    in the working directory. *)
Lemma run_gopgp_artifacts_witness :
  procs (@run Example.library Example.programs exampleArgs None None deepTree).2 = [] ∧
  signedFile exampleOpts "/w/top.txt"
    (@run Example.library Example.programs exampleArgs None None deepTree).2.
Proof.
  destruct (@run_gopgp_artifacts Example.library Example.programs exampleArgs deepTree eq_refl)
    as (Hprocs & _ & _ & Hall).
  split; [exact Hprocs|]. specialize (Hall eq_refl).
  apply Forall_cons in Hall as [Hfile _]. exact Hfile.
Defined.

(** The example run with the gopgp backend fails at the second file; the
    third file and the directory are as they were. *)
Lemma run_gopgp_writes_only_signatures_witness :
  entryAt (@run Example.library Example.programs exampleArgs None None threeFiles).2 "/w/c.txt"
    = Some (IsFile "gamma").
Proof.
  apply (@run_gopgp_writes_only_signatures Example.library Example.programs exampleArgs
    threeFiles "/w/c.txt" eq_refl).
  repeat constructor; discriminate.
Defined.

Import Filepath Files.

(** The test "match by extension". *)
Lemma shouldExclude_rules_witness :
  shouldExclude "/work/file.sha256" "/work" ["*.sha256"] = true ∧
  ∃ exclude, exclude ∈ ["*.sha256"] ∧ TrimSpace exclude ≠ "" ∧
             excludedBy "/work" "/work/file.sha256" (TrimSpace exclude).
Proof.
  split; [reflexivity|].
  apply (shouldExclude_rules "/work/file.sha256" "/work" ["*.sha256"]); [discriminate|reflexivity].
Defined.

(** The second text file is resolved and no exclusion pattern excludes
    it. *)
Lemma FindFiles_complete_witness :
  "/w/b.txt" ∈ (FindFiles threeFiles "/w" ["*.txt"] ["a.*"; "c.txt"]).1.
Proof.
  apply (FindFiles_complete threeFiles "/w" ["*.txt"] ["a.*"; "c.txt"] "/w/b.txt" eq_refl).
  split.
  - vm_compute. set_solver.
  - intros exclude Hin Hne.
    apply elem_of_cons in Hin as [->|Hin].
    { intros [Hm|Hm|name Hstar Hname Hm|Hm]; discriminate. }
    apply elem_of_cons in Hin as [->|Hin].
    { intros [Hm|Hm|name Hstar Hname Hm|Hm]; discriminate. }
    by apply elem_of_nil in Hin.
Defined.

(** The test "match by exact name". *)
Lemma shouldExclude_by_name_witness :
  shouldExclude "/work/secret.txt" "/work" ["*.bak"; " secret.txt "] = true.
Proof.
  apply (shouldExclude_by_name "/work/secret.txt" "/work" ["*.bak"; " secret.txt "]
    " secret.txt ").
  - set_solver.
  - reflexivity.
  - left. reflexivity.
  - discriminate.
Defined.

(** A file that is there, a file that is not, and a directory. *)
Lemma FindFiles_literal_witness :
  FindFiles threeFiles "/w" ["a.txt"] [] = (["/w/a.txt"], None) ∧
  FindFiles threeFiles "/w" ["missing.txt"] [] = ([], None) ∧
  FindFiles threeFiles "/w" ["b.txt.asc"] [] = ([], None).
Proof.
  split_and!.
  - apply (FindFiles_literal threeFiles "/w" "a.txt" []); [discriminate|reflexivity..].
  - apply (FindFiles_literal threeFiles "/w" "missing.txt" []); [discriminate|reflexivity..].
  - apply (FindFiles_literal threeFiles "/w" "b.txt.asc" []); [discriminate|reflexivity..].
Defined.

(** The files at the top of the working directory; the directory that the
    pattern matches as well is not returned. *)
Lemma FindFiles_returns_files_witness :
  Forall (λ f, (∃ info, Os.Stat deepTree f = (Some info, None) ∧ IsDir info = false) ∧
               ∃ data, entryAt deepTree f = Some (IsFile data))
    (FindFiles deepTree "/w" ["*"; " *.txt"] []).1 ∧
  (FindFiles deepTree "/w" ["*"; " *.txt"] []).1 = ["/w/a"; "/w/top.txt"] ∧
  (FilepathFS.Glob deepTree "/w/*").1 = ["/w/a"; "/w/d"; "/w/top.txt"].
Proof.
  split; [|split; reflexivity].
  apply (FindFiles_returns_files deepTree "/w" ["*"; " *.txt"] []).
  by repeat constructor.
Defined.

Import MainOutput.

(** A second output in the file of outputs. *)
Lemma setActionOutput_appends_witness :
  ∃ w',
    setActionOutput "b" "2" (mkConsole "" "") outputWorld = (mkConsole "" "", w') ∧
    entryAt w' "/out" = Some (IsFile ("a=1" +:+ newline +:+ "b=2" +:+ newline)).
Proof.
  destruct (setActionOutput_appends "b" "2" (mkConsole "" "") outputWorld "/out")
    as (w' & Hset & Hfile & _).
  - apply lookup_insert_eq.
  - discriminate.
  - reflexivity.
  - exists w'. split; [exact Hset|exact Hfile].
Defined.

(** A value that holds a line break sets a second output. *)
Lemma setActionOutput_unescaped_witness :
  entryAt (setActionOutput "b" ("2" +:+ newline +:+ "c=3") (mkConsole "" "") outputWorld).2 "/out"
    = Some (IsFile ("a=1" +:+ newline +:+ "b=2" +:+ newline +:+ "c=3" +:+ newline)).
Proof.
  destruct (setActionOutput_unescaped "b" "2" "c" "3" (mkConsole "" "") outputWorld "/out")
    as (_ & _ & Htwo & Hone).
  - apply lookup_insert_eq.
  - discriminate.
  - reflexivity.
  - etrans; [exact Hone|]. exact Htwo.
Defined.

(** The test "successful signing multiple files". *)
Lemma run_with_mocks_witness :
  @run Example.library Example.programs
    (mkActionInputs "test-key" "" true false false ("*.txt" +:+ newline +:+ "*.bin") "" "/tmp/test"
       "" "")
    (Some (mkSigner (MockSigner.mkMockSigner [] [] None)))
    (Some (mkFileFinder
       (MockFileFinder.mkMockFileFinder ["/tmp/test/file.txt"; "/tmp/test/file.bin"] None "")))
    threeFiles =
    (mkOutcome None
       (Some (mkSigner
          (MockSigner.mkMockSigner ["/tmp/test/file.txt"; "/tmp/test/file.bin"]
             [mkSignOptions true false false; mkSignOptions true false false] None)))
       (Some (mkFileFinder
          (MockFileFinder.mkMockFileFinder ["/tmp/test/file.txt"; "/tmp/test/file.bin"] None
             "/tmp/test"))),
     threeFiles).
Proof.
  apply (@run_with_mocks Example.library Example.programs
    (mkActionInputs "test-key" "" true false false ("*.txt" +:+ newline +:+ "*.bin") "" "/tmp/test"
       "" "")
    (MockSigner.mkMockSigner [] [] None)
    (MockFileFinder.mkMockFileFinder ["/tmp/test/file.txt"; "/tmp/test/file.bin"] None "")
    "/tmp/test" threeFiles threeFiles); reflexivity.
Defined.

(** The test "signer error". *)
Lemma run_with_failing_mock_witness :
  @run Example.library Example.programs
    (mkActionInputs "test-key" "" false false false "*.txt" "" "/tmp/test" "" "")
    (Some (mkSigner (MockSigner.mkMockSigner [] [] (Some (New "permission denied")))))
    (Some (mkFileFinder (MockFileFinder.mkMockFileFinder ["/tmp/test/file.txt"] None "")))
    threeFiles =
    (mkOutcome
       (Some (Wrap "failed to sign file /tmp/test/file.txt: " (New "permission denied")))
       (Some (mkSigner (MockSigner.mkMockSigner [] [] (Some (New "permission denied")))))
       (Some (mkFileFinder
          (MockFileFinder.mkMockFileFinder ["/tmp/test/file.txt"] None "/tmp/test"))),
     threeFiles).
Proof.
  apply (@run_with_failing_mock Example.library Example.programs
    (mkActionInputs "test-key" "" false false false "*.txt" "" "/tmp/test" "" "")
    (MockSigner.mkMockSigner [] [] (Some (New "permission denied")))
    (MockFileFinder.mkMockFileFinder ["/tmp/test/file.txt"] None "")
    "/tmp/test" threeFiles threeFiles (New "permission denied") "/tmp/test/file.txt" []);
    reflexivity.
Defined.

End Examples.
